(** * Role and permission explorer: the permission engine

    A shallow embedding of the permission module of the explorer
    (the TypeScript file that declares [Permission], the catalog
    [permissions] and the functions [getSensitivityGroups],
    [getPermissionsForRole], [getPermissionsByApiNames],
    [groupPermissions], [generateCanDo], [generateCannotDo] and
    [generateRiskAssessment]) and of the selection state of the dialog
    that customizes a role (the page component), followed by the
    properties of these functions.

    Conventions of the embedding.
    - A TypeScript [string] is the sequence of its UTF-16 code units.  The
      embedding covers the strings whose code units are below 256, one
      character of a [string] per code unit; every string of the catalog
      is ASCII.  On these strings [toLowerCase] maps A-Z and the capitals
      U+00C0-U+00DE other than the multiplication sign U+00D7 to the code
      unit 32 above, and nothing else.
    - An object built from a literal or from [{}] inherits the members of
      [Object.prototype].  A read [obj[key]] of a key that is not an own
      property yields the inherited member when [key] is one of
      [Js.objectPrototypeNames] and [undefined] otherwise; an inherited
      member is truthy and has neither [push] nor [add], so that calling
      one of them on it throws a [TypeError].
    - [Record<string, string>] that is only read by key ([roleAccess]) is
      the [gmap string string] of its own properties; the grouping returned
      by [groupPermissions], whose callers sort the labels themselves, is
      the [gmap] of its own properties as well.  An object that the code
      enumerates with [Object.entries] is the association list of its own
      properties in insertion order; [Js.entries] puts the keys that are
      array indices first, in ascending order, as [Object.entries] does.
    - A [Set] that is only queried ([has], [size]) is a [gset]; a [Set] that
      is iterated is the duplicate-free list of its elements in insertion
      order.
    - Scores are integers.  The source multiplies them by the decimal
      constants 0.2 and 0.3 and rounds with [Math.round]; here the product
      is the exact rational and [Math.round] rounds halves up.  The two
      agree on every count below 2^40: away from a half the binary64
      product is within 2^-12 of the rational one, and a product that is
      mathematically a half is the binary64 half as well (the relative
      error of the constant 0.3 is below 2^-54).  The comparison
      [writeRatio > 0.7] is the comparison of the rationals for the same
      reason (the quotient 7/10 is the binary64 constant 0.7).
    - The [description] text of a risk factor is display only; a factor
      keeps its [name], [level] and [count]. *)

From stdpp Require Import base list strings gmap pretty.
From Stdlib Require Import Ascii ZArith Lia.

(** ** JavaScript primitives used by the module *)

Module Js.

(** [c.toLowerCase()] on one code unit below 256: the capitals are A-Z
    (65-90) and U+00C0-U+00DE (192-222) without the multiplication sign
    U+00D7 (215). *)
Definition lowerChar (c : Ascii.ascii) : Ascii.ascii :=
  let n := Ascii.nat_of_ascii c in
  if (65 <=? n)%nat && (n <=? 90)%nat then Ascii.ascii_of_nat (n + 32)
  else if (192 <=? n)%nat && (n <=? 222)%nat && negb (n =? 215)%nat
       then Ascii.ascii_of_nat (n + 32)
  else c.

(** [s.toLowerCase()] *)
Fixpoint toLowerCase (s : string) : string :=
  match s with
  | EmptyString => EmptyString
  | String c t => String (lowerChar c) (toLowerCase t)
  end.

(** [s.includes(needle)] *)
Fixpoint includes (s needle : string) : bool :=
  String.prefix needle s ||
  match s with
  | EmptyString => false
  | String _ t => includes t needle
  end.

(** [s.replace(/_/g, " ")] *)
Fixpoint replaceUnderscores (s : string) : string :=
  match s with
  | EmptyString => EmptyString
  | String c t =>
      String (if Ascii.eqb c "_"%char then " "%char else c)
             (replaceUnderscores t)
  end.

(** Truthiness of a string: only the empty string is falsy. *)
Definition truthy (s : string) : bool := negb (String.eqb s "").

(** The property names every object inherits from [Object.prototype]. *)
Definition objectPrototypeNames : list string :=
  [ "constructor"; "hasOwnProperty"; "isPrototypeOf";
    "propertyIsEnumerable"; "toLocaleString"; "toString"; "valueOf";
    "__defineGetter__"; "__defineSetter__"; "__lookupGetter__";
    "__lookupSetter__"; "__proto__" ].

(** Truthiness of [obj[key]] for a string-valued record whose own
    property at [key] is [own]: an own string is truthy unless empty; when
    there is no own property the read yields the inherited member, which
    is truthy, or [undefined], which is falsy. *)
Definition truthyAt (key : string) (own : option string) : bool :=
  match own with
  | Some s => truthy s
  | None => bool_decide (key ∈ objectPrototypeNames)
  end.

(** [key in obj] for a string-valued record with the own properties
    [own]: the key is own, or inherited from [Object.prototype]. *)
Definition hasProperty (key : string) (own : gmap string string) : bool :=
  bool_decide (is_Some (own !! key))
  || bool_decide (key ∈ objectPrototypeNames).

(** [Math.round(n / d)] for [0 < d]: the nearest integer, halves up. *)
Definition round (n d : Z) : Z := (2 * n + d) / (2 * d).

(** A [Set<string>] that is iterated: its elements in insertion order. *)
Definition OrderedSet := list string.

(** [s.add(x)] *)
Definition add (x : string) (s : OrderedSet) : OrderedSet :=
  if bool_decide (x ∈ s) then s else s ++ [x].

(** [new Set(l)] *)
Definition setOf (l : list string) : OrderedSet :=
  foldl (λ s x, add x s) [] l.

(** The own properties of an object, in insertion order. *)
Definition Entries (V : Type) := list (string * V).

(** [obj[key]] *)
Fixpoint get {V} (key : string) (obj : Entries V) : option V :=
  match obj with
  | [] => None
  | (k, v) :: rest => if String.eqb k key then Some v else get key rest
  end.

(** [obj[key] = v]: an existing key keeps its position. *)
Fixpoint set {V} (key : string) (v : V) (obj : Entries V) : Entries V :=
  match obj with
  | [] => [(key, v)]
  | (k, w) :: rest =>
      if String.eqb k key then (k, v) :: rest
      else (k, w) :: set key v rest
  end.

(** The value of a decimal digit. *)
Definition digitValue (c : Ascii.ascii) : option N :=
  let n := Ascii.N_of_ascii c in
  if (48 <=? n)%N && (n <=? 57)%N then Some (n - 48)%N else None.

(** The number a string of decimal digits denotes. *)
Fixpoint decimalValue (acc : N) (s : string) : option N :=
  match s with
  | EmptyString => Some acc
  | String c t =>
      match digitValue c with
      | Some d => decimalValue (10 * acc + d)%N t
      | None => None
      end
  end.

(** A key is an array index when it is the canonical decimal numeral of
    an integer below 2^32 - 1: no sign, no leading zero. *)
Definition arrayIndex (key : string) : option N :=
  match key with
  | EmptyString => None
  | String c t =>
      if Ascii.eqb c "0"%char && negb (String.eqb t "") then None
      else match decimalValue 0 key with
           | Some n => if (n <? 4294967295)%N then Some n else None
           | None => None
           end
  end.

(** Insertion by ascending index. *)
Fixpoint insertByIndex {V} (e : N * (string * V))
    (sorted : list (N * (string * V))) : list (N * (string * V)) :=
  match sorted with
  | [] => [e]
  | e' :: rest =>
      if (e.1 <? e'.1)%N then e :: sorted
      else e' :: insertByIndex e rest
  end.

(** [Object.entries(obj)]: the array-index keys in ascending order, then
    the other keys in insertion order. *)
Definition entries {V} (obj : Entries V) : list (string * V) :=
  let indexed :=
    omap (λ e : string * V, (λ n, (n, e)) <$> arrayIndex e.1) obj in
  let named :=
    filter (λ e : string * V, arrayIndex e.1 = None) obj in
  (snd <$> foldr insertByIndex [] indexed) ++ named.

(** The outcome of a call: a value, or an exception of some kind. *)
Inductive Completion (A : Type) : Type :=
| Normal (value : A)
| Throw (kind : string).
Arguments Normal {A} value.
Arguments Throw {A} kind.

(** Sequencing: an exception ends the computation. *)
Definition bind {A B} (m : Completion A) (k : A → Completion B)
    : Completion B :=
  match m with
  | Normal a => k a
  | Throw kind => Throw kind
  end.

(** A loop whose body may throw. *)
Fixpoint foldM {A S} (body : S → A → Completion S) (start : S) (l : list A)
    : Completion S :=
  match l with
  | [] => Normal start
  | x :: rest => bind (body start x) (λ next, foldM body next rest)
  end.

End Js.

(** ** Data model *)

Record Permission : Type := {
  apiName : string;
  displayName : string;
  description : string;
  productCategory : string;
  taskCategories : list string;
  actions : string;
  operationType : string;
  riskLevel : string;
  hasPII : bool;
  hasFinancialData : bool;
  hasPaymentCredentials : bool;
  roleAccess : gmap string string
}.

(** An object literal [{ role: "level", ... }]. *)
Definition access (entries : list (string * string)) : gmap string string :=
  list_to_map entries.

(** ** The permission catalog

    [displayName] is [getPermissionDisplayName(apiName)]; every catalog
    name has an entry in [HUMAN_FRIENDLY_NAMES], which is the value
    recorded here. *)

Definition account_admin_management_operations : Permission :=
  {| apiName := "account_admin_management_operations";
     displayName := "Account Administration";
     description := "Administrative account operations (does not include team member management)";
     productCategory := "Account & Connect";
     taskCategories := ["Configure settings"];
     actions := "write";
     operationType := "Write";
     riskLevel := "Critical";
     hasPII := false;
     hasFinancialData := false;
     hasPaymentCredentials := false;
     roleAccess :=
       access [("super_admin", "write"); ("admin", "write");
         ("developer", "write")] |}.

Definition account_operations : Permission :=
  {| apiName := "account_operations";
     displayName := "Account Management";
     description := "Read access to base account details";
     productCategory := "Account & Connect";
     taskCategories := ["Configure settings"; "Monitor platform"];
     actions := "read, write";
     operationType := "Read + Write";
     riskLevel := "Standard";
     hasPII := false;
     hasFinancialData := false;
     hasPaymentCredentials := false;
     roleAccess :=
       access [("super_admin", "write"); ("admin", "write");
         ("view_only", "read"); ("support", "write");
         ("support_associate", "write"); ("analyst", "read");
         ("refund_analyst", "read"); ("sandbox_admin", "read")] |}.

Definition accounts_kyc_basic : Permission :=
  {| apiName := "accounts_kyc_basic";
     displayName := "Basic Identity Verification";
     description := "Read access to basic KYC fields";
     productCategory := "Account & Connect";
     taskCategories := ["Verify identity"; "Handle customer issues"];
     actions := "read";
     operationType := "Read-only";
     riskLevel := "Standard";
     hasPII := true;
     hasFinancialData := false;
     hasPaymentCredentials := false;
     roleAccess :=
       access [("super_admin", "read"); ("admin", "read");
         ("view_only", "read"); ("identity_analyst", "read")] |}.

Definition application_fee_operations : Permission :=
  {| apiName := "application_fee_operations";
     displayName := "Application Fees";
     description := "Application fees for platforms";
     productCategory := "Account & Connect";
     taskCategories := ["Monitor platform"; "Export & analyze data"];
     actions := "read, write";
     operationType := "Read + Write";
     riskLevel := "Standard";
     hasPII := false;
     hasFinancialData := true;
     hasPaymentCredentials := false;
     roleAccess :=
       access [("super_admin", "write"); ("admin", "write");
         ("view_only", "read"); ("support", "write"); ("analyst", "write")] |}.

Definition connect_settings : Permission :=
  {| apiName := "connect_settings";
     displayName := "Connect Platform Settings";
     description := "Manage Connect settings";
     productCategory := "Account & Connect";
     taskCategories := ["Configure settings"; "Monitor platform"];
     actions := "write";
     operationType := "Write";
     riskLevel := "Elevated";
     hasPII := false;
     hasFinancialData := false;
     hasPaymentCredentials := false;
     roleAccess :=
       access [("super_admin", "write"); ("admin", "write");
         ("support", "write"); ("support_associate", "write")] |}.

Definition connected_account_operations : Permission :=
  {| apiName := "connected_account_operations";
     displayName := "Connected Account Management";
     description := "Connected accounts management";
     productCategory := "Account & Connect";
     taskCategories := ["Monitor platform"; "Handle customer issues"];
     actions := "read, write";
     operationType := "Read + Write";
     riskLevel := "Standard";
     hasPII := true;
     hasFinancialData := false;
     hasPaymentCredentials := false;
     roleAccess :=
       access [("super_admin", "write"); ("admin", "write");
         ("view_only", "read"); ("developer", "write"); ("support", "write");
         ("support_associate", "write"); ("analyst", "read")] |}.

Definition embeddable_key_admin : Permission :=
  {| apiName := "embeddable_key_admin";
     displayName := "Embedded Payment Keys";
     description := "Embeddable keys admin";
     productCategory := "Account & Connect";
     taskCategories := ["Configure settings"; "Develop & integrate"];
     actions := "write";
     operationType := "Write";
     riskLevel := "Elevated";
     hasPII := false;
     hasFinancialData := false;
     hasPaymentCredentials := true;
     roleAccess :=
       access [("super_admin", "write"); ("admin", "write")] |}.

Definition sandbox_creation : Permission :=
  {| apiName := "sandbox_creation";
     displayName := "Sandbox Creation";
     description := "Create sandbox organizations";
     productCategory := "Account & Connect";
     taskCategories := ["Develop & integrate"];
     actions := "write";
     operationType := "Write";
     riskLevel := "Standard";
     hasPII := false;
     hasFinancialData := false;
     hasPaymentCredentials := false;
     roleAccess :=
       access [("super_admin", "write"); ("admin", "write");
         ("developer", "write"); ("sandbox_admin", "write")] |}.

Definition team_management : Permission :=
  {| apiName := "team_management";
     displayName := "Team & Role Management";
     description := "Invite, remove, and change roles for team members";
     productCategory := "Account & Connect";
     taskCategories := ["Manage team access"];
     actions := "read, write";
     operationType := "Read + Write";
     riskLevel := "Elevated";
     hasPII := false;
     hasFinancialData := false;
     hasPaymentCredentials := false;
     roleAccess :=
       access [("super_admin", "write"); ("admin", "write");
         ("view_only", "read"); ("iam_admin", "write")] |}.

Definition sensitive_resources : Permission :=
  {| apiName := "sensitive_resources";
     displayName := "API Keys & Secrets";
     description := "API keys and secrets";
     productCategory := "Admin";
     taskCategories := ["Develop & integrate"; "Configure settings"];
     actions := "read";
     operationType := "Read-only";
     riskLevel := "Standard";
     hasPII := false;
     hasFinancialData := false;
     hasPaymentCredentials := true;
     roleAccess :=
       access [("super_admin", "read"); ("admin", "read");
         ("view_only", "read"); ("developer", "read")] |}.

Definition billing_operations : Permission :=
  {| apiName := "billing_operations";
     displayName := "Billing & Usage Metering";
     description := "Billing meters and bills";
     productCategory := "Billing & Subscriptions";
     taskCategories := ["Manage billing"; "Export & analyze data"];
     actions := "read, write";
     operationType := "Read + Write";
     riskLevel := "Standard";
     hasPII := false;
     hasFinancialData := true;
     hasPaymentCredentials := false;
     roleAccess :=
       access [("super_admin", "write"); ("admin", "write");
         ("view_only", "read"); ("developer", "write"); ("analyst", "write")] |}.

Definition billing_settings_operations : Permission :=
  {| apiName := "billing_settings_operations";
     displayName := "Billing Settings & Profiles";
     description := "Billing settings and profiles";
     productCategory := "Billing & Subscriptions";
     taskCategories := ["Configure settings"; "Manage billing"];
     actions := "read, write";
     operationType := "Read + Write";
     riskLevel := "Elevated";
     hasPII := false;
     hasFinancialData := false;
     hasPaymentCredentials := false;
     roleAccess :=
       access [("super_admin", "write"); ("admin", "write");
         ("view_only", "read"); ("developer", "write"); ("support", "write");
         ("support_associate", "write"); ("analyst", "write");
         ("refund_analyst", "read"); ("dispute_analyst", "read")] |}.

Definition credit_note_operations : Permission :=
  {| apiName := "credit_note_operations";
     displayName := "Credit Notes";
     description := "Manage credit notes";
     productCategory := "Billing & Subscriptions";
     taskCategories := ["Handle customer issues"; "Manage billing"];
     actions := "read, write";
     operationType := "Read + Write";
     riskLevel := "Standard";
     hasPII := false;
     hasFinancialData := true;
     hasPaymentCredentials := false;
     roleAccess :=
       access [("super_admin", "write"); ("admin", "write");
         ("view_only", "read"); ("developer", "write"); ("support", "write");
         ("support_associate", "write"); ("analyst", "write");
         ("refund_analyst", "write")] |}.

Definition invoice_operations : Permission :=
  {| apiName := "invoice_operations";
     displayName := "Invoices & Quotes";
     description := "Manage invoices and quotes";
     productCategory := "Billing & Subscriptions";
     taskCategories := ["Handle customer issues"; "Manage billing"; "Export & analyze data"];
     actions := "read, write";
     operationType := "Read + Write";
     riskLevel := "Standard";
     hasPII := false;
     hasFinancialData := true;
     hasPaymentCredentials := false;
     roleAccess :=
       access [("super_admin", "write"); ("admin", "write");
         ("view_only", "read"); ("developer", "write"); ("support", "write");
         ("support_associate", "write"); ("analyst", "write");
         ("refund_analyst", "read"); ("dispute_analyst", "read")] |}.

Definition subscription_operations : Permission :=
  {| apiName := "subscription_operations";
     displayName := "Subscriptions";
     description := "Manage subscriptions";
     productCategory := "Billing & Subscriptions";
     taskCategories := ["Handle customer issues"; "Manage billing"];
     actions := "read, write";
     operationType := "Read + Write";
     riskLevel := "Standard";
     hasPII := false;
     hasFinancialData := true;
     hasPaymentCredentials := false;
     roleAccess :=
       access [("super_admin", "write"); ("admin", "write");
         ("view_only", "read"); ("developer", "write"); ("support", "write");
         ("support_associate", "write"); ("analyst", "write");
         ("refund_analyst", "read"); ("dispute_analyst", "read")] |}.

Definition capital_operations : Permission :=
  {| apiName := "capital_operations";
     displayName := "Capital Financing";
     description := "Capital for Platforms";
     productCategory := "Capital & Treasury";
     taskCategories := ["Monitor financials"; "Export & analyze data"];
     actions := "read, write";
     operationType := "Read + Write";
     riskLevel := "Standard";
     hasPII := false;
     hasFinancialData := true;
     hasPaymentCredentials := false;
     roleAccess :=
       access [("super_admin", "write"); ("admin", "write");
         ("view_only", "read"); ("developer", "write"); ("analyst", "write")] |}.

Definition treasury_operations : Permission :=
  {| apiName := "treasury_operations";
     displayName := "Treasury Accounts";
     description := "Treasury financial accounts";
     productCategory := "Capital & Treasury";
     taskCategories := ["Monitor financials"; "Export & analyze data"];
     actions := "read, write";
     operationType := "Read + Write";
     riskLevel := "Standard";
     hasPII := false;
     hasFinancialData := true;
     hasPaymentCredentials := false;
     roleAccess :=
       access [("super_admin", "write"); ("admin", "write");
         ("view_only", "read"); ("analyst", "read")] |}.

Definition identity_verification_operations : Permission :=
  {| apiName := "identity_verification_operations";
     displayName := "Identity Verification";
     description := "Identity verification";
     productCategory := "Compliance & Identity";
     taskCategories := ["Verify identity"; "Handle customer issues"];
     actions := "read, write";
     operationType := "Read + Write";
     riskLevel := "Standard";
     hasPII := true;
     hasFinancialData := false;
     hasPaymentCredentials := false;
     roleAccess :=
       access [("super_admin", "write"); ("admin", "write");
         ("view_only", "read"); ("developer", "write"); ("analyst", "write");
         ("identity_analyst", "write")] |}.

Definition climate_operations : Permission :=
  {| apiName := "climate_operations";
     displayName := "Climate Orders";
     description := "Climate orders";
     productCategory := "Crypto & Climate";
     taskCategories := ["Process transactions"; "Configure settings"];
     actions := "read, write";
     operationType := "Read + Write";
     riskLevel := "Standard";
     hasPII := false;
     hasFinancialData := false;
     hasPaymentCredentials := false;
     roleAccess :=
       access [("super_admin", "write"); ("admin", "write");
         ("view_only", "read"); ("developer", "write"); ("analyst", "write")] |}.

Definition crypto_operations : Permission :=
  {| apiName := "crypto_operations";
     displayName := "Crypto Accounts";
     description := "Crypto financial accounts";
     productCategory := "Crypto & Climate";
     taskCategories := ["Process transactions"];
     actions := "read, write";
     operationType := "Read + Write";
     riskLevel := "Standard";
     hasPII := false;
     hasFinancialData := false;
     hasPaymentCredentials := false;
     roleAccess :=
       access [("super_admin", "write"); ("admin", "write");
         ("view_only", "read"); ("developer", "write"); ("analyst", "write")] |}.

Definition customer_operations : Permission :=
  {| apiName := "customer_operations";
     displayName := "Customer Profiles";
     description := "Manage customer profiles";
     productCategory := "Customers";
     taskCategories := ["Handle customer issues"; "Export & analyze data"];
     actions := "read, write";
     operationType := "Read + Write";
     riskLevel := "Standard";
     hasPII := true;
     hasFinancialData := false;
     hasPaymentCredentials := false;
     roleAccess :=
       access [("super_admin", "write"); ("admin", "write");
         ("view_only", "read"); ("developer", "write"); ("support", "write");
         ("support_associate", "write"); ("analyst", "write");
         ("refund_analyst", "read"); ("dispute_analyst", "read")] |}.

Definition customer_portal_operations : Permission :=
  {| apiName := "customer_portal_operations";
     displayName := "Customer Portal";
     description := "Create customer portals";
     productCategory := "Customers";
     taskCategories := ["Configure settings"; "Handle customer issues"];
     actions := "write";
     operationType := "Write";
     riskLevel := "Standard";
     hasPII := false;
     hasFinancialData := false;
     hasPaymentCredentials := false;
     roleAccess :=
       access [("super_admin", "write"); ("admin", "write");
         ("analyst", "write")] |}.

Definition dispute_operations : Permission :=
  {| apiName := "dispute_operations";
     displayName := "Disputes";
     description := "Manage disputes";
     productCategory := "Disputes & Fraud Prevention";
     taskCategories := ["Handle customer issues"; "Manage disputes & fraud"];
     actions := "read, write";
     operationType := "Read + Write";
     riskLevel := "Standard";
     hasPII := false;
     hasFinancialData := false;
     hasPaymentCredentials := false;
     roleAccess :=
       access [("super_admin", "write"); ("admin", "write");
         ("view_only", "read"); ("developer", "write"); ("support", "write");
         ("support_associate", "write"); ("analyst", "write");
         ("refund_analyst", "read"); ("dispute_analyst", "write")] |}.

Definition radar_operations : Permission :=
  {| apiName := "radar_operations";
     displayName := "Fraud Prevention Rules";
     description := "Configure Radar fraud rules";
     productCategory := "Disputes & Fraud Prevention";
     taskCategories := ["Configure settings"; "Manage disputes & fraud"];
     actions := "read, write";
     operationType := "Read + Write";
     riskLevel := "Standard";
     hasPII := false;
     hasFinancialData := false;
     hasPaymentCredentials := false;
     roleAccess :=
       access [("super_admin", "write"); ("admin", "write");
         ("view_only", "read"); ("developer", "write"); ("support", "read");
         ("support_associate", "read"); ("analyst", "read");
         ("refund_analyst", "read")] |}.

Definition review_operations : Permission :=
  {| apiName := "review_operations";
     displayName := "Fraud Reviews";
     description := "Action fraud reviews";
     productCategory := "Disputes & Fraud Prevention";
     taskCategories := ["Handle customer issues"; "Manage disputes & fraud"];
     actions := "write";
     operationType := "Write";
     riskLevel := "Standard";
     hasPII := false;
     hasFinancialData := false;
     hasPaymentCredentials := false;
     roleAccess :=
       access [("super_admin", "write"); ("admin", "write");
         ("support", "write"); ("support_associate", "write");
         ("analyst", "write")] |}.

Definition balance_operations : Permission :=
  {| apiName := "balance_operations";
     displayName := "Account Balance";
     description := "View account balances";
     productCategory := "Financial Operations";
     taskCategories := ["Monitor financials"; "Export & analyze data"];
     actions := "read";
     operationType := "Read-only";
     riskLevel := "Standard";
     hasPII := false;
     hasFinancialData := true;
     hasPaymentCredentials := false;
     roleAccess :=
       access [("super_admin", "read"); ("admin", "read");
         ("view_only", "read"); ("support", "read");
         ("support_associate", "read"); ("analyst", "read");
         ("refund_analyst", "read"); ("dispute_analyst", "read")] |}.

Definition balance_transfer_operations : Permission :=
  {| apiName := "balance_transfer_operations";
     displayName := "Balance Transfers";
     description := "Transfer balances (high risk)";
     productCategory := "Financial Operations";
     taskCategories := ["Transfer funds"];
     actions := "write";
     operationType := "Write";
     riskLevel := "Critical";
     hasPII := false;
     hasFinancialData := true;
     hasPaymentCredentials := false;
     roleAccess :=
       access [("super_admin", "write"); ("admin", "write");
         ("analyst", "write")] |}.

Definition payout_operations : Permission :=
  {| apiName := "payout_operations";
     displayName := "Payouts";
     description := "Manage payouts";
     productCategory := "Financial Operations";
     taskCategories := ["Transfer funds"; "Monitor financials"];
     actions := "read, write";
     operationType := "Read + Write";
     riskLevel := "Standard";
     hasPII := false;
     hasFinancialData := true;
     hasPaymentCredentials := false;
     roleAccess :=
       access [("super_admin", "write"); ("admin", "write");
         ("view_only", "read"); ("analyst", "write")] |}.

Definition transfer_operations : Permission :=
  {| apiName := "transfer_operations";
     displayName := "Transfers";
     description := "Transfer operations";
     productCategory := "Financial Operations";
     taskCategories := ["Transfer funds"; "Monitor financials"];
     actions := "read, write";
     operationType := "Read + Write";
     riskLevel := "Standard";
     hasPII := false;
     hasFinancialData := true;
     hasPaymentCredentials := false;
     roleAccess :=
       access [("super_admin", "write"); ("admin", "write");
         ("view_only", "read"); ("analyst", "write")] |}.

Definition data_export_operations : Permission :=
  {| apiName := "data_export_operations";
     displayName := "Data Export";
     description := "Export bulk data";
     productCategory := "Integrations & Data";
     taskCategories := ["Export & analyze data"];
     actions := "read";
     operationType := "Read-only";
     riskLevel := "Standard";
     hasPII := true;
     hasFinancialData := true;
     hasPaymentCredentials := false;
     roleAccess :=
       access [("super_admin", "read"); ("admin", "read");
         ("view_only", "read"); ("developer", "read"); ("analyst", "read")] |}.

Definition dev_integration : Permission :=
  {| apiName := "dev_integration";
     displayName := "Developer Tools";
     description := "Development tools";
     productCategory := "Integrations & Data";
     taskCategories := ["Develop & integrate"];
     actions := "read, write";
     operationType := "Read + Write";
     riskLevel := "Standard";
     hasPII := false;
     hasFinancialData := false;
     hasPaymentCredentials := false;
     roleAccess :=
       access [("super_admin", "write"); ("admin", "write");
         ("view_only", "read"); ("developer", "write"); ("analyst", "write")] |}.

Definition reporting_operations : Permission :=
  {| apiName := "reporting_operations";
     displayName := "Financial Reports";
     description := "Run and access reports";
     productCategory := "Integrations & Data";
     taskCategories := ["Export & analyze data"; "Monitor financials"];
     actions := "read, write";
     operationType := "Read + Write";
     riskLevel := "Standard";
     hasPII := false;
     hasFinancialData := true;
     hasPaymentCredentials := false;
     roleAccess :=
       access [("super_admin", "write"); ("admin", "write");
         ("view_only", "read, write"); ("developer", "write");
         ("support", "write"); ("support_associate", "write");
         ("analyst", "write"); ("refund_analyst", "read")] |}.

Definition stripe_apps_development : Permission :=
  {| apiName := "stripe_apps_development";
     displayName := "Stripe Apps Development";
     description := "Build Stripe Apps";
     productCategory := "Integrations & Data";
     taskCategories := ["Develop & integrate"];
     actions := "read, write";
     operationType := "Read + Write";
     riskLevel := "Standard";
     hasPII := false;
     hasFinancialData := false;
     hasPaymentCredentials := false;
     roleAccess :=
       access [("super_admin", "write"); ("admin", "write");
         ("view_only", "read"); ("developer", "write"); ("analyst", "write")] |}.

Definition issuing_card_operations : Permission :=
  {| apiName := "issuing_card_operations";
     displayName := "Issuing Cards";
     description := "Manage issuing cards";
     productCategory := "Issuing & Cards";
     taskCategories := ["Handle customer issues"; "Manage cards"];
     actions := "read, write";
     operationType := "Read + Write";
     riskLevel := "Standard";
     hasPII := false;
     hasFinancialData := false;
     hasPaymentCredentials := true;
     roleAccess :=
       access [("super_admin", "write"); ("admin", "write");
         ("view_only", "read"); ("support", "write");
         ("support_associate", "read, write"); ("analyst", "write");
         ("issuing_support_agent", "write")] |}.

Definition charge : Permission :=
  {| apiName := "charge";
     displayName := "Charges (Read Only)";
     description := "Charge read access";
     productCategory := "Payments";
     taskCategories := ["Handle customer issues"; "Export & analyze data"];
     actions := "read";
     operationType := "Read-only";
     riskLevel := "Standard";
     hasPII := false;
     hasFinancialData := false;
     hasPaymentCredentials := false;
     roleAccess :=
       access [("view_only", "read"); ("refund_analyst", "read");
         ("dispute_analyst", "read")] |}.

Definition charge_operations : Permission :=
  {| apiName := "charge_operations";
     displayName := "Charges & Refunds";
     description := "Process charges and refunds";
     productCategory := "Payments";
     taskCategories := ["Handle customer issues"; "Process transactions"];
     actions := "write";
     operationType := "Write";
     riskLevel := "Standard";
     hasPII := false;
     hasFinancialData := true;
     hasPaymentCredentials := false;
     roleAccess :=
       access [("super_admin", "write"); ("admin", "write");
         ("developer", "write"); ("support", "write");
         ("support_associate", "write"); ("analyst", "write")] |}.

Definition payment_intent : Permission :=
  {| apiName := "payment_intent";
     displayName := "Payment Intents (Read Only)";
     description := "Payment intent read";
     productCategory := "Payments";
     taskCategories := ["Handle customer issues"; "Export & analyze data"];
     actions := "read";
     operationType := "Read-only";
     riskLevel := "Standard";
     hasPII := false;
     hasFinancialData := false;
     hasPaymentCredentials := false;
     roleAccess :=
       access [("view_only", "read"); ("refund_analyst", "read");
         ("dispute_analyst", "read")] |}.

Definition payment_intent_operations : Permission :=
  {| apiName := "payment_intent_operations";
     displayName := "Payment Intents";
     description := "Manage payment intents";
     productCategory := "Payments";
     taskCategories := ["Handle customer issues"; "Process transactions"];
     actions := "write";
     operationType := "Write";
     riskLevel := "Standard";
     hasPII := false;
     hasFinancialData := false;
     hasPaymentCredentials := false;
     roleAccess :=
       access [("super_admin", "write"); ("admin", "write");
         ("developer", "write"); ("support", "write");
         ("support_associate", "write"); ("analyst", "write")] |}.

Definition payment_processing : Permission :=
  {| apiName := "payment_processing";
     displayName := "Payment Methods";
     description := "Manage payment methods";
     productCategory := "Payments";
     taskCategories := ["Process transactions"; "Configure settings"];
     actions := "read, write";
     operationType := "Read + Write";
     riskLevel := "Standard";
     hasPII := false;
     hasFinancialData := false;
     hasPaymentCredentials := true;
     roleAccess :=
       access [("super_admin", "write"); ("admin", "write");
         ("view_only", "read"); ("developer", "write"); ("support", "write");
         ("support_associate", "write"); ("analyst", "write");
         ("refund_analyst", "read"); ("dispute_analyst", "read")] |}.

Definition checkout_operations : Permission :=
  {| apiName := "checkout_operations";
     displayName := "Checkout Sessions";
     description := "Manage checkout";
     productCategory := "Products & Orders";
     taskCategories := ["Process transactions"; "Configure settings"];
     actions := "read, write";
     operationType := "Read + Write";
     riskLevel := "Standard";
     hasPII := false;
     hasFinancialData := false;
     hasPaymentCredentials := false;
     roleAccess :=
       access [("super_admin", "write"); ("admin", "write");
         ("view_only", "read"); ("developer", "write"); ("support", "write");
         ("support_associate", "read"); ("analyst", "write")] |}.

Definition order_operations : Permission :=
  {| apiName := "order_operations";
     displayName := "Orders";
     description := "Manage orders";
     productCategory := "Products & Orders";
     taskCategories := ["Handle customer issues"; "Process transactions"];
     actions := "read, write";
     operationType := "Read + Write";
     riskLevel := "Standard";
     hasPII := false;
     hasFinancialData := false;
     hasPaymentCredentials := false;
     roleAccess :=
       access [("super_admin", "write"); ("admin", "write");
         ("view_only", "read"); ("developer", "write"); ("support", "write");
         ("support_associate", "write"); ("analyst", "write");
         ("refund_analyst", "read"); ("dispute_analyst", "read")] |}.

Definition order_refund_operations : Permission :=
  {| apiName := "order_refund_operations";
     displayName := "Order Refunds";
     description := "Process order refunds";
     productCategory := "Products & Orders";
     taskCategories := ["Handle customer issues"];
     actions := "write";
     operationType := "Write";
     riskLevel := "Standard";
     hasPII := false;
     hasFinancialData := true;
     hasPaymentCredentials := false;
     roleAccess :=
       access [("super_admin", "write"); ("admin", "write");
         ("analyst", "write"); ("refund_analyst", "write")] |}.

Definition product_operations : Permission :=
  {| apiName := "product_operations";
     displayName := "Products & Pricing";
     description := "Manage products and pricing";
     productCategory := "Products & Orders";
     taskCategories := ["Manage catalog"; "Configure settings"];
     actions := "read, write";
     operationType := "Read + Write";
     riskLevel := "Standard";
     hasPII := false;
     hasFinancialData := false;
     hasPaymentCredentials := false;
     roleAccess :=
       access [("super_admin", "write"); ("admin", "write");
         ("view_only", "read"); ("support", "write");
         ("support_associate", "read"); ("analyst", "write");
         ("refund_analyst", "read"); ("dispute_analyst", "read")] |}.

Definition promotion_operations : Permission :=
  {| apiName := "promotion_operations";
     displayName := "Promotions & Coupons";
     description := "Manage promotions";
     productCategory := "Products & Orders";
     taskCategories := ["Manage catalog"; "Configure settings"];
     actions := "read, write";
     operationType := "Read + Write";
     riskLevel := "Standard";
     hasPII := false;
     hasFinancialData := false;
     hasPaymentCredentials := false;
     roleAccess :=
       access [("super_admin", "write"); ("admin", "write");
         ("view_only", "read"); ("developer", "write"); ("support", "write");
         ("support_associate", "write"); ("analyst", "write")] |}.

Definition dashboard_baseline : Permission :=
  {| apiName := "dashboard_baseline";
     displayName := "Dashboard Access (Basic)";
     description := "Basic Dashboard access (required)";
     productCategory := "Support & Operations";
     taskCategories := ["All tasks"];
     actions := "read";
     operationType := "Read-only";
     riskLevel := "Standard";
     hasPII := false;
     hasFinancialData := false;
     hasPaymentCredentials := false;
     roleAccess :=
       access [("super_admin", "read"); ("admin", "read");
         ("view_only", "read"); ("developer", "read"); ("support", "read");
         ("support_associate", "read"); ("analyst", "read");
         ("refund_analyst", "read"); ("dispute_analyst", "read");
         ("issuing_support_agent", "read"); ("tax_analyst", "read");
         ("identity_analyst", "read"); ("iam_admin", "read");
         ("sandbox_admin", "read")] |}.

Definition settings_security : Permission :=
  {| apiName := "settings_security";
     displayName := "Security Settings";
     description := "Security configuration";
     productCategory := "Support & Operations";
     taskCategories := ["Configure settings"; "Manage team access"];
     actions := "write";
     operationType := "Write";
     riskLevel := "Elevated";
     hasPII := false;
     hasFinancialData := false;
     hasPaymentCredentials := true;
     roleAccess :=
       access [("iam_admin", "write")] |}.

Definition tax_automation_operations : Permission :=
  {| apiName := "tax_automation_operations";
     displayName := "Tax Automation";
     description := "Tax automation rules";
     productCategory := "Tax";
     taskCategories := ["Configure settings"; "Monitor tax compliance"];
     actions := "read, write";
     operationType := "Read + Write";
     riskLevel := "Standard";
     hasPII := false;
     hasFinancialData := false;
     hasPaymentCredentials := false;
     roleAccess :=
       access [("super_admin", "write"); ("admin", "write");
         ("view_only", "read"); ("developer", "write"); ("support", "write");
         ("analyst", "write"); ("tax_analyst", "write")] |}.

Definition tax_filing_operations : Permission :=
  {| apiName := "tax_filing_operations";
     displayName := "Tax Filing";
     description := "Tax filing management";
     productCategory := "Tax";
     taskCategories := ["Configure settings"; "Monitor tax compliance"];
     actions := "read, write";
     operationType := "Read + Write";
     riskLevel := "Standard";
     hasPII := true;
     hasFinancialData := true;
     hasPaymentCredentials := false;
     roleAccess :=
       access [("super_admin", "write"); ("admin", "write");
         ("view_only", "read"); ("developer", "read"); ("analyst", "write");
         ("tax_analyst", "write")] |}.

Definition terminal_infrastructure : Permission :=
  {| apiName := "terminal_infrastructure";
     displayName := "Terminal Hardware (View)";
     description := "View terminal infrastructure";
     productCategory := "Terminal";
     taskCategories := ["Monitor hardware"];
     actions := "read";
     operationType := "Read-only";
     riskLevel := "Standard";
     hasPII := false;
     hasFinancialData := false;
     hasPaymentCredentials := false;
     roleAccess :=
       access [("super_admin", "read"); ("admin", "read");
         ("view_only", "read"); ("support", "read");
         ("support_associate", "read"); ("analyst", "read")] |}.

Definition terminal_operations : Permission :=
  {| apiName := "terminal_operations";
     displayName := "Terminal Point of Sale";
     description := "Terminal POS operations";
     productCategory := "Terminal";
     taskCategories := ["Manage hardware"; "Process transactions"];
     actions := "write";
     operationType := "Write";
     riskLevel := "Standard";
     hasPII := false;
     hasFinancialData := false;
     hasPaymentCredentials := false;
     roleAccess :=
       access [("super_admin", "write"); ("admin", "write");
         ("analyst", "write")] |}.

Definition permissions : list Permission :=
  [ account_admin_management_operations;
    account_operations;
    accounts_kyc_basic;
    application_fee_operations;
    connect_settings;
    connected_account_operations;
    embeddable_key_admin;
    sandbox_creation;
    team_management;
    sensitive_resources;
    billing_operations;
    billing_settings_operations;
    credit_note_operations;
    invoice_operations;
    subscription_operations;
    capital_operations;
    treasury_operations;
    identity_verification_operations;
    climate_operations;
    crypto_operations;
    customer_operations;
    customer_portal_operations;
    dispute_operations;
    radar_operations;
    review_operations;
    balance_operations;
    balance_transfer_operations;
    payout_operations;
    transfer_operations;
    data_export_operations;
    dev_integration;
    reporting_operations;
    stripe_apps_development;
    issuing_card_operations;
    charge;
    charge_operations;
    payment_intent;
    payment_intent_operations;
    payment_processing;
    checkout_operations;
    order_operations;
    order_refund_operations;
    product_operations;
    promotion_operations;
    dashboard_baseline;
    settings_security;
    tax_automation_operations;
    tax_filing_operations;
    terminal_infrastructure;
    terminal_operations ].

(** [getAllPermissions()] *)
Definition getAllPermissions : list Permission := permissions.

(** ** Sensitivity groups *)

Inductive SensitivityGroup : Type :=
| PII
| FinancialData
| PaymentCredentials
| NonSensitive.

(** The string each member of the union type stands for. *)
Definition sensitivityLabel (g : SensitivityGroup) : string :=
  match g with
  | PII => "PII"
  | FinancialData => "Financial Data"
  | PaymentCredentials => "Payment Credentials"
  | NonSensitive => "Non-sensitive"
  end.

Definition getSensitivityGroups (p : Permission) : list SensitivityGroup :=
  let groups := [] in
  let groups := if hasPII p then groups ++ [PII] else groups in
  let groups := if hasFinancialData p then groups ++ [FinancialData] else groups in
  let groups :=
    if hasPaymentCredentials p then groups ++ [PaymentCredentials] else groups in
  let groups :=
    if (length groups =? 0)%nat then groups ++ [NonSensitive] else groups in
  groups.

(** ** Access resolver *)

(** The object spread [{ ...p, operationType: "Read-only", actions: "read" }]. *)
Definition asReadOnly (p : Permission) : Permission :=
  {| apiName := apiName p;
     displayName := displayName p;
     description := description p;
     productCategory := productCategory p;
     taskCategories := taskCategories p;
     actions := "read";
     operationType := "Read-only";
     riskLevel := riskLevel p;
     hasPII := hasPII p;
     hasFinancialData := hasFinancialData p;
     hasPaymentCredentials := hasPaymentCredentials p;
     roleAccess := roleAccess p |}.

(** The test of the [map] callback: the role has exactly ["read"] and the
    record is not nominally read-only.  An inherited member is not the
    string ["read"]. *)
Definition needsReadOnlyView (roleId : string) (p : Permission) : bool :=
  bool_decide (roleAccess p !! roleId = Some "read")
  && negb (String.eqb (operationType p) "Read-only").

(** The [map] callback of [getPermissionsForRole]. *)
Definition roleView (roleId : string) (p : Permission) : Permission :=
  if needsReadOnlyView roleId p then asReadOnly p else p.

(** The [filter] callback of [getPermissionsForRole]. *)
Definition grantedTo (roleId : string) (p : Permission) : bool :=
  Js.truthyAt roleId (roleAccess p !! roleId).

Definition getPermissionsForRole (roleId : string) : list Permission :=
  roleView roleId <$> filter (λ p, grantedTo roleId p) permissions.

Definition getPermissionsByApiNames (apiNames : list string) : list Permission :=
  let apiNameSet : gset string := list_to_set apiNames in
  filter (λ p, apiName p ∈ apiNameSet) permissions.

(** ** Grouping engine *)

(** The type [GroupByOption] and the string each member stands for.  Types
    are erased when the module runs: [groupPermissions] receives the
    string. *)
Inductive GroupByOption : Type :=
| ByProductCategory
| ByTaskCategory
| ByOperationType
| ByRiskLevel
| BySensitivity.

Definition groupByName (o : GroupByOption) : string :=
  match o with
  | ByProductCategory => "productCategory"
  | ByTaskCategory => "taskCategory"
  | ByOperationType => "operationType"
  | ByRiskLevel => "riskLevel"
  | BySensitivity => "sensitivity"
  end.

(** The value of a property read [p[name]]. *)
Inductive PropertyValue : Type :=
| StringValue (s : string)
| BooleanValue (b : bool)
| StringArrayValue (l : list string)
| RecordValue (own : gmap string string)
| ObjectPrototype
| BuiltinFunction (name : string)
| UndefinedValue.

(** The names of the own properties of a permission record. *)
Definition permissionPropertyNames : list string :=
  [ "apiName"; "displayName"; "description"; "productCategory";
    "taskCategories"; "actions"; "operationType"; "riskLevel"; "hasPII";
    "hasFinancialData"; "hasPaymentCredentials"; "roleAccess" ].

(** [p[name]]: an own property of the record, else a member inherited
    from [Object.prototype] ([constructor] is the function [Object],
    [__proto__] is the prototype itself, the others are functions of
    their own name), else [undefined]. *)
Definition getProperty (p : Permission) (name : string) : PropertyValue :=
  if String.eqb name "apiName" then StringValue (apiName p)
  else if String.eqb name "displayName" then StringValue (displayName p)
  else if String.eqb name "description" then StringValue (description p)
  else if String.eqb name "productCategory" then StringValue (productCategory p)
  else if String.eqb name "taskCategories" then StringArrayValue (taskCategories p)
  else if String.eqb name "actions" then StringValue (actions p)
  else if String.eqb name "operationType" then StringValue (operationType p)
  else if String.eqb name "riskLevel" then StringValue (riskLevel p)
  else if String.eqb name "hasPII" then BooleanValue (hasPII p)
  else if String.eqb name "hasFinancialData" then BooleanValue (hasFinancialData p)
  else if String.eqb name "hasPaymentCredentials"
       then BooleanValue (hasPaymentCredentials p)
  else if String.eqb name "roleAccess" then RecordValue (roleAccess p)
  else if String.eqb name "constructor" then BuiltinFunction "Object"
  else if String.eqb name "__proto__" then ObjectPrototype
  else if bool_decide (name ∈ Js.objectPrototypeNames)
       then BuiltinFunction name
  else UndefinedValue.

(** The string a value becomes when it is used as a property key and the
    conversion succeeds; a built-in function gives the text of its source
    as V8 prints it. *)
Definition toPropertyKey (v : PropertyValue) : string :=
  match v with
  | StringValue s => s
  | BooleanValue true => "true"
  | BooleanValue false => "false"
  | StringArrayValue l => String.concat "," l
  | RecordValue _ => "[object Object]"
  | ObjectPrototype => "[object Object]"
  | BuiltinFunction name => "function " +:+ name +:+ "() { [native code] }"
  | UndefinedValue => "undefined"
  end.

(** The conversion of a value to a property key.  An object is converted
    by its [toString], else by its [valueOf].  A record with an own
    property "toString" has a string there, which cannot be called, and
    the [valueOf] it has or inherits does not give a primitive: the
    conversion throws.  The other values always convert. *)
Definition toPropertyKeyCall (v : PropertyValue) : Js.Completion string :=
  match v with
  | RecordValue own =>
      if bool_decide (is_Some (own !! "toString")) then Js.Throw "TypeError"
      else Js.Normal (toPropertyKey v)
  | _ => Js.Normal (toPropertyKey v)
  end.

(** [if (!groups[key]) groups[key] = []; groups[key].push(p);] when
    [groups[key]] is an own property or [undefined]. *)
Definition pushTo (key : string) (p : Permission)
    (groups : gmap string (list Permission)) : gmap string (list Permission) :=
  <[key := default [] (groups !! key) ++ [p]]> groups.

(** The keys under which one iteration of the loop files [p]. *)
Definition groupKeys (groupBy : string) (p : Permission) : list string :=
  if String.eqb groupBy "taskCategory" then taskCategories p
  else if String.eqb groupBy "sensitivity"
       then sensitivityLabel <$> getSensitivityGroups p
  else if String.eqb groupBy "operationType" then [operationType p]
  else if String.eqb groupBy "riskLevel" then [riskLevel p]
  else [toPropertyKey (getProperty p groupBy)].

(** The grouping the loop of [groupPermissions] builds when every key
    converts and none names a member of [Object.prototype]. *)
Definition groupPermissions (perms : list Permission) (groupBy : string)
    : gmap string (list Permission) :=
  foldl (λ groups p, foldl (λ groups key, pushTo key p groups) groups
                           (groupKeys groupBy p))
        ∅ perms.

(** [if (!groups[key]) groups[key] = []; groups[key].push(p);] as the
    code runs it.  The loop never stores under a key that names a member
    of [Object.prototype]: there [groups[key]] is the inherited member,
    which is truthy, so no array is created, and which has no [push]. *)
Definition pushToCall (key : string) (p : Permission)
    (groups : gmap string (list Permission))
    : Js.Completion (gmap string (list Permission)) :=
  if bool_decide (key ∈ Js.objectPrototypeNames) then Js.Throw "TypeError"
  else Js.Normal (pushTo key p groups).

(** The keys of one iteration as the code computes them: only the last
    branch converts a value to a key. *)
Definition groupKeysCall (groupBy : string) (p : Permission)
    : Js.Completion (list string) :=
  if String.eqb groupBy "taskCategory" then Js.Normal (taskCategories p)
  else if String.eqb groupBy "sensitivity"
       then Js.Normal (sensitivityLabel <$> getSensitivityGroups p)
  else if String.eqb groupBy "operationType" then Js.Normal [operationType p]
  else if String.eqb groupBy "riskLevel" then Js.Normal [riskLevel p]
  else Js.bind (toPropertyKeyCall (getProperty p groupBy))
               (λ key, Js.Normal [key]).

(** A call of [groupPermissions]: the loop over [perms], ended by the
    first conversion or push that throws. *)
Definition groupPermissionsCall (perms : list Permission) (groupBy : string)
    : Js.Completion (gmap string (list Permission)) :=
  Js.foldM (λ groups p,
              Js.bind (groupKeysCall groupBy p)
                (λ keys,
                   Js.foldM (λ groups key, pushToCall key p groups) groups
                            keys))
           ∅ perms.

(** The bucket of a label ([undefined] read as the empty bucket) and the
    sum of the bucket lengths. *)
Definition bucket (groups : gmap string (list Permission)) (label : string)
    : list Permission :=
  default [] (groups !! label).

Definition totalBucketLength (groups : gmap string (list Permission)) : nat :=
  map_fold (λ _ b n, length b + n) 0 groups.

(** ** Role-detail generator: the "can do" list *)

(** [p.description || p.apiName.replace(/_/g, " ")] *)
Definition describe (p : Permission) : string :=
  if Js.truthy (description p) then description p
  else Js.replaceUnderscores (apiName p).

(** [if (!taskGroups[tc]) taskGroups[tc] = new Set(); taskGroups[tc].add(desc);]
    The loop never stores under a key that names a member of
    [Object.prototype]: there [taskGroups[tc]] is the inherited member,
    which is truthy, so no [Set] is created, and which has no [add]. *)
Definition addDescription (tc desc : string)
    (taskGroups : Js.Entries Js.OrderedSet)
    : Js.Completion (Js.Entries Js.OrderedSet) :=
  match Js.get tc taskGroups with
  | Some descs => Js.Normal (Js.set tc (Js.add desc descs) taskGroups)
  | None =>
      if bool_decide (tc ∈ Js.objectPrototypeNames) then Js.Throw "TypeError"
      else Js.Normal (Js.set tc (Js.add desc []) taskGroups)
  end.

(** The first loop of [generateCanDo]. *)
Definition collectTaskGroups (selectedPermissions : list Permission)
    : Js.Completion (Js.Entries Js.OrderedSet) :=
  Js.foldM (λ taskGroups p,
              Js.foldM (λ taskGroups tc,
                          addDescription tc (describe p) taskGroups)
                       taskGroups (taskCategories p))
           [] selectedPermissions.

Definition priorityTasks : list string :=
  [ "Process transactions";
    "Handle customer issues";
    "Manage billing";
    "Monitor financials";
    "Export & analyze data";
    "Configure settings";
    "Develop & integrate";
    "Manage team access";
    "Transfer funds" ].

(** The template [`${task} (${n} capabilities)`]. *)
Definition summaryBullet (task : string) (n : nat) : string :=
  task +:+ " (" +:+ pretty n +:+ " capabilities)".

(** What one iteration of the loop over [priorityTasks] pushes. *)
Definition priorityItems (taskGroups : Js.Entries Js.OrderedSet)
    (task : string) : list string :=
  match Js.get task taskGroups with
  | Some descriptions =>
      if (0 <? length descriptions)%nat then
        if (2 <? length descriptions)%nat
        then [summaryBullet task (length descriptions)]
        else take 2 descriptions
      else []
  | None => []
  end.

(** What the loop over [Object.entries(taskGroups)] pushes. *)
Definition remainingItems (taskGroups : Js.Entries Js.OrderedSet)
    : list string :=
  flat_map (λ entry : string * Js.OrderedSet,
              if negb (bool_decide (entry.1 ∈ priorityTasks))
                 && (0 <? length entry.2)%nat
              then take 1 entry.2 else [])
           (Js.entries taskGroups).

(** [canDoList] before the final filter. *)
Definition canDoList (taskGroups : Js.Entries Js.OrderedSet) : list string :=
  flat_map (priorityItems taskGroups) priorityTasks ++ remainingItems taskGroups.

(** The final [filter]: keep an item unless its lower-case form was seen. *)
Fixpoint dedupeIgnoringCase (seen : gset string) (items : list string)
    : list string :=
  match items with
  | [] => []
  | item :: rest =>
      let normalized := Js.toLowerCase item in
      if bool_decide (normalized ∈ seen) then dedupeIgnoringCase seen rest
      else item :: dedupeIgnoringCase ({[normalized]} ∪ seen) rest
  end.

Definition generateCanDo (selectedPermissions : list Permission)
    : Js.Completion (list string) :=
  if (length selectedPermissions =? 0)%nat
  then Js.Normal ["Access basic Dashboard features"]
  else Js.bind (collectTaskGroups selectedPermissions)
         (λ taskGroups,
            Js.Normal (take 6 (dedupeIgnoringCase ∅ (canDoList taskGroups)))).

(** ** Role-detail generator: the "cannot do" list *)

Definition notablePermissions : Js.Entries string :=
  [ ("team_management", "Invite, remove, or manage team member roles");
    ("sensitive_resources", "View or manage API keys and secrets");
    ("balance_transfer_operations", "Transfer funds between accounts");
    ("payout_operations", "Create or manage payouts");
    ("settings_security", "Change security settings or 2FA");
    ("dispute_operations", "Accept, challenge, or manage disputes");
    ("order_refund_operations", "Issue refunds");
    ("charge_operations", "Create new charges or payments");
    ("customer_pii_operations", "View or edit customer personal information");
    ("account_admin_management_operations",
     "Perform administrative account changes") ].

(** The body of the loop over [Object.entries(notablePermissions)]. *)
Definition noteMissingPermission (selectedApiNames : gset string)
    (cannotList : list string) (entry : string * string) : list string :=
  if negb (bool_decide (entry.1 ∈ selectedApiNames))
     && (length cannotList <? 5)%nat
  then cannotList ++ [entry.2] else cannotList.

(** The body of the loop over [allCategories]. *)
Definition noteMissingCategory (selectedCategories : gset string)
    (cannotList : list string) (cat : string) : list string :=
  if negb (bool_decide (cat ∈ selectedCategories))
     && (length cannotList <? 5)%nat
  then cannotList ++ ["Access " +:+ cat +:+ " features"] else cannotList.

Definition generateCannotDo (selectedPermissions : list Permission)
    : list string :=
  let allPerms := getAllPermissions in
  let selectedApiNames : gset string :=
    list_to_set (apiName <$> selectedPermissions) in
  (* notable missing permissions *)
  let cannotList :=
    foldl (noteMissingPermission selectedApiNames) [] notablePermissions in
  (* missing write access *)
  let cannotList :=
    if (length cannotList <? 5)%nat then
      let hasAnyWrite :=
        existsb (λ p, Js.includes (Js.toLowerCase (actions p)) "write")
                selectedPermissions in
      if negb hasAnyWrite
      then cannotList ++ ["Make any changes (read-only access)"]
      else cannotList
    else cannotList in
  (* missing product categories *)
  let cannotList :=
    if (length cannotList <? 5)%nat then
      let selectedCategories : gset string :=
        list_to_set (productCategory <$> selectedPermissions) in
      let allCategories := Js.setOf (productCategory <$> allPerms) in
      foldl (noteMissingCategory selectedCategories) cannotList allCategories
    else cannotList in
  take 5 cannotList.

(** ** Risk assessment *)

Inductive RiskLevel : Type :=
| Low
| Medium
| High.

Record RiskFactor : Type := {
  name : string;
  level : RiskLevel;
  count : nat
}.

Record RiskAssessment : Type := {
  overallRisk : RiskLevel;
  score : Z;
  factors : list RiskFactor;
  warnings : list string;
  recommendations : list string
}.

Definition HIGH_RISK_PERMISSIONS : Js.Entries string :=
  [ ("balance_transfer_operations", "Can transfer funds between accounts");
    ("account_admin_management_operations",
     "Can perform destructive account operations");
    ("team_management", "Can invite/remove team members and change roles");
    ("settings_security", "Can modify security settings and 2FA");
    ("sensitive_resources", "Has access to API keys and secrets");
    ("embeddable_key_admin", "Can manage embeddable keys");
    ("payout_operations", "Can create and manage payouts") ].

(** The four accumulators of [generateRiskAssessment]. *)
Record Tally : Type := {
  tallyFactors : list RiskFactor;
  tallyWarnings : list string;
  tallyRecommendations : list string;
  totalScore : Z
}.

Definition emptyTally : Tally :=
  {| tallyFactors := []; tallyWarnings := []; tallyRecommendations := [];
     totalScore := 0 |}.

(** [factors.push(f)] *)
Definition pushFactor (f : RiskFactor) (t : Tally) : Tally :=
  {| tallyFactors := tallyFactors t ++ [f];
     tallyWarnings := tallyWarnings t;
     tallyRecommendations := tallyRecommendations t;
     totalScore := totalScore t |}.

(** [warnings.push(w)] *)
Definition pushWarning (w : string) (t : Tally) : Tally :=
  {| tallyFactors := tallyFactors t;
     tallyWarnings := tallyWarnings t ++ [w];
     tallyRecommendations := tallyRecommendations t;
     totalScore := totalScore t |}.

(** [recommendations.push(r)] *)
Definition pushRecommendation (r : string) (t : Tally) : Tally :=
  {| tallyFactors := tallyFactors t;
     tallyWarnings := tallyWarnings t;
     tallyRecommendations := tallyRecommendations t ++ [r];
     totalScore := totalScore t |}.

(** [totalScore = s] *)
Definition setScore (s : Z) (t : Tally) : Tally :=
  {| tallyFactors := tallyFactors t;
     tallyWarnings := tallyWarnings t;
     tallyRecommendations := tallyRecommendations t;
     totalScore := s |}.

(** [totalScore += n] *)
Definition addScore (n : Z) (t : Tally) : Tally :=
  setScore (totalScore t + n) t.

(** [p.operationType === "Write" || p.operationType === "Read + Write"] *)
Definition isWrite (p : Permission) : bool :=
  String.eqb (operationType p) "Write"
  || String.eqb (operationType p) "Read + Write".

(** [p.operationType === "Read-only"] *)
Definition isReadOnly (p : Permission) : bool :=
  String.eqb (operationType p) "Read-only".

Definition riskOrder (l : RiskLevel) : Z :=
  match l with
  | High => 0
  | Medium => 1
  | Low => 2
  end.

(** [factors.sort((a, b) => riskOrder[a.level] - riskOrder[b.level])]:
    the sort is stable, an element goes in front of the first one that
    does not compare below it. *)
Fixpoint insertFactor (f : RiskFactor) (sorted : list RiskFactor)
    : list RiskFactor :=
  match sorted with
  | [] => [f]
  | g :: rest =>
      if (riskOrder (level f) - riskOrder (level g) <=? 0)%Z
      then f :: g :: rest
      else g :: insertFactor f rest
  end.

Definition sortBySeverity (fs : list RiskFactor) : list RiskFactor :=
  foldr insertFactor [] fs.

Section Assessment.

Variable selectedPermissions : list Permission.

Definition writeCount : nat :=
  length (filter (λ p, isWrite p) selectedPermissions).
Definition readOnlyCount : nat :=
  length (filter (λ p, isReadOnly p) selectedPermissions).
Definition isReadOnlyRole : bool :=
  (readOnlyCount =? length selectedPermissions)%nat.

(** [writeRatio > 0.7], with [writeRatio = writeCount / length]. *)
Definition writeHeavy : bool :=
  (7 * Z.of_nat (length selectedPermissions) <? 10 * Z.of_nat writeCount)%Z.

Definition writePermissions : list Permission :=
  filter (λ p, isWrite p) selectedPermissions.
Definition criticalCount : nat :=
  length (filter (λ p, String.eqb (riskLevel p) "Critical") writePermissions).
Definition elevatedCount : nat :=
  length (filter (λ p, String.eqb (riskLevel p) "Elevated") writePermissions).
Definition standardCount : nat :=
  length (filter (λ p, String.eqb (riskLevel p) "Standard") selectedPermissions).

Definition piiCount : nat :=
  length (filter (λ p, hasPII p) selectedPermissions).
Definition financialCount : nat :=
  length (filter (λ p, hasFinancialData p) selectedPermissions).
Definition credentialsCount : nat :=
  length (filter (λ p, hasPaymentCredentials p) selectedPermissions).

(** [isReadOnlyRole ? 0.2 : 1], as numerator and denominator. *)
Definition sensitivityMultiplier : Z * Z :=
  if isReadOnlyRole then (2, 10)%Z else (1, 1)%Z.

(** [Math.round(weighted * sensitivityMultiplier)] *)
Definition sensitivityPoints (weighted : Z) : Z :=
  Js.round (weighted * sensitivityMultiplier.1) sensitivityMultiplier.2.

(** 1. Risk level analysis (only for write permissions). *)
Definition riskLevelAnalysis (t : Tally) : Tally :=
  let t :=
    if (0 <? criticalCount)%nat then
      addScore (Z.of_nat criticalCount * 25)
        (pushFactor {| name := "Critical Operations"; level := High;
                       count := criticalCount |} t)
    else t in
  if (0 <? elevatedCount)%nat then
    addScore (Z.of_nat elevatedCount * 15)
      (pushFactor {| name := "Administrative Access"; level := High;
                     count := elevatedCount |} t)
  else t.

(** 2. Sensitivity analysis (reduced weight for read-only). *)
Definition sensitivityAnalysis (t : Tally) : Tally :=
  let t :=
    if (0 <? credentialsCount)%nat then
      let t := pushFactor {| name := "Payment Credentials";
                             level := if isReadOnlyRole then Medium else High;
                             count := credentialsCount |} t in
      let t := addScore (sensitivityPoints (Z.of_nat credentialsCount * 20)) t in
      if negb isReadOnlyRole
      then pushWarning
             "Role has access to payment credentials - ensure proper security training"
             t
      else t
    else t in
  let t :=
    if (0 <? financialCount)%nat then
      let t := pushFactor {| name := "Financial Data";
                             level := if isReadOnlyRole then Low else High;
                             count := financialCount |} t in
      addScore (sensitivityPoints (Z.of_nat financialCount * 10)) t
    else t in
  if (0 <? piiCount)%nat then
    let t := pushFactor {| name := "Personal Information";
                           level := if isReadOnlyRole then Low else Medium;
                           count := piiCount |} t in
    let t := addScore (sensitivityPoints (Z.of_nat piiCount * 8)) t in
    if (3 <? piiCount)%nat && negb isReadOnlyRole
    then pushWarning "Broad PII access - ensure GDPR/privacy compliance" t
    else t
  else t.

(** 3. Operation type analysis. *)
Definition operationTypeAnalysis (t : Tally) : Tally :=
  if isReadOnlyRole then
    let t := pushFactor {| name := "Read-Only Access"; level := Low;
                           count := readOnlyCount |} t in
    (* Math.round(totalScore * 0.3) *)
    setScore (Js.round (totalScore t * 3) 10) t
  else if writeHeavy then
    let t := pushFactor {| name := "Write-Heavy Access"; level := Medium;
                           count := writeCount |} t in
    addScore 10 t
  else t.

(** The low factor for standard operations when there is no critical or
    elevated write access. *)
Definition standardOperationsNote (t : Tally) : Tally :=
  if (0 <? standardCount)%nat && (criticalCount =? 0)%nat
     && (elevatedCount =? 0)%nat && negb isReadOnlyRole
  then pushFactor {| name := "Standard Operations"; level := Low;
                     count := standardCount |} t
  else t.

(** 4. Specific high-risk permissions. *)
Definition highRiskCheck (t : Tally) : Tally :=
  foldl (λ t (entry : string * string),
           if existsb (λ p, String.eqb (apiName p) entry.1)
                      selectedPermissions
           then pushWarning entry.2 t else t)
        t HIGH_RISK_PERMISSIONS.

(** [new Set(selectedPermissions.map(p => p.productCategory))] *)
Definition spannedCategories : gset string :=
  list_to_set (productCategory <$> selectedPermissions).

(** 5. Breadth of access. *)
Definition breadthOfAccess (t : Tally) : Tally :=
  if (8 <? size spannedCategories)%nat then
    let t := pushFactor {| name := "Broad Access"; level := Medium;
                           count := size spannedCategories |} t in
    let t := addScore 10 t in
    pushRecommendation "Consider splitting into more focused roles" t
  else t.

(** 6. Recommendations. *)
Definition recommend (t : Tally) : Tally :=
  let t :=
    if (0 <? criticalCount)%nat
       && negb (existsb (λ p, String.eqb (apiName p) "team_management")
                        selectedPermissions)
    then pushRecommendation
           "Critical operations without team management - ensure proper oversight"
           t
    else t in
  let t :=
    if (30 <? length selectedPermissions)%nat
    then pushRecommendation
           "Large permission set - review if all are necessary" t
    else t in
  if (0 <? writeCount)%nat && (readOnlyCount =? 0)%nat
  then pushRecommendation
         "No read-only permissions - consider adding for audit visibility" t
  else t.

(** The accumulators when the six steps have run. *)
Definition finalTally : Tally :=
  recommend
    (breadthOfAccess
       (highRiskCheck
          (standardOperationsNote
             (operationTypeAnalysis
                (sensitivityAnalysis (riskLevelAnalysis emptyTally)))))).

Definition generateRiskAssessment : RiskAssessment :=
  if (length selectedPermissions =? 0)%nat then
    {| overallRisk := Low;
       score := 0;
       factors := [];
       warnings := [];
       recommendations := ["Add permissions to define role capabilities"] |}
  else
    let t := finalTally in
    let cappedScore := Z.min 100 (totalScore t) in
    let overallRisk :=
      if (70 <=? cappedScore)%Z then High
      else if (45 <=? cappedScore)%Z then High
      else if (20 <=? cappedScore)%Z then Medium
      else Low in
    {| overallRisk := overallRisk;
       score := cappedScore;
       factors := sortBySeverity (tallyFactors t);
       warnings := take 5 (tallyWarnings t);
       recommendations := take 3 (tallyRecommendations t) |}.

End Assessment.

(** ** The catalog as shared objects

    The records of [permissions] are objects that every caller shares:
    a function that returns [p] hands out the catalog's own object, a
    function that returns [{ ...p, ... }] hands out a new one.  Here the
    objects live in a heap, a reference is the index of its object, and
    the catalog is a list of references. *)

Module Store.

Abbreviation Ref := nat (only parsing).
Abbreviation Heap := (list Permission) (only parsing).

(** Computations that read and extend the heap. *)
Definition M (A : Type) : Type := Heap → A * Heap.

#[local] Instance store_ret : MRet M := λ A a h, (a, h).
#[local] Instance store_bind : MBind M :=
  λ A B k m h, let '(a, h') := m h in k a h'.

(** Dereference. *)
Definition read (r : Ref) : M (option Permission) := λ h, (h !! r, h).

(** A new object, as an object literal or a spread creates it. *)
Definition alloc (p : Permission) : M Ref := λ h, (length h, h ++ [p]).

(** The [map] callback: the same reference, or a fresh read-only copy. *)
Definition roleView (roleId : string) (r : Ref) : M Ref :=
  o ← read r;
  match o with
  | Some p =>
      if needsReadOnlyView roleId p then alloc (asReadOnly p) else mret r
  | None => mret r
  end.

(** [refs.map(f)] *)
Fixpoint mapM (f : Ref → M Ref) (refs : list Ref) : M (list Ref) :=
  match refs with
  | [] => mret []
  | r :: rest =>
      v ← f r;
      vs ← mapM f rest;
      mret (v :: vs)
  end.

(** The [filter] callback, on the object a reference points to. *)
Definition granted (roleId : string) (h : Heap) (r : Ref) : bool :=
  match h !! r with
  | Some p => grantedTo roleId p
  | None => false
  end.

Definition getPermissionsForRole (roleId : string) (catalog : list Ref)
    : M (list Ref) :=
  λ h, mapM (roleView roleId) (filter (λ r, granted roleId h r) catalog) h.

(** The objects a list of references points to. *)
Definition deref (h : Heap) (refs : list Ref) : list Permission :=
  omap (λ r, h !! r) refs.

(** The heap at start-up holds the catalog records, and the array
    [permissions] refers to them in order. *)
Definition initialHeap : Heap := permissions.
Definition catalogRefs : list Ref := seq 0 (length permissions).

End Store.

(** ** Quantities the properties below speak about *)

(** The score accumulated when the operation-type step starts. *)
Definition scoreBeforeOperationType (selectedPermissions : list Permission) : Z :=
  totalScore (sensitivityAnalysis selectedPermissions
                (riskLevelAnalysis selectedPermissions emptyTally)).

(** What the breadth step adds. *)
Definition breadthBonus (selectedPermissions : list Permission) : Z :=
  if (8 <? size (spannedCategories selectedPermissions))%nat then 10 else 0.

(** The distinct descriptions, in order of first occurrence, of the
    permissions that list [task] among their task categories. *)
Definition taskDescriptions (selectedPermissions : list Permission)
    (task : string) : list string :=
  Js.setOf (describe <$>
              filter (λ p, task ∈ taskCategories p) selectedPermissions).

(** ** Sample inputs *)

(** Nine permissions as [getPermissionsForRole "view_only"] returns them:
    read-only views without sensitivity flags, in nine product
    categories. *)
Definition nineReadOnlyAreas : list Permission :=
  roleView "view_only" <$>
    [ account_operations; billing_settings_operations; climate_operations;
      dispute_operations; dev_integration; charge; checkout_operations;
      dashboard_baseline; tax_automation_operations ].

(** A permission for processing transactions, under a given api name. *)
Definition transactionPermission (api : string) : Permission :=
  {| apiName := api;
     displayName := "Charges";
     description := "Process charges and refunds";
     productCategory := "Payments";
     taskCategories := ["Process transactions"];
     actions := "write";
     operationType := "Write";
     riskLevel := "Standard";
     hasPII := false;
     hasFinancialData := true;
     hasPaymentCredentials := false;
     roleAccess := access [("admin", "write")] |}.

(** Three permissions that share a task category and a description. *)
Definition threeAlike : list Permission :=
  [ transactionPermission "charge_create";
    transactionPermission "charge_capture";
    transactionPermission "charge_refund" ].


(** The store of [addDescription] when it does not throw, and the table
    the first loop of [generateCanDo] builds with it. *)
Definition storeDescription (tc desc : string)
    (taskGroups : Js.Entries Js.OrderedSet) : Js.Entries Js.OrderedSet :=
  Js.set tc (Js.add desc (default [] (Js.get tc taskGroups))) taskGroups.

Definition storedTaskGroups (selectedPermissions : list Permission)
    : Js.Entries Js.OrderedSet :=
  foldl (λ taskGroups p,
           foldl (λ taskGroups tc, storeDescription tc (describe p) taskGroups)
                 taskGroups (taskCategories p))
        [] selectedPermissions.

(** A permission whose [roleAccess] has an own property "toString". *)
Definition toStringRolePermission : Permission :=
  {| apiName := "report_viewer";
     displayName := "Reports";
     description := "View reports";
     productCategory := "Reporting";
     taskCategories := ["Monitor financials"];
     actions := "read";
     operationType := "Read-only";
     riskLevel := "Standard";
     hasPII := false;
     hasFinancialData := false;
     hasPaymentCredentials := false;
     roleAccess := access [("toString", "read")] |}.

(** A permission whose api name is a member name of [Object.prototype]. *)
Definition constructorPermission : Permission :=
  {| apiName := "constructor";
     displayName := "Constructor";
     description := "Construct objects";
     productCategory := "Core";
     taskCategories := ["Develop & integrate"];
     actions := "write";
     operationType := "Write";
     riskLevel := "Standard";
     hasPII := false;
     hasFinancialData := false;
     hasPaymentCredentials := false;
     roleAccess := access [("admin", "write")] |}.

(** The descriptions collected under a key so far. *)
Definition descriptionsAt (taskGroups : Js.Entries Js.OrderedSet)
    (task : string) : Js.OrderedSet :=
  default [] (Js.get task taskGroups).

(** ** Quantities of the further properties *)

(** The fields a view shares with the record it is a view of. *)
Definition sameButAccess (p q : Permission) : Prop :=
  apiName p = apiName q
  ∧ displayName p = displayName q
  ∧ description p = description q
  ∧ productCategory p = productCategory q
  ∧ taskCategories p = taskCategories q
  ∧ riskLevel p = riskLevel q
  ∧ hasPII p = hasPII q
  ∧ hasFinancialData p = hasFinancialData q
  ∧ hasPaymentCredentials p = hasPaymentCredentials q
  ∧ roleAccess p = roleAccess q.

(** The field that a single-valued dimension groups by. *)
Definition singleValuedField (o : GroupByOption)
    : option (Permission → string) :=
  match o with
  | ByProductCategory => Some productCategory
  | ByOperationType => Some operationType
  | ByRiskLevel => Some riskLevel
  | ByTaskCategory | BySensitivity => None
  end.

(** A permission that lists no task category. *)
Definition uncategorized : Permission :=
  {| apiName := "audit_log";
     displayName := "Audit Log";
     description := "Read the audit log";
     productCategory := "Admin";
     taskCategories := [];
     actions := "read";
     operationType := "Read-only";
     riskLevel := "Standard";
     hasPII := false;
     hasFinancialData := false;
     hasPaymentCredentials := false;
     roleAccess := access [("admin", "read")] |}.

(** The three sources of the "cannot do" list, before the cap: the notable
    permissions that are missing, the note on write access, the product
    categories that are missing. *)
Definition missingNotable (selectedPermissions : list Permission) : list string :=
  snd <$> filter (λ entry : string * string,
                    entry.1 ∉ apiName <$> selectedPermissions)
                 notablePermissions.

Definition readOnlyNote (selectedPermissions : list Permission) : list string :=
  if existsb (λ p, Js.includes (Js.toLowerCase (actions p)) "write")
             selectedPermissions
  then [] else ["Make any changes (read-only access)"].

Definition missingCategories (selectedPermissions : list Permission)
    : list string :=
  (λ cat, "Access " +:+ cat +:+ " features") <$>
    filter (λ cat, cat ∉ productCategory <$> selectedPermissions)
           (Js.setOf (productCategory <$> permissions)).

#[global] Instance RiskLevel_eq_dec : EqDecision RiskLevel.
Proof. solve_decision. Defined.

#[global] Instance SensitivityGroup_eq_dec : EqDecision SensitivityGroup.
Proof. solve_decision. Defined.

(** The factors of one level, in the order they have in [fs]. *)
Definition factorsOfLevel (l : RiskLevel) (fs : list RiskFactor)
    : list RiskFactor :=
  filter (λ f, level f = l) fs.

(** The warnings that [generateRiskAssessment] can push, by source: the
    two of the sensitivity step, and those of the high-risk table for the
    permissions that the set has. *)
Definition credentialsWarning (selectedPermissions : list Permission)
    : list string :=
  if (0 <? credentialsCount selectedPermissions)%nat
     && negb (isReadOnlyRole selectedPermissions)
  then ["Role has access to payment credentials - ensure proper security training"]
  else [].

Definition piiWarning (selectedPermissions : list Permission) : list string :=
  if (3 <? piiCount selectedPermissions)%nat
     && negb (isReadOnlyRole selectedPermissions)
  then ["Broad PII access - ensure GDPR/privacy compliance"]
  else [].

Definition highRiskWarnings (selectedPermissions : list Permission)
    : list string :=
  snd <$> filter (λ entry : string * string,
                    entry.1 ∈ apiName <$> selectedPermissions)
                 HIGH_RISK_PERMISSIONS.

(** ** Role builder

    The state updates of the dialog that customizes a role (the page
    component [CustomizeRoleModal]).  The state [permissionAccess] is a
    [Record<string, string>] from api names to access levels, here the
    [gmap] of its own properties; an update [setPermissionAccess(f)]
    replaces the state [prev] by [f(prev)], and the functions below are
    these [f]. *)

Definition REQUIRED_PERMISSION : string := "dashboard_baseline".

(** [allPermissions.find(p => p.apiName === apiName)] *)
Definition findPermission (apiName' : string) : option Permission :=
  List.find (λ p, String.eqb (apiName p) apiName') permissions.

(** [pending || perm?.actions || "read"] *)
Definition accessWhenAdded (pending : option string) (perm : option Permission)
    : string :=
  match pending with
  | Some level => if Js.truthy level then level
                  else match perm with
                       | Some p => if Js.truthy (actions p) then actions p
                                   else "read"
                       | None => "read"
                       end
  | None => match perm with
            | Some p => if Js.truthy (actions p) then actions p else "read"
            | None => "read"
            end
  end.

(** [togglePermission(apiName)]: nothing happens for the required
    permission; otherwise the permission is removed when [apiName in
    next], and added with its pending or its default access when not.  In
    the second case [apiName] names no member of [Object.prototype], so
    that [pendingAccess[apiName]] is an own property or [undefined]. *)
Definition togglePermission (pendingAccess : gmap string string)
    (apiName' : string) (prev : gmap string string) : gmap string string :=
  if String.eqb apiName' REQUIRED_PERMISSION then prev
  else if Js.hasProperty apiName' prev then delete apiName' prev
  else <[apiName' := accessWhenAdded (pendingAccess !! apiName')
                                     (findPermission apiName')]> prev.

(** [updatePermissionAccess(apiName, access)] *)
Definition updatePermissionAccess (apiName' access : string)
    (prev : gmap string string) : gmap string string :=
  <[apiName' := access]> prev.

Inductive CheckState : Type :=
| AllChecked
| NoneChecked
| SomeChecked.

(** [getBundleCheckState(perms)], on the state of the last render. *)
Definition getBundleCheckState (permissionAccess : gmap string string)
    (perms : list Permission) : CheckState :=
  let checkedCount :=
    length (filter (λ p, Js.hasProperty (apiName p) permissionAccess) perms) in
  if (checkedCount =? 0)%nat then NoneChecked
  else if (checkedCount =? length perms)%nat then AllChecked
  else SomeChecked.

(** The two loops of [toggleBundle]. *)
Definition uncheckBundle (perms : list Permission) (prev : gmap string string)
    : gmap string string :=
  foldl (λ next p,
           if negb (String.eqb (apiName p) REQUIRED_PERMISSION)
           then delete (apiName p) next else next)
        prev perms.

Definition checkBundle (perms : list Permission) (prev : gmap string string)
    : gmap string string :=
  foldl (λ next p,
           if negb (Js.hasProperty (apiName p) next)
           then <[apiName p := actions p]> next else next)
        prev perms.

(** [toggleBundle(perms)]: the check state is that of the last render,
    [permissionAccess]; the update runs on [prev]. *)
Definition toggleBundle (permissionAccess : gmap string string)
    (perms : list Permission) (prev : gmap string string)
    : gmap string string :=
  match getBundleCheckState permissionAccess perms with
  | AllChecked => uncheckBundle perms prev
  | NoneChecked | SomeChecked => checkBundle perms prev
  end.

(** [allPermissions.filter(p => Object.keys(permissionAccess).includes(p.apiName))] *)
Definition selectedPermissionsOf (permissionAccess : gmap string string)
    : list Permission :=
  filter (λ p, is_Some (permissionAccess !! apiName p)) permissions.

(** * Properties *)

(** Membership in a list that is written out. *)
Ltac in_list :=
  repeat first [apply list_elem_of_here | apply list_elem_of_further].

(** A closed decidable proposition, by evaluation. *)
Ltac by_evaluation := apply (bool_decide_unpack _); vm_compute; exact I.

(** ** The functions on small inputs *)

Example getSensitivityGroups_two_flags :
  getSensitivityGroups data_export_operations = [PII; FinancialData].
Proof. reflexivity. Qed.

Example getSensitivityGroups_no_flag :
  getSensitivityGroups dashboard_baseline = [NonSensitive].
Proof. reflexivity. Qed.

Example getPermissionsForRole_sandbox_admin :
  apiName <$> getPermissionsForRole "sandbox_admin"
  = ["account_operations"; "sandbox_creation"; "dashboard_baseline"]
  ∧ operationType <$> getPermissionsForRole "sandbox_admin"
    = ["Read-only"; "Write"; "Read-only"].
Proof. split; vm_compute; reflexivity. Qed.

Example getPermissionsForRole_unknown_role :
  getPermissionsForRole "no_such_role" = [].
Proof. vm_compute. reflexivity. Qed.

(** A role identifier that names a member of [Object.prototype] reads as
    truthy on every record. *)
Example getPermissionsForRole_inherited_name :
  apiName <$> getPermissionsForRole "toString" = apiName <$> permissions.
Proof. vm_compute. reflexivity. Qed.

Example generateRiskAssessment_empty :
  generateRiskAssessment []
  = {| overallRisk := Low; score := 0; factors := []; warnings := [];
       recommendations := ["Add permissions to define role capabilities"] |}.
Proof. reflexivity. Qed.

Example generateRiskAssessment_dashboard_baseline :
  generateRiskAssessment [dashboard_baseline]
  = {| overallRisk := Low; score := 0;
       factors := [ {| name := "Read-Only Access"; level := Low; count := 1 |} ];
       warnings := []; recommendations := [] |}.
Proof. vm_compute. reflexivity. Qed.

Example generateCanDo_refund_analyst :
  generateCanDo (getPermissionsForRole "refund_analyst")
  = Js.Normal
      [ "Manage payment methods"; "Manage orders";
        "Handle customer issues (9 capabilities)";
        "Manage billing (4 capabilities)"; "View account balances";
        "Run and access reports" ].
Proof. vm_compute. reflexivity. Qed.

Example generateCannotDo_empty :
  generateCannotDo []
  = [ "Invite, remove, or manage team member roles";
      "View or manage API keys and secrets";
      "Transfer funds between accounts"; "Create or manage payouts";
      "Change security settings or 2FA" ].
Proof. vm_compute. reflexivity. Qed.

(** ** Grouping *)

Section Grouping.

Implicit Types (groups : gmap string (list Permission)) (p q : Permission).
Implicit Types (key label groupBy : string).

Lemma bucket_pushTo groups key p label :
  bucket (pushTo key p groups) label =
  if decide (key = label) then bucket groups label ++ [p]
  else bucket groups label.
Proof.
  unfold bucket, pushTo. rewrite lookup_insert.
  destruct (decide (key = label)) as [->|]; done.
Qed.

Lemma totalBucketLength_pushTo groups key p :
  totalBucketLength (pushTo key p groups) = S (totalBucketLength groups).
Proof.
  unfold totalBucketLength, pushTo.
  assert (Hcomm : ∀ (j1 j2 : string) (z1 z2 : list Permission) (y : nat),
             length z1 + (length z2 + y) = length z2 + (length z1 + y))
    by (intros; lia).
  destruct (groups !! key) as [b|] eqn:Hb; simpl.
  - rewrite <- (insert_delete_id groups key b) at 2 by done.
    rewrite <- (insert_delete_eq groups key).
    rewrite !map_fold_insert_L; try (intros; lia); try apply lookup_delete_eq.
    rewrite length_app. simpl. lia.
  - rewrite map_fold_insert_L; [simpl; lia | intros; lia | done].
Qed.


(** One iteration of the outer loop files [p] once under each of its
    keys. *)
Lemma bucket_file_one p (keys : list string) groups q label :
  q ∈ bucket (foldl (λ groups key, pushTo key p groups) groups keys) label
  ↔ q ∈ bucket groups label ∨ (q = p ∧ label ∈ keys).
Proof.
  revert groups. induction keys as [|key keys IH]; intros groups; simpl.
  - rewrite elem_of_nil. split; [by left | by intros [H | [_ []]]].
  - rewrite IH, bucket_pushTo, elem_of_cons.
    destruct (decide (key = label)) as [->|Hne].
    + rewrite elem_of_app, list_elem_of_singleton. split.
      * intros [[H|H]|[H1 H2]]; [by left | right; split; [done | by left]
                                 | right; split; [done | by right]].
      * intros [H|[H1 [H2|H2]]]; [left; by left | left; by right | by right].
    + split.
      * intros [H|[H1 H2]]; [by left | right; split; [done | by right]].
      * intros [H|[H1 [H2|H2]]]; [by left | by subst | by right].
Qed.

Lemma total_file_one p (keys : list string) groups :
  totalBucketLength (foldl (λ groups key, pushTo key p groups) groups keys)
  = length keys + totalBucketLength groups.
Proof.
  revert groups. induction keys as [|key keys IH]; intros groups; simpl.
  - done.
  - rewrite IH, totalBucketLength_pushTo. lia.
Qed.

Lemma bucket_file_all (keysOf : Permission → list string) perms groups q label :
  q ∈ bucket (foldl (λ groups p,
                       foldl (λ groups key, pushTo key p groups) groups (keysOf p))
                    groups perms) label
  ↔ q ∈ bucket groups label ∨ (q ∈ perms ∧ label ∈ keysOf q).
Proof.
  revert groups. induction perms as [|p perms IH]; intros groups; simpl.
  - rewrite elem_of_nil. split; [by left | by intros [H | [[] _]]].
  - rewrite IH, bucket_file_one, elem_of_cons. split.
    + intros [[H|[-> H]]|[H1 H2]]; [by left | right; split; [by left | done]
                                    | right; split; [by right | done]].
    + intros [H|[[->|H1] H2]]; [left; by left | left; by right | by right].
Qed.

Lemma total_file_all (keysOf : Permission → list string) perms groups :
  totalBucketLength
    (foldl (λ groups p,
              foldl (λ groups key, pushTo key p groups) groups (keysOf p))
           groups perms)
  = sum_list ((λ p, length (keysOf p)) <$> perms) + totalBucketLength groups.
Proof.
  revert groups. induction perms as [|p perms IH]; intros groups; csimpl.
  - done.
  - rewrite IH, total_file_one. lia.
Qed.

(** Membership in a bucket of the grouping. *)
Lemma elem_of_bucket perms groupBy q label :
  q ∈ bucket (groupPermissions perms groupBy) label
  ↔ q ∈ perms ∧ label ∈ groupKeys groupBy q.
Proof.
  unfold groupPermissions. rewrite bucket_file_all.
  unfold bucket at 1. rewrite lookup_empty. simpl. rewrite elem_of_nil.
  split; [by intros [[]|H] | by right].
Qed.

Lemma totalBucketLength_groupPermissions perms groupBy :
  totalBucketLength (groupPermissions perms groupBy)
  = sum_list ((λ p, length (groupKeys groupBy p)) <$> perms).
Proof.
  unfold groupPermissions. rewrite total_file_all.
  unfold totalBucketLength at 1. rewrite map_fold_empty. lia.
Qed.

Lemma getSensitivityGroups_spec p g :
  g ∈ getSensitivityGroups p ↔
  match g with
  | PII => hasPII p = true
  | FinancialData => hasFinancialData p = true
  | PaymentCredentials => hasPaymentCredentials p = true
  | NonSensitive =>
      hasPII p = false ∧ hasFinancialData p = false
      ∧ hasPaymentCredentials p = false
  end.
Proof.
  unfold getSensitivityGroups.
  destruct (hasPII p), (hasFinancialData p), (hasPaymentCredentials p), g;
    simpl;
    (split;
     [ intros H;
       repeat (apply elem_of_cons in H as [H|H]; [try discriminate H|]);
       try (by apply elem_of_nil in H); done
     | intros H; try discriminate H;
       try (destruct H as (? & ? & ?); discriminate);
       in_list ]).
Qed.

Lemma getSensitivityGroups_nonempty p : 1 ≤ length (getSensitivityGroups p).
Proof.
  unfold getSensitivityGroups.
  destruct (hasPII p), (hasFinancialData p), (hasPaymentCredentials p);
    simpl; lia.
Qed.

Lemma sensitivityLabel_inj : Inj (=) (=) sensitivityLabel.
Proof. intros [] [] H; simpl in H; congruence. Qed.

Lemma elem_of_sensitivity_keys p label :
  label ∈ groupKeys "sensitivity" p
  ↔ ∃ g, label = sensitivityLabel g ∧ g ∈ getSensitivityGroups p.
Proof. unfold groupKeys. simpl. apply list_elem_of_fmap. Qed.

End Grouping.

(** C5. Grouping by sensitivity: the bucket lengths add up to at least the
    length of the input; a permission of the input is in the
    "Non-sensitive" bucket exactly when its three flags are all false; a
    permission of the input with [hasPII] and [hasFinancialData] set and
    [hasPaymentCredentials] clear is in the buckets "PII" and "Financial
    Data" and in no other bucket. *)
Theorem groupPermissions_sensitivity (perms : list Permission) :
  let groups := groupPermissions perms "sensitivity" in
  length perms ≤ totalBucketLength groups
  ∧ (∀ p, p ∈ perms →
       (p ∈ bucket groups "Non-sensitive"
        ↔ hasPII p = false ∧ hasFinancialData p = false
          ∧ hasPaymentCredentials p = false))
  ∧ (∀ p, p ∈ perms →
       hasPII p = true → hasFinancialData p = true →
       hasPaymentCredentials p = false →
       ∀ label, p ∈ bucket groups label
                ↔ label = "PII" ∨ label = "Financial Data").
Proof.
  cbv zeta. split; [|split].
  - rewrite totalBucketLength_groupPermissions.
    induction perms as [|p perms IH]; csimpl; [lia|].
    unfold groupKeys at 1. simpl. rewrite length_fmap.
    pose proof (getSensitivityGroups_nonempty p). lia.
  - intros p Hp. rewrite elem_of_bucket, elem_of_sensitivity_keys. split.
    + intros (_ & g & Hg & Hin).
      change "Non-sensitive" with (sensitivityLabel NonSensitive) in Hg.
      apply sensitivityLabel_inj in Hg. subst g.
      by apply (getSensitivityGroups_spec p NonSensitive).
    + intros H. split; [done|]. exists NonSensitive. split; [done|].
      by apply getSensitivityGroups_spec.
  - intros p Hp Hpii Hfin Hcred label.
    rewrite elem_of_bucket, elem_of_sensitivity_keys. split.
    + intros (_ & g & -> & Hin). apply getSensitivityGroups_spec in Hin.
      destruct g; simpl; [by left | by right | congruence |].
      destruct Hin as (? & _). congruence.
    + intros [-> | ->]; (split; [done|]).
      * exists PII. split; [done|]. by apply getSensitivityGroups_spec.
      * exists FinancialData. split; [done|].
        by apply getSensitivityGroups_spec.
Qed.

Lemma groupPermissions_sensitivity_witness :
  data_export_operations ∈ [data_export_operations]
  ∧ hasPII data_export_operations = true
  ∧ hasFinancialData data_export_operations = true
  ∧ hasPaymentCredentials data_export_operations = false
  ∧ (data_export_operations
       ∈ bucket (groupPermissions [data_export_operations] "sensitivity") "PII"
     ↔ "PII" = "PII" ∨ "PII" = "Financial Data").
Proof.
  assert (Hin : data_export_operations ∈ [data_export_operations])
    by apply list_elem_of_here.
  split; [exact Hin|]. do 3 (split; [reflexivity|]).
  exact (proj2 (proj2 (groupPermissions_sensitivity [data_export_operations]))
           data_export_operations Hin eq_refl eq_refl eq_refl "PII").
Defined.

(** The five dimensions of [GroupByOption]: the keys of a permission. *)
Lemma groupKeys_GroupByOption (o : GroupByOption) (p : Permission) :
  groupKeys (groupByName o) p =
  match o with
  | ByProductCategory => [productCategory p]
  | ByTaskCategory => taskCategories p
  | ByOperationType => [operationType p]
  | ByRiskLevel => [riskLevel p]
  | BySensitivity => sensitivityLabel <$> getSensitivityGroups p
  end.
Proof. by destruct o. Qed.

(** Grouping by product category puts each permission in the one bucket of
    its category. *)
Lemma groupPermissions_productCategory (perms : list Permission)
    (p : Permission) (label : string) :
  p ∈ bucket (groupPermissions perms "productCategory") label
  ↔ p ∈ perms ∧ label = productCategory p.
Proof.
  rewrite elem_of_bucket.
  rewrite (groupKeys_GroupByOption ByProductCategory), list_elem_of_singleton.
  done.
Qed.

(** *** Calls of [groupPermissions] *)

(** The inner loop returns what [pushTo] builds unless a key names a
    member of [Object.prototype]; then the push throws. *)
Lemma pushToCall_loop_normal p (keys : list string) groups :
  Forall (λ key, key ∉ Js.objectPrototypeNames) keys →
  Js.foldM (λ groups key, pushToCall key p groups) groups keys
  = Js.Normal (foldl (λ groups key, pushTo key p groups) groups keys).
Proof.
  intros Hok. revert groups.
  induction Hok as [|key keys Hkey _ IH]; intros groups; [done|].
  cbn [Js.foldM foldl]. unfold pushToCall at 1.
  rewrite bool_decide_eq_false_2 by done. apply IH.
Qed.

Lemma pushToCall_loop_throw p (keys : list string) groups :
  Exists (λ key, key ∈ Js.objectPrototypeNames) keys →
  Js.foldM (λ groups key, pushToCall key p groups) groups keys
  = Js.Throw "TypeError".
Proof.
  revert groups. induction keys as [|key keys IH]; intros groups Hbad.
  - by apply Exists_nil in Hbad.
  - cbn [Js.foldM]. unfold pushToCall at 1. case_bool_decide as Hkey; [done|].
    apply Exists_cons in Hbad as [Hbad|Hbad]; [done|]. by apply IH.
Qed.

(** Only the conversion of a record with an own "toString" throws. *)
Lemma groupKeysCall_outcome groupBy p :
  groupKeysCall groupBy p = Js.Normal (groupKeys groupBy p)
  ∨ groupKeysCall groupBy p = Js.Throw "TypeError".
Proof.
  unfold groupKeysCall, groupKeys.
  repeat match goal with
         | |- context [String.eqb groupBy ?s] =>
             destruct (String.eqb groupBy s); [by left|]
         end.
  destruct (getProperty p groupBy) as [| | |own| | |]; try (by left).
  unfold toPropertyKeyCall. case_bool_decide; [by right|by left].
Qed.

Lemma groupKeysCall_GroupByOption (o : GroupByOption) (p : Permission) :
  groupKeysCall (groupByName o) p = Js.Normal (groupKeys (groupByName o) p).
Proof. by destruct o. Qed.

Lemma pushToCall_loop_outcome p (keys : list string) groups :
  Js.foldM (λ groups key, pushToCall key p groups) groups keys
  = Js.Normal (foldl (λ groups key, pushTo key p groups) groups keys)
  ∨ Js.foldM (λ groups key, pushToCall key p groups) groups keys
    = Js.Throw "TypeError".
Proof.
  destruct (decide (Forall (λ key, key ∉ Js.objectPrototypeNames) keys))
    as [Hok|Hbad].
  - left. by apply pushToCall_loop_normal.
  - right. apply pushToCall_loop_throw.
    apply not_Forall_Exists in Hbad; [|apply _].
    eapply Exists_impl; [exact Hbad|]. intros key Hkey. cbv beta in Hkey.
    by destruct (decide (key ∈ Js.objectPrototypeNames)).
Qed.

(** The call returns the grouping of [groupPermissions] when the keys
    convert and none names a member of [Object.prototype]. *)
Lemma groupPermissionsCall_normal perms groupBy :
  Forall (λ p, groupKeysCall groupBy p = Js.Normal (groupKeys groupBy p)) perms →
  Forall (λ p, Forall (λ key, key ∉ Js.objectPrototypeNames)
                      (groupKeys groupBy p)) perms →
  groupPermissionsCall perms groupBy
  = Js.Normal (groupPermissions perms groupBy).
Proof.
  unfold groupPermissionsCall, groupPermissions.
  generalize (∅ : gmap string (list Permission)).
  intros groups Hconv Hok. revert groups.
  induction perms as [|p perms IH]; intros groups; [done|].
  apply Forall_cons in Hconv as [Hp Hconv]. apply Forall_cons in Hok as [Hk Hok].
  cbn [Js.foldM foldl]. rewrite Hp. cbn [Js.bind].
  rewrite pushToCall_loop_normal by done. cbn [Js.bind]. by apply IH.
Qed.

(** A key that names a member of [Object.prototype] makes the call
    throw. *)
Lemma groupPermissionsCall_throw perms groupBy :
  Exists (λ p, Exists (λ key, key ∈ Js.objectPrototypeNames)
                      (groupKeys groupBy p)) perms →
  groupPermissionsCall perms groupBy = Js.Throw "TypeError".
Proof.
  unfold groupPermissionsCall. generalize (∅ : gmap string (list Permission)).
  induction perms as [|p perms IH]; intros groups Hbad.
  - by apply Exists_nil in Hbad.
  - cbn [Js.foldM].
    destruct (groupKeysCall_outcome groupBy p) as [-> | ->]; [|done].
    cbn [Js.bind].
    destruct (decide (Forall (λ key, key ∉ Js.objectPrototypeNames)
                             (groupKeys groupBy p))) as [Hp|Hp].
    + rewrite pushToCall_loop_normal by done. cbn [Js.bind].
      apply Exists_cons in Hbad as [Hbad|Hbad]; [|by apply IH].
      exfalso. apply Exists_exists in Hbad as (key & Hkey & Hin).
      rewrite Forall_forall in Hp. by apply (Hp key).
    + rewrite pushToCall_loop_throw; [done|].
      apply not_Forall_Exists in Hp; [|apply _].
      eapply Exists_impl; [exact Hp|]. intros key Hkey. cbv beta in Hkey.
      by destruct (decide (key ∈ Js.objectPrototypeNames)).
Qed.

(** The call returns the grouping of [groupPermissions] or throws a
    [TypeError]. *)
Lemma groupPermissionsCall_outcome perms groupBy :
  groupPermissionsCall perms groupBy
  = Js.Normal (groupPermissions perms groupBy)
  ∨ groupPermissionsCall perms groupBy = Js.Throw "TypeError".
Proof.
  unfold groupPermissionsCall, groupPermissions.
  generalize (∅ : gmap string (list Permission)).
  induction perms as [|p perms IH]; intros groups; [by left|].
  cbn [Js.foldM foldl].
  destruct (groupKeysCall_outcome groupBy p) as [-> | ->]; [|by right].
  cbn [Js.bind].
  destruct (pushToCall_loop_outcome p (groupKeys groupBy p) groups)
    as [-> | ->]; [|by right].
  cbn [Js.bind]. apply IH.
Qed.

(** The sensitivity labels are fixed strings, none of which names a member
    of [Object.prototype]: grouping by sensitivity returns for every
    list. *)
Lemma groupPermissionsCall_sensitivity (perms : list Permission) :
  groupPermissionsCall perms "sensitivity"
  = Js.Normal (groupPermissions perms "sensitivity").
Proof.
  apply groupPermissionsCall_normal; apply Forall_forall; intros p _.
  - apply (groupKeysCall_GroupByOption BySensitivity).
  - rewrite (groupKeys_GroupByOption BySensitivity).
    apply Forall_forall. intros key Hkey.
    apply list_elem_of_fmap in Hkey as (g & -> & _). by destruct g; by_evaluation.
Qed.

(** On the catalog each of the five dimensions returns. *)
Lemma groupPermissionsCall_catalog (o : GroupByOption) :
  groupPermissionsCall permissions (groupByName o)
  = Js.Normal (groupPermissions permissions (groupByName o)).
Proof.
  apply groupPermissionsCall_normal.
  - apply Forall_forall. intros p _. apply groupKeysCall_GroupByOption.
  - destruct o; by_evaluation.
Qed.

(** A dimension that is none of the five reaches the last branch. *)
Lemma groupKeys_unrecognized (groupBy : string) (p : Permission) :
  (∀ o, groupByName o ≠ groupBy) →
  groupKeys groupBy p = [toPropertyKey (getProperty p groupBy)].
Proof.
  intros Hother. unfold groupKeys.
  destruct (String.eqb_spec groupBy "taskCategory") as [->|_];
    [by destruct (Hother ByTaskCategory)|].
  destruct (String.eqb_spec groupBy "sensitivity") as [->|_];
    [by destruct (Hother BySensitivity)|].
  destruct (String.eqb_spec groupBy "operationType") as [->|_];
    [by destruct (Hother ByOperationType)|].
  destruct (String.eqb_spec groupBy "riskLevel") as [->|_];
    [by destruct (Hother ByRiskLevel)|].
  done.
Qed.

(** A name that is no property of a permission record, own or inherited,
    reads as [undefined]. *)
Lemma getProperty_undefined (p : Permission) (name : string) :
  name ∉ permissionPropertyNames → name ∉ Js.objectPrototypeNames →
  getProperty p name = UndefinedValue.
Proof.
  intros Hown Hinherited. unfold getProperty.
  repeat match goal with
         | |- context [String.eqb name ?s] =>
             destruct (String.eqb_spec name s) as [->|_];
             [exfalso; first [solve [apply Hown; in_list]
                             | solve [apply Hinherited; in_list]]|]
         end.
  by rewrite bool_decide_eq_false_2.
Qed.

Lemma groupKeysCall_undefined (groupBy : string) (p : Permission) :
  groupBy ∉ permissionPropertyNames → groupBy ∉ Js.objectPrototypeNames →
  groupKeysCall groupBy p = Js.Normal (groupKeys groupBy p)
  ∨ ∃ o, groupByName o = groupBy.
Proof.
  intros Hown Hinherited. unfold groupKeysCall, groupKeys.
  repeat match goal with
         | |- context [String.eqb groupBy ?s] =>
             destruct (String.eqb groupBy s); [by left|]
         end.
  left. by rewrite getProperty_undefined.
Qed.

Example groupPermissionsCall_inherited_key :
  groupPermissionsCall [dashboard_baseline; constructorPermission] "apiName"
  = Js.Throw "TypeError".
Proof. vm_compute. reflexivity. Qed.

Example groupPermissionsCall_unconvertible_key :
  groupPermissionsCall [dashboard_baseline; toStringRolePermission] "roleAccess"
  = Js.Throw "TypeError".
Proof. vm_compute. reflexivity. Qed.

Example groupPermissionsCall_inherited_dimension :
  groupPermissionsCall [dashboard_baseline] "constructor"
  = Js.Normal {[ "function Object() { [native code] }" := [dashboard_baseline] ]}.
Proof.
  rewrite groupPermissionsCall_normal;
    [f_equal|by repeat constructor|by_evaluation].
Qed.

(** C3 (as the code has it). [groupPermissions] does not check its
    dimension, and a dimension that is none of the five never makes it
    fail with an InvalidArgument error: the only exception the call can
    end in is a TypeError, of a key that does not convert to a string or
    that names a member of [Object.prototype].  When the call returns,
    each permission is in the bucket of the string of its property of
    that name, and in no other.  When the dimension names no property of a
    permission record, the call returns and every permission is in the
    one bucket "undefined". *)
Theorem groupPermissions_unrecognized_dimension (perms : list Permission)
    (groupBy : string) :
  (∀ o, groupByName o ≠ groupBy) →
  groupPermissionsCall perms groupBy ≠ Js.Throw "InvalidArgument"
  ∧ (∀ kind, groupPermissionsCall perms groupBy = Js.Throw kind →
             kind = "TypeError")
  ∧ (∀ groups,
       groupPermissionsCall perms groupBy = Js.Normal groups →
       ∀ p label,
         p ∈ bucket groups label
         ↔ p ∈ perms ∧ label = toPropertyKey (getProperty p groupBy))
  ∧ (groupBy ∉ permissionPropertyNames →
     groupBy ∉ Js.objectPrototypeNames →
     ∃ groups,
       groupPermissionsCall perms groupBy = Js.Normal groups
       ∧ ∀ p label, p ∈ bucket groups label ↔ p ∈ perms ∧ label = "undefined").
Proof.
  intros Hother.
  assert (Hbuckets : ∀ p label,
             p ∈ bucket (groupPermissions perms groupBy) label
             ↔ p ∈ perms ∧ label = toPropertyKey (getProperty p groupBy)).
  { intros p label.
    by rewrite elem_of_bucket, groupKeys_unrecognized, list_elem_of_singleton. }
  split; [|split; [|split]].
  - destruct (groupPermissionsCall_outcome perms groupBy) as [-> | ->]; done.
  - intros kind.
    destruct (groupPermissionsCall_outcome perms groupBy) as [-> | ->];
      congruence.
  - intros groups.
    destruct (groupPermissionsCall_outcome perms groupBy) as [-> | ->];
      [|done].
    intros [= <-]. exact Hbuckets.
  - intros Hown Hinherited. exists (groupPermissions perms groupBy). split.
    + apply groupPermissionsCall_normal; apply Forall_forall; intros p _.
      * destruct (groupKeysCall_undefined groupBy p Hown Hinherited)
          as [Hkeys|[o Ho]]; [done|by destruct (Hother o)].
      * rewrite groupKeys_unrecognized by done.
        rewrite getProperty_undefined by done.
        apply Forall_singleton. by_evaluation.
    + intros p label. rewrite Hbuckets.
      by rewrite getProperty_undefined by done.
Qed.

Lemma groupPermissions_unrecognized_dimension_witness :
  (∀ o, groupByName o ≠ "alphabetical")
  ∧ groupPermissionsCall [dashboard_baseline; charge] "alphabetical"
    ≠ Js.Throw "InvalidArgument"
  ∧ ∃ groups,
      groupPermissionsCall [dashboard_baseline; charge] "alphabetical"
      = Js.Normal groups
      ∧ ∀ p label,
          p ∈ bucket groups label
          ↔ p ∈ [dashboard_baseline; charge] ∧ label = "undefined".
Proof.
  assert (Hother : ∀ o, groupByName o ≠ "alphabetical") by (by intros []).
  split; [exact Hother|].
  destruct (groupPermissions_unrecognized_dimension
              [dashboard_baseline; charge] "alphabetical" Hother)
    as (Hkind & _ & _ & Hundefined).
  split; [exact Hkind|].
  apply Hundefined.
  - intros Hin. apply list_elem_of_In in Hin. simpl in Hin.
    repeat destruct Hin as [Hin|Hin]; try discriminate Hin. exact Hin.
  - intros Hin. apply list_elem_of_In in Hin. simpl in Hin.
    repeat destruct Hin as [Hin|Hin]; try discriminate Hin. exact Hin.
Defined.

(** C3 as stated fails: with the dimension "alphabetical", which is none of
    the five, the call returns a grouping with the single bucket
    "undefined". *)
Lemma groupPermissions_unrecognized_counterexample :
  (∀ o, groupByName o ≠ "alphabetical")
  ∧ groupPermissionsCall [dashboard_baseline] "alphabetical"
    = Js.Normal {[ "undefined" := [dashboard_baseline] ]}
  ∧ groupPermissionsCall [dashboard_baseline] "alphabetical"
    ≠ Js.Throw "InvalidArgument".
Proof.
  assert (Hcall : groupPermissionsCall [dashboard_baseline] "alphabetical"
                  = Js.Normal {[ "undefined" := [dashboard_baseline] ]}).
  { rewrite groupPermissionsCall_normal;
      [f_equal|by repeat constructor|by_evaluation]. }
  split; [by intros []|]. split; [exact Hcall|]. by rewrite Hcall.
Qed.

(** ** Lookup by api name *)

Lemma catalog_apiNames_NoDup : NoDup (apiName <$> permissions).
Proof. by_evaluation. Qed.

Lemma getPermissionsByApiNames_same_names (names1 names2 : list string) :
  (∀ x, x ∈ names1 ↔ x ∈ names2) →
  getPermissionsByApiNames names1 = getPermissionsByApiNames names2.
Proof.
  intros Hsame. unfold getPermissionsByApiNames.
  apply list_filter_iff. intros p. rewrite !elem_of_list_to_set. apply Hsame.
Qed.

(** C10. [getPermissionsByApiNames] returns a sublist of the catalog, in
    catalog order, with no catalog permission twice; the result depends
    only on which names occur in the argument, so a permutation of the
    argument and a repetition of names in it give the same result. *)
Theorem getPermissionsByApiNames_sublist_invariant (apiNames : list string) :
  getPermissionsByApiNames apiNames `sublist_of` permissions
  ∧ NoDup (apiName <$> getPermissionsByApiNames apiNames)
  ∧ (∀ other, other ≡ₚ apiNames →
       getPermissionsByApiNames other = getPermissionsByApiNames apiNames)
  ∧ (∀ other, (∀ x, x ∈ other ↔ x ∈ apiNames) →
       getPermissionsByApiNames other = getPermissionsByApiNames apiNames)
  ∧ getPermissionsByApiNames (apiNames ++ apiNames)
    = getPermissionsByApiNames apiNames.
Proof.
  assert (Hsub : getPermissionsByApiNames apiNames `sublist_of` permissions)
    by apply sublist_filter.
  split; [exact Hsub|]. split; [|split; [|split]].
  - eapply sublist_NoDup; [apply catalog_apiNames_NoDup|].
    by apply fmap_sublist.
  - intros other Hperm. apply getPermissionsByApiNames_same_names.
    intros x. by rewrite Hperm.
  - intros other Hsame. by apply getPermissionsByApiNames_same_names.
  - apply getPermissionsByApiNames_same_names. intros x.
    rewrite elem_of_app. tauto.
Qed.

Lemma getPermissionsByApiNames_sublist_invariant_witness :
  ["charge"; "balance_operations"; "charge"] ≡ₚ ["charge"; "charge"; "balance_operations"]
  ∧ getPermissionsByApiNames ["charge"; "balance_operations"; "charge"]
    = getPermissionsByApiNames ["charge"; "charge"; "balance_operations"].
Proof.
  assert (Hperm : ["charge"; "balance_operations"; "charge"]
                  ≡ₚ ["charge"; "charge"; "balance_operations"]).
  { apply perm_skip, perm_swap. }
  split; [exact Hperm|].
  exact (proj1 (proj2 (proj2
           (getPermissionsByApiNames_sublist_invariant
              ["charge"; "charge"; "balance_operations"]))) _ Hperm).
Defined.

(** ** Access resolver *)

Lemma roleAccess_roleView roleId p : roleAccess (roleView roleId p) = roleAccess p.
Proof. unfold roleView. by destruct (needsReadOnlyView roleId p). Qed.

(** The view of a permission to which the role has exactly "read". *)
Lemma roleView_read roleId p :
  roleAccess p !! roleId = Some "read" →
  (operationType p = "Read-only" → actions p = "read") →
  operationType (roleView roleId p) = "Read-only"
  ∧ actions (roleView roleId p) = "read".
Proof.
  intros Hread Hnominal. unfold roleView, needsReadOnlyView.
  rewrite bool_decide_eq_true_2 by done. simpl.
  destruct (String.eqb_spec (operationType p) "Read-only") as [Heq|Hne]; simpl.
  - auto.
  - done.
Qed.

(** In the catalog a nominally read-only permission has the action
    "read". *)
Lemma catalog_read_only_actions :
  Forall (λ p, operationType p = "Read-only" → actions p = "read") permissions.
Proof.
  apply Forall_forall. intros p Hp Hop.
  assert (Hall : forallb (λ p, implb (String.eqb (operationType p) "Read-only")
                                     (String.eqb (actions p) "read"))
                         permissions = true) by (vm_compute; reflexivity).
  rewrite forallb_forall in Hall. apply list_elem_of_In in Hp.
  specialize (Hall p Hp). rewrite Hop in Hall. simpl in Hall.
  by apply String.eqb_eq.
Qed.

(** C4. A permission that [getPermissionsForRole r] returns and to which [r]
    has the access "read" is reported with operationType "Read-only" and
    actions "read". *)
Theorem getPermissionsForRole_read_is_read_only (roleId : string)
    (p : Permission) :
  p ∈ getPermissionsForRole roleId →
  roleAccess p !! roleId = Some "read" →
  operationType p = "Read-only" ∧ actions p = "read".
Proof.
  unfold getPermissionsForRole. intros Hin Hread.
  apply list_elem_of_fmap in Hin as (q & -> & Hq).
  apply list_elem_of_filter in Hq as [_ Hq].
  rewrite roleAccess_roleView in Hread.
  apply roleView_read; [done|].
  pose proof catalog_read_only_actions as Hcat.
  rewrite Forall_forall in Hcat. by apply Hcat.
Qed.

Lemma getPermissionsForRole_read_is_read_only_witness :
  roleView "view_only" account_operations ∈ getPermissionsForRole "view_only"
  ∧ roleAccess (roleView "view_only" account_operations) !! "view_only" = Some "read"
  ∧ operationType account_operations = "Read + Write"
  ∧ operationType (roleView "view_only" account_operations) = "Read-only"
  ∧ actions (roleView "view_only" account_operations) = "read".
Proof.
  assert (Hin : roleView "view_only" account_operations
                ∈ getPermissionsForRole "view_only").
  { apply list_elem_of_lookup. exists 0. vm_compute. reflexivity. }
  assert (Hread : roleAccess (roleView "view_only" account_operations)
                    !! "view_only" = Some "read") by (vm_compute; reflexivity).
  split; [exact Hin|]. split; [exact Hread|]. split; [reflexivity|].
  exact (getPermissionsForRole_read_is_read_only "view_only" _ Hin Hread).
Defined.

(** ** The resolver and the shared catalog *)

Section StoreFrame.

Variable roleId : string.
Implicit Types (h : Store.Heap) (r : Store.Ref) (refs : list Store.Ref).

(** The two outcomes of the [map] callback. *)
Lemma roleView_run h r :
  Store.roleView roleId r h =
  match h !! r with
  | Some p =>
      if needsReadOnlyView roleId p then (length h, h ++ [asReadOnly p])
      else (r, h)
  | None => (r, h)
  end.
Proof.
  unfold Store.roleView, Store.read, mbind, Store.store_bind.
  destruct (h !! r) as [p|]; [|done].
  by destruct (needsReadOnlyView roleId p).
Qed.

Lemma roleView_extends h r : h `prefix_of` (Store.roleView roleId r h).2.
Proof.
  rewrite roleView_run. destruct (h !! r) as [p|]; [|done].
  destruct (needsReadOnlyView roleId p); simpl; [|done].
  by apply prefix_app_r.
Qed.

(** The reference the callback returns points, in the new heap, to the
    view of the object it was given. *)
Lemma roleView_deref h r p :
  h !! r = Some p →
  (Store.roleView roleId r h).2 !! (Store.roleView roleId r h).1
  = Some (roleView roleId p).
Proof.
  intros Hr. rewrite roleView_run, Hr. unfold roleView.
  destruct (needsReadOnlyView roleId p); simpl; [|done].
  by apply list_lookup_middle.
Qed.

Lemma mapM_cons r refs h :
  Store.mapM (Store.roleView roleId) (r :: refs) h =
  let '(v, h1) := Store.roleView roleId r h in
  let '(vs, h2) := Store.mapM (Store.roleView roleId) refs h1 in
  (v :: vs, h2).
Proof.
  simpl. unfold mbind, Store.store_bind.
  destruct (Store.roleView roleId r h) as [v h1].
  by destruct (Store.mapM (Store.roleView roleId) refs h1) as [vs h2].
Qed.

Lemma mapM_extends refs h :
  h `prefix_of` (Store.mapM (Store.roleView roleId) refs h).2.
Proof.
  revert h. induction refs as [|r refs IH]; intros h; [done|].
  rewrite mapM_cons.
  pose proof (roleView_extends h r) as H1.
  destruct (Store.roleView roleId r h) as [v h1]. simpl in H1.
  pose proof (IH h1) as H2.
  destruct (Store.mapM (Store.roleView roleId) refs h1) as [vs h2].
  simpl in *. by etrans.
Qed.

Lemma deref_prefix h h' refs :
  h `prefix_of` h' →
  Forall (λ r, is_Some (h !! r)) refs →
  Store.deref h' refs = Store.deref h refs.
Proof.
  intros Hpre. induction 1 as [|r refs [p Hp] _ IH]; [done|].
  unfold Store.deref in *. csimpl.
  rewrite (prefix_lookup_Some _ _ _ _ Hp Hpre), Hp. csimpl. by rewrite IH.
Qed.

Lemma mapM_deref refs h :
  Forall (λ r, is_Some (h !! r)) refs →
  let result := Store.mapM (Store.roleView roleId) refs h in
  Store.deref result.2 result.1 = roleView roleId <$> Store.deref h refs.
Proof.
  revert h. induction refs as [|r refs IH]; intros h Hvalid; [done|].
  apply Forall_cons in Hvalid as [[p Hp] Hvalid].
  cbv zeta. rewrite mapM_cons.
  pose proof (roleView_extends h r) as Hpre.
  pose proof (roleView_deref h r p Hp) as Hview.
  destruct (Store.roleView roleId r h) as [v h1]. simpl in Hpre, Hview.
  assert (Hvalid1 : Forall (λ r, is_Some (h1 !! r)) refs).
  { eapply Forall_impl; [exact Hvalid|]. intros r' [q Hq].
    exists q. by eapply prefix_lookup_Some. }
  pose proof (IH h1 Hvalid1) as Hrest. cbv zeta in Hrest.
  pose proof (mapM_extends refs h1) as Hpre2.
  destruct (Store.mapM (Store.roleView roleId) refs h1) as [vs h2].
  simpl in Hrest, Hpre2 |- *. unfold Store.deref in *. csimpl.
  rewrite (prefix_lookup_Some _ _ _ _ Hview Hpre2), Hp. csimpl.
  rewrite Hrest. f_equal. f_equal.
  apply (deref_prefix h h1 refs Hpre Hvalid).
Qed.

Lemma deref_filter_granted h refs :
  Store.deref h (filter (λ r, Store.granted roleId h r) refs)
  = filter (λ p, grantedTo roleId p) (Store.deref h refs).
Proof.
  unfold Store.deref.
  induction refs as [|r refs IH]; [done|].
  destruct (h !! r) as [p|] eqn:Hr.
  - destruct (grantedTo roleId p) eqn:Hg.
    + rewrite filter_cons_True by (unfold Store.granted; by rewrite Hr, Hg).
      csimpl. rewrite Hr. csimpl.
      rewrite filter_cons_True by (by rewrite Hg). by rewrite IH.
    + rewrite filter_cons_False by (unfold Store.granted; rewrite Hr, Hg; intros []).
      csimpl. rewrite Hr. csimpl.
      rewrite filter_cons_False by (rewrite Hg; intros []). by rewrite IH.
  - rewrite filter_cons_False by (unfold Store.granted; rewrite Hr; intros []).
    csimpl. by rewrite Hr.
Qed.

Lemma granted_valid h refs :
  Forall (λ r, is_Some (h !! r))
         (filter (λ r, Store.granted roleId h r) refs).
Proof.
  apply Forall_forall. intros r Hr.
  apply list_elem_of_filter in Hr as [Hg _]. unfold Store.granted in Hg.
  destruct (h !! r); [by eexists | by destruct Hg].
Qed.

End StoreFrame.

(** A heap read through the references to all its objects, in order. *)
Lemma deref_seq (before h : list Permission) :
  Store.deref (before ++ h) (seq (length before) (length h)) = h.
Proof.
  revert before. induction h as [|p h IH]; intros before; [done|].
  unfold Store.deref in *. csimpl.
  rewrite list_lookup_middle by done. csimpl. f_equal.
  specialize (IH (before ++ [p])).
  rewrite <- app_assoc, length_app, Nat.add_1_r in IH. exact IH.
Qed.

(** The heap at start-up, read through the catalog, is [permissions]. *)
Lemma deref_initial : Store.deref Store.initialHeap Store.catalogRefs = permissions.
Proof. apply (deref_seq [] permissions). Qed.

(** The returned references point to the views of the granted records. *)
Lemma getPermissionsForRole_deref (roleId : string) (catalog : list Store.Ref)
    (h : Store.Heap) :
  let result := Store.getPermissionsForRole roleId catalog h in
  Store.deref result.2 result.1
  = roleView roleId <$> filter (λ p, grantedTo roleId p) (Store.deref h catalog).
Proof.
  cbv zeta. unfold Store.getPermissionsForRole.
  rewrite (mapM_deref roleId _ h (granted_valid roleId h catalog)).
  by rewrite deref_filter_granted.
Qed.

(** On the start-up heap the views are the list that the value-level
    [getPermissionsForRole] computes. *)
Corollary getPermissionsForRole_views (roleId : string) :
  let result :=
    Store.getPermissionsForRole roleId Store.catalogRefs Store.initialHeap in
  Store.deref result.2 result.1 = getPermissionsForRole roleId.
Proof.
  cbv zeta. rewrite getPermissionsForRole_deref. by rewrite deref_initial.
Qed.

(** C9. [getPermissionsForRole] leaves every object that existed before
    the call as it was - in particular each catalog record, with its
    operationType and actions - and the returned references point to the
    role's views: the read-only override lives in objects created by the
    call. *)
Theorem getPermissionsForRole_preserves_catalog (roleId : string)
    (catalog : list Store.Ref) (h : Store.Heap) :
  let result := Store.getPermissionsForRole roleId catalog h in
  (∀ r p, h !! r = Some p →
     result.2 !! r = Some p
     ∧ operationType <$> result.2 !! r = Some (operationType p)
     ∧ actions <$> result.2 !! r = Some (actions p))
  ∧ Store.deref result.2 result.1
    = roleView roleId <$> filter (λ p, grantedTo roleId p) (Store.deref h catalog).
Proof.
  cbv zeta. unfold Store.getPermissionsForRole. split.
  - intros r p Hr.
    pose proof (mapM_extends roleId
                  (filter (λ r, Store.granted roleId h r) catalog) h) as Hpre.
    rewrite (prefix_lookup_Some _ _ _ _ Hr Hpre). done.
  - apply getPermissionsForRole_deref.
Qed.

Lemma getPermissionsForRole_preserves_catalog_witness :
  Store.initialHeap !! 1 = Some account_operations
  ∧ (Store.getPermissionsForRole "view_only" Store.catalogRefs
       Store.initialHeap).2 !! 1 = Some account_operations.
Proof.
  split; [reflexivity|].
  exact (proj1 (proj1 (getPermissionsForRole_preserves_catalog
                         "view_only" Store.catalogRefs Store.initialHeap)
                  1 account_operations eq_refl)).
Defined.

(** ** Risk assessment *)

Section Score.

Variable selectedPermissions : list Permission.
Implicit Types t : Tally.

Lemma totalScore_pushFactor f t : totalScore (pushFactor f t) = totalScore t.
Proof. done. Qed.

Lemma totalScore_pushWarning w t : totalScore (pushWarning w t) = totalScore t.
Proof. done. Qed.

Lemma totalScore_pushRecommendation r t :
  totalScore (pushRecommendation r t) = totalScore t.
Proof. done. Qed.

Lemma totalScore_addScore n t : totalScore (addScore n t) = (totalScore t + n)%Z.
Proof. done. Qed.

Lemma totalScore_standardOperationsNote t :
  totalScore (standardOperationsNote selectedPermissions t) = totalScore t.
Proof. unfold standardOperationsNote. by case_match. Qed.

Lemma totalScore_highRiskCheck t :
  totalScore (highRiskCheck selectedPermissions t) = totalScore t.
Proof.
  unfold highRiskCheck. generalize HIGH_RISK_PERMISSIONS. intros entries.
  revert t. induction entries as [|entry entries IH]; intros t; [done|].
  simpl. rewrite IH. by case_match.
Qed.

Lemma totalScore_breadthOfAccess t :
  totalScore (breadthOfAccess selectedPermissions t)
  = (totalScore t + breadthBonus selectedPermissions)%Z.
Proof.
  unfold breadthOfAccess, breadthBonus. case_match; simpl; lia.
Qed.

Lemma totalScore_recommend t :
  totalScore (recommend selectedPermissions t) = totalScore t.
Proof. unfold recommend. by repeat case_match. Qed.

(** The score when the six steps have run: the score after the
    operation-type step, plus the breadth bonus. *)
Lemma totalScore_finalTally :
  totalScore (finalTally selectedPermissions)
  = (totalScore (operationTypeAnalysis selectedPermissions
                   (sensitivityAnalysis selectedPermissions
                      (riskLevelAnalysis selectedPermissions emptyTally)))
     + breadthBonus selectedPermissions)%Z.
Proof.
  unfold finalTally.
  by rewrite totalScore_recommend, totalScore_breadthOfAccess,
    totalScore_highRiskCheck, totalScore_standardOperationsNote.
Qed.

Lemma totalScore_operationTypeAnalysis_readOnly t :
  isReadOnlyRole selectedPermissions = true →
  totalScore (operationTypeAnalysis selectedPermissions t)
  = Js.round (totalScore t * 3) 10.
Proof. intros Hro. unfold operationTypeAnalysis. by rewrite Hro. Qed.

Lemma isReadOnlyRole_Forall :
  Forall (λ p, operationType p = "Read-only") selectedPermissions →
  isReadOnlyRole selectedPermissions = true.
Proof.
  intros Hall. unfold isReadOnlyRole, readOnlyCount.
  apply Nat.eqb_eq. f_equal.
  induction Hall as [|p l Hp _ IH]; [done|].
  rewrite filter_cons_True; [by rewrite IH|].
  unfold isReadOnly. rewrite Hp. done.
Qed.

End Score.

(** [Math.round] stays within one half of its argument. *)
Lemma round_bounds (n d : Z) :
  (0 < d)%Z → (2 * n - d < 2 * d * Js.round n d ≤ 2 * n + d)%Z.
Proof.
  intros Hd. unfold Js.round.
  pose proof (Z.mul_div_le (2 * n + d) (2 * d)) as Hle.
  pose proof (Z.mul_succ_div_gt (2 * n + d) (2 * d)) as Hgt.
  lia.
Qed.

(** C1 (as the code has it). For a set whose members are all "Read-only",
    the score is the score accumulated before the operation-type step,
    times 0.3 and rounded to the nearest integer, plus the breadth bonus,
    which is added after the multiplication and in full; the sum is capped
    at 100.  The rounded product is at most 30% of the score accumulated
    before the step, plus one half. *)
Theorem readOnly_score_discount (selectedPermissions : list Permission) :
  Forall (λ p, operationType p = "Read-only") selectedPermissions →
  let before := scoreBeforeOperationType selectedPermissions in
  let discounted := Js.round (before * 3) 10 in
  score (generateRiskAssessment selectedPermissions)
  = Z.min 100 (discounted + breadthBonus selectedPermissions)
  ∧ (10 * discounted ≤ 3 * before + 5)%Z.
Proof.
  intros Hall. cbv zeta. split.
  - unfold generateRiskAssessment.
    destruct selectedPermissions as [|p l] eqn:Hsel; [by vm_compute|].
    rewrite <- Hsel in *.
    replace (length selectedPermissions =? 0)%nat with false
      by (by rewrite Hsel).
    simpl. rewrite totalScore_finalTally.
    by rewrite totalScore_operationTypeAnalysis_readOnly
      by (by apply isReadOnlyRole_Forall).
  - pose proof (round_bounds (scoreBeforeOperationType selectedPermissions * 3)
                  10 ltac:(lia)).
    lia.
Qed.

Lemma readOnly_score_discount_witness :
  Forall (λ p, operationType p = "Read-only") nineReadOnlyAreas
  ∧ score (generateRiskAssessment nineReadOnlyAreas)
    = Z.min 100 (Js.round (scoreBeforeOperationType nineReadOnlyAreas * 3) 10
                 + breadthBonus nineReadOnlyAreas).
Proof.
  assert (Hall : Forall (λ p, operationType p = "Read-only") nineReadOnlyAreas).
  { unfold nineReadOnlyAreas. rewrite Forall_fmap. repeat constructor. }
  split; [exact Hall|].
  exact (proj1 (readOnly_score_discount nineReadOnlyAreas Hall)).
Defined.

(** The nine sample views are among those of the role "view_only". *)
Lemma nineReadOnlyAreas_views :
  nineReadOnlyAreas `sublist_of` getPermissionsForRole "view_only".
Proof.
  assert (Heq : nineReadOnlyAreas
                = filter (λ p, apiName p ∈ apiName <$> nineReadOnlyAreas)
                         (getPermissionsForRole "view_only"))
    by (vm_compute; reflexivity).
  rewrite Heq at 1. apply sublist_filter.
Qed.

(** C1 as stated fails.  Every member of [nineReadOnlyAreas] is
    "Read-only"; nothing is accumulated before the operation-type step and
    the breadth step adds 10, so the score without the multiplier would be
    10; the score is 10, not at most 3.  For [balance_operations] alone the
    score before the step is 2 and the score is 1, above 0.6. *)
Lemma readOnly_score_counterexample :
  (Forall (λ p, operationType p = "Read-only") nineReadOnlyAreas
   ∧ scoreBeforeOperationType nineReadOnlyAreas = 0%Z
   ∧ breadthBonus nineReadOnlyAreas = 10%Z
   ∧ score (generateRiskAssessment nineReadOnlyAreas) = 10%Z
   ∧ ¬ (10 * score (generateRiskAssessment nineReadOnlyAreas)
        ≤ 3 * (scoreBeforeOperationType nineReadOnlyAreas
               + breadthBonus nineReadOnlyAreas))%Z)
  ∧ (operationType balance_operations = "Read-only"
     ∧ scoreBeforeOperationType [balance_operations] = 2%Z
     ∧ breadthBonus [balance_operations] = 0%Z
     ∧ score (generateRiskAssessment [balance_operations]) = 1%Z
     ∧ ¬ (10 * score (generateRiskAssessment [balance_operations])
          ≤ 3 * (scoreBeforeOperationType [balance_operations]
                 + breadthBonus [balance_operations]))%Z).
Proof.
  assert (H1 : scoreBeforeOperationType nineReadOnlyAreas = 0%Z)
    by (vm_compute; reflexivity).
  assert (H2 : breadthBonus nineReadOnlyAreas = 10%Z)
    by (vm_compute; reflexivity).
  assert (H3 : score (generateRiskAssessment nineReadOnlyAreas) = 10%Z)
    by (vm_compute; reflexivity).
  assert (H4 : scoreBeforeOperationType [balance_operations] = 2%Z)
    by (vm_compute; reflexivity).
  assert (H5 : breadthBonus [balance_operations] = 0%Z)
    by (vm_compute; reflexivity).
  assert (H6 : score (generateRiskAssessment [balance_operations]) = 1%Z)
    by (vm_compute; reflexivity).
  split.
  - split.
    { unfold nineReadOnlyAreas. rewrite Forall_fmap. repeat constructor. }
    rewrite H1, H2, H3. repeat split; lia.
  - split; [reflexivity|]. rewrite H4, H5, H6. repeat split; lia.
Qed.

(** C6. For a non-empty set the score is the accumulated score capped at
    100, and the classification is "High" from 45 up, "Medium" from 20 to
    44 and "Low" below 20. *)
Theorem score_cap_and_classification (selectedPermissions : list Permission) :
  selectedPermissions ≠ [] →
  let assessment := generateRiskAssessment selectedPermissions in
  score assessment = Z.min 100 (totalScore (finalTally selectedPermissions))
  ∧ (score assessment ≤ 100)%Z
  ∧ ((70 ≤ score assessment)%Z → overallRisk assessment = High)
  ∧ ((45 ≤ score assessment)%Z → overallRisk assessment = High)
  ∧ ((20 ≤ score assessment < 45)%Z → overallRisk assessment = Medium)
  ∧ ((score assessment < 20)%Z → overallRisk assessment = Low).
Proof.
  intros Hne. cbv zeta. unfold generateRiskAssessment.
  destruct selectedPermissions as [|p l] eqn:Hsel; [done|].
  rewrite <- Hsel. replace (length selectedPermissions =? 0)%nat with false
    by (by rewrite Hsel).
  simpl. generalize (Z.le_min_l 100 (totalScore (finalTally selectedPermissions))).
  generalize (Z.min 100 (totalScore (finalTally selectedPermissions))).
  intros capped Hcap.
  split; [done|]. split; [done|].
  destruct (70 <=? capped)%Z eqn:H70; [apply Z.leb_le in H70
                                       | apply Z.leb_gt in H70];
    (destruct (45 <=? capped)%Z eqn:H45; [apply Z.leb_le in H45
                                          | apply Z.leb_gt in H45]);
    (destruct (20 <=? capped)%Z eqn:H20; [apply Z.leb_le in H20
                                          | apply Z.leb_gt in H20]);
    repeat split; intros; (done || lia).
Qed.

Lemma score_cap_and_classification_witness :
  [payout_operations; charge_operations] ≠ []
  ∧ score (generateRiskAssessment [payout_operations; charge_operations])
    = Z.min 100 (totalScore (finalTally [payout_operations; charge_operations])).
Proof.
  split; [discriminate|].
  exact (proj1 (score_cap_and_classification
                  [payout_operations; charge_operations] ltac:(discriminate))).
Defined.

(** C7. The catalog permission [balance_transfer_operations] alone: a
    "Critical Operations" factor of level High, a "Financial Data" factor,
    the warning about transferring funds, a score of at least 25 and the
    classification "High". *)
Theorem balance_transfer_alone :
  balance_transfer_operations ∈ permissions
  ∧ apiName balance_transfer_operations = "balance_transfer_operations"
  ∧ actions balance_transfer_operations = "write"
  ∧ riskLevel balance_transfer_operations = "Critical"
  ∧ hasFinancialData balance_transfer_operations = true
  ∧ let assessment := generateRiskAssessment [balance_transfer_operations] in
    {| name := "Critical Operations"; level := High; count := 1 |}
      ∈ factors assessment
    ∧ {| name := "Financial Data"; level := High; count := 1 |}
      ∈ factors assessment
    ∧ "Can transfer funds between accounts" ∈ warnings assessment
    ∧ (25 ≤ score assessment)%Z
    ∧ score assessment = 45%Z
    ∧ overallRisk assessment = High.
Proof.
  split.
  { apply list_elem_of_lookup. exists 26. reflexivity. }
  repeat (split; [reflexivity|]).
  assert (Heval : generateRiskAssessment [balance_transfer_operations] =
    {| overallRisk := High;
       score := 45;
       factors :=
         [ {| name := "Critical Operations"; level := High; count := 1 |};
           {| name := "Financial Data"; level := High; count := 1 |};
           {| name := "Write-Heavy Access"; level := Medium; count := 1 |} ];
       warnings := ["Can transfer funds between accounts"];
       recommendations :=
         [ "Critical operations without team management - ensure proper oversight";
           "No read-only permissions - consider adding for audit visibility" ] |})
    by (vm_compute; reflexivity).
  cbv zeta. rewrite Heval. simpl.
  repeat split; try reflexivity; try lia; in_list.
Qed.

(** ** The "cannot do" list *)

Lemma generateCannotDo_length (selectedPermissions : list Permission) :
  length (generateCannotDo selectedPermissions) ≤ 5.
Proof. unfold generateCannotDo. rewrite length_take. lia. Qed.

Lemma noteMissingPermission_nonempty selected cannotList entry :
  cannotList ≠ [] → noteMissingPermission selected cannotList entry ≠ [].
Proof.
  intros Hne. unfold noteMissingPermission. case_match; [|done].
  by destruct cannotList.
Qed.

Lemma noteMissingCategory_nonempty selected cannotList cat :
  cannotList ≠ [] → noteMissingCategory selected cannotList cat ≠ [].
Proof.
  intros Hne. unfold noteMissingCategory. case_match; [|done].
  by destruct cannotList.
Qed.

Lemma foldl_nonempty {A} (step : list string → A → list string) (l : list A)
    (start : list string) :
  (∀ acc a, acc ≠ [] → step acc a ≠ []) →
  start ≠ [] → foldl step start l ≠ [].
Proof.
  intros Hstep. revert start.
  induction l as [|a l IH]; intros start Hne; simpl; [done|].
  by apply IH, Hstep.
Qed.

(** [notablePermissions] names a permission that the catalog does not
    have. *)
Lemma customer_pii_operations_not_in_catalog :
  "customer_pii_operations" ∈ notablePermissions.*1
  ∧ "customer_pii_operations" ∉ (apiName <$> permissions).
Proof.
  split; by_evaluation.
Qed.

(** A set without a permission named "customer_pii_operations" - any set
    drawn from the catalog - never gets the empty list. *)
Lemma generateCannotDo_nonempty (selectedPermissions : list Permission) :
  "customer_pii_operations" ∉ (apiName <$> selectedPermissions) →
  generateCannotDo selectedPermissions ≠ [].
Proof.
  intros Hmissing. unfold generateCannotDo.
  set (selected := list_to_set (apiName <$> selectedPermissions) : gset string).
  assert (Hfirst : foldl (noteMissingPermission selected) [] notablePermissions ≠ []).
  { pose (dead := ("customer_pii_operations",
                   "View or edit customer personal information")).
    assert (Hsplit : notablePermissions
                     = take 8 notablePermissions ++ dead :: drop 9 notablePermissions)
      by reflexivity.
    rewrite Hsplit, foldl_app.
    generalize (foldl (noteMissingPermission selected) []
                  (take 8 notablePermissions)).
    intros acc.
    apply (foldl_nonempty (noteMissingPermission selected)
             (drop 9 notablePermissions)
             (noteMissingPermission selected acc dead));
      [apply noteMissingPermission_nonempty|].
    unfold noteMissingPermission, dead. simpl.
    rewrite bool_decide_eq_false_2
      by (unfold selected; by rewrite elem_of_list_to_set).
    simpl. destruct (length acc <? 5) eqn:Hlen.
    - by destruct acc.
    - apply Nat.ltb_ge in Hlen. destruct acc; simpl in *; [lia|done]. }
  set (first := foldl (noteMissingPermission selected) [] notablePermissions) in *.
  cbv zeta.
  match goal with
  | |- take 5 ?l ≠ [] => assert (Hl : l ≠ []); [|by destruct l]
  end.
  set (second :=
    if (length first <? 5)%nat
    then if negb (existsb (λ p, Js.includes (Js.toLowerCase (actions p)) "write")
                          selectedPermissions)
         then first ++ ["Make any changes (read-only access)"] else first
    else first).
  assert (Hsecond : second ≠ []).
  { unfold second. repeat case_match; try done. by destruct first. }
  destruct (length second <? 5)%nat; [|done].
  apply foldl_nonempty; [apply noteMissingCategory_nonempty|done].
Qed.

(** C2. The list has at most five items.  For the whole catalog it is not
    empty: it holds the entry of "customer_pii_operations", a name that
    [notablePermissions] has and the catalog has not. *)
Theorem generateCannotDo_full_catalog :
  (∀ selectedPermissions, length (generateCannotDo selectedPermissions) ≤ 5)
  ∧ generateCannotDo permissions
    = ["View or edit customer personal information"]
  ∧ generateCannotDo permissions ≠ [].
Proof.
  split; [apply generateCannotDo_length|].
  assert (Heval : generateCannotDo permissions
                  = ["View or edit customer personal information"])
    by (vm_compute; reflexivity).
  split; [exact Heval|]. by rewrite Heval.
Qed.

(** ** The "can do" list *)

Section Entries.

Context {V : Type}.
Implicit Types (obj : Js.Entries V) (key : string).

Lemma get_set_eq key (v : V) obj : Js.get key (Js.set key v obj) = Some v.
Proof.
  induction obj as [|[k w] rest IH]; simpl.
  - by rewrite String.eqb_refl.
  - destruct (String.eqb k key) eqn:Hk; simpl; by rewrite Hk.
Qed.

Lemma get_set_ne key key' (v : V) obj :
  key ≠ key' → Js.get key' (Js.set key v obj) = Js.get key' obj.
Proof.
  intros Hne. induction obj as [|[k w] rest IH]; simpl.
  - by destruct (String.eqb_spec key key').
  - destruct (String.eqb_spec k key) as [->|Hk]; simpl.
    + by destruct (String.eqb_spec key key').
    + by rewrite IH.
Qed.

End Entries.

Lemma add_idem (x : string) (s : Js.OrderedSet) :
  Js.add x (Js.add x s) = Js.add x s.
Proof.
  unfold Js.add at 2. case_bool_decide as Hin; [done|].
  unfold Js.add. rewrite (bool_decide_eq_false_2 _ Hin).
  rewrite bool_decide_eq_true_2; [done|].
  apply elem_of_app. right. apply list_elem_of_here.
Qed.

Section TaskGroups.

Implicit Types (taskGroups : Js.Entries Js.OrderedSet) (task tc desc : string).

Lemma descriptionsAt_storeDescription tc desc taskGroups task :
  descriptionsAt (storeDescription tc desc taskGroups) task =
  if decide (tc = task) then Js.add desc (descriptionsAt taskGroups task)
  else descriptionsAt taskGroups task.
Proof.
  unfold descriptionsAt, storeDescription.
  destruct (decide (tc = task)) as [->|Hne].
  - by rewrite get_set_eq.
  - by rewrite get_set_ne.
Qed.

(** A store under a key that names no member of [Object.prototype] does
    not throw. *)
Lemma addDescription_normal tc desc taskGroups :
  tc ∉ Js.objectPrototypeNames →
  addDescription tc desc taskGroups
  = Js.Normal (storeDescription tc desc taskGroups).
Proof.
  intros Hname. unfold addDescription, storeDescription.
  destruct (Js.get tc taskGroups); [done|].
  by rewrite bool_decide_eq_false_2.
Qed.

Lemma addDescription_loop_normal desc (tcs : list string) taskGroups :
  Forall (λ tc, tc ∉ Js.objectPrototypeNames) tcs →
  Js.foldM (λ taskGroups tc, addDescription tc desc taskGroups) taskGroups tcs
  = Js.Normal
      (foldl (λ taskGroups tc, storeDescription tc desc taskGroups)
             taskGroups tcs).
Proof.
  intros Hok. revert taskGroups.
  induction Hok as [|tc tcs Htc _ IH]; intros taskGroups; [done|].
  cbn [Js.foldM foldl]. rewrite addDescription_normal by done. apply IH.
Qed.

(** The first loop returns the table of the stores when no task category
    names a member of [Object.prototype]. *)
Lemma collectTaskGroups_normal (perms : list Permission) :
  Forall (λ p, Forall (λ tc, tc ∉ Js.objectPrototypeNames) (taskCategories p))
         perms →
  collectTaskGroups perms = Js.Normal (storedTaskGroups perms).
Proof.
  unfold collectTaskGroups, storedTaskGroups.
  generalize ([] : Js.Entries Js.OrderedSet). intros taskGroups Hok.
  revert taskGroups.
  induction Hok as [|p perms Hp _ IH]; intros taskGroups; [done|].
  cbn [Js.foldM foldl]. rewrite addDescription_loop_normal by done. apply IH.
Qed.

(** The inner loop: one permission's description goes to each of its task
    categories. *)
Lemma descriptionsAt_inner desc (tcs : list string) taskGroups task :
  descriptionsAt
    (foldl (λ taskGroups tc, storeDescription tc desc taskGroups) taskGroups tcs)
    task =
  if decide (task ∈ tcs) then Js.add desc (descriptionsAt taskGroups task)
  else descriptionsAt taskGroups task.
Proof.
  revert taskGroups. induction tcs as [|tc tcs IH]; intros taskGroups.
  - rewrite decide_False; [done|]. apply not_elem_of_nil.
  - cbn [foldl]. rewrite IH, descriptionsAt_storeDescription.
    destruct (decide (tc = task)) as [->|Hne].
    + rewrite (decide_True (P := task ∈ task :: tcs))
        by apply list_elem_of_here.
      destruct (decide (task ∈ tcs)); [apply add_idem|done].
    + destruct (decide (task ∈ tcs)) as [Hin|Hnin].
      * rewrite decide_True; [done|]. by apply list_elem_of_further.
      * rewrite decide_False; [done|].
        intros Hc. apply elem_of_cons in Hc as [->|Hc]; done.
Qed.

(** The outer loop, from any state of [taskGroups]. *)
Lemma descriptionsAt_outer (perms : list Permission) taskGroups task :
  descriptionsAt
    (foldl (λ taskGroups p,
              foldl (λ taskGroups tc, storeDescription tc (describe p) taskGroups)
                    taskGroups (taskCategories p))
           taskGroups perms)
    task =
  foldl (λ s x, Js.add x s) (descriptionsAt taskGroups task)
        (describe <$> filter (λ p, task ∈ taskCategories p) perms).
Proof.
  revert taskGroups. induction perms as [|p perms IH]; intros taskGroups.
  - done.
  - cbn [foldl]. rewrite IH, descriptionsAt_inner.
    destruct (decide (task ∈ taskCategories p)) as [Hin|Hnin].
    + by rewrite filter_cons_True by done.
    + by rewrite filter_cons_False by done.
Qed.

Lemma descriptionsAt_storedTaskGroups (perms : list Permission) task :
  descriptionsAt (storedTaskGroups perms) task = taskDescriptions perms task.
Proof. unfold storedTaskGroups. by rewrite descriptionsAt_outer. Qed.

(** What the priority loop pushes, in terms of the descriptions at the
    key. *)
Lemma priorityItems_descriptionsAt taskGroups task :
  priorityItems taskGroups task =
  let descriptions := descriptionsAt taskGroups task in
  if (2 <? length descriptions)%nat
  then [summaryBullet task (length descriptions)]
  else descriptions.
Proof.
  unfold priorityItems, descriptionsAt.
  destruct (Js.get task taskGroups) as [descriptions|]; [|done].
  by destruct descriptions as [|a [|b [|c rest]]].
Qed.

End TaskGroups.

(** The final filter leaves no two items with the same lower-case form,
    and none whose lower-case form was seen before. *)
Lemma dedupeIgnoringCase_NoDup (items : list string) (seen : gset string) :
  NoDup (Js.toLowerCase <$> dedupeIgnoringCase seen items)
  ∧ ∀ x, x ∈ dedupeIgnoringCase seen items → Js.toLowerCase x ∉ seen.
Proof.
  revert seen. induction items as [|item items IH]; intros seen; simpl.
  - split; [apply NoDup_nil_2|]. intros x Hx. by apply not_elem_of_nil in Hx.
  - case_bool_decide as Hseen; [apply IH|].
    destruct (IH ({[Js.toLowerCase item]} ∪ seen)) as [Hnd Hfresh].
    split.
    + csimpl. apply NoDup_cons. split; [|done].
      intros Hin. apply list_elem_of_fmap in Hin as (y & Heq & Hy).
      apply Hfresh in Hy. rewrite <- Heq in Hy.
      apply Hy, elem_of_union_l, elem_of_singleton. done.
    + intros x Hx. apply elem_of_cons in Hx as [->|Hx]; [done|].
      apply Hfresh in Hx. intros Hc. apply Hx. by apply elem_of_union_r.
Qed.

(** *** Sets of catalog records *)









(** What the callers pass, a filter of the catalog, is a set of catalog
    records. *)
Lemma catalog_filter_set (keep : Permission → bool) :
  NoDup (filter (λ p, keep p = true) permissions)
  ∧ filter (λ p, keep p = true) permissions ⊆ permissions.
Proof.
  split.
  - apply NoDup_filter, (NoDup_fmap_1 apiName), catalog_apiNames_NoDup.
  - intros p Hp. by apply list_elem_of_filter in Hp as [_ Hp].
Qed.



(** The count is of distinct descriptions: three records that share a
    category and a description, which no set of catalog records does,
    give the description and no summary bullet. *)
Example generateCanDo_counts_descriptions :
  length (filter (λ p, "Process transactions" ∈ taskCategories p) threeAlike) = 3
  ∧ generateCanDo threeAlike = Js.Normal ["Process charges and refunds"].
Proof. split; vm_compute; reflexivity. Qed.

(** The cap applies after the bullets are pushed: for the role
    "refund_analyst" the summary of "Export & analyze data" is pushed as
    the seventh item and is not in the result. *)
Example generateCanDo_cap_drops_bullet :
  let selected := getPermissionsForRole "refund_analyst" in
  canDoList (storedTaskGroups selected) !! 6
  = Some "Export & analyze data (6 capabilities)"
  ∧ generateCanDo selected
    = Js.Normal
        [ "Manage payment methods"; "Manage orders";
          "Handle customer issues (9 capabilities)";
          "Manage billing (4 capabilities)"; "View account balances";
          "Run and access reports" ].
Proof. cbv zeta. split; vm_compute; reflexivity. Qed.

(** * Further properties *)

(** Two predicates that agree on a list filter it alike. *)
Lemma filter_ext_in {A} (P Q : A → Prop) `{!∀ x, Decision (P x)}
    `{!∀ x, Decision (Q x)} (l : list A) :
  (∀ x, x ∈ l → P x ↔ Q x) → filter P l = filter Q l.
Proof.
  induction l as [|x l IH]; intros Hext; [done|].
  rewrite !filter_cons.
  assert (HPQ : P x ↔ Q x) by (apply Hext, list_elem_of_here).
  rewrite IH by (intros y Hy; by apply Hext, list_elem_of_further).
  destruct (decide (P x)), (decide (Q x)); tauto || done.
Qed.

(** ** Access resolver: what a role gets *)

Lemma apiName_roleView roleId p : apiName (roleView roleId p) = apiName p.
Proof. unfold roleView. by destruct (needsReadOnlyView roleId p). Qed.

Lemma apiName_getPermissionsForRole roleId :
  apiName <$> getPermissionsForRole roleId
  = apiName <$> filter (λ p, grantedTo roleId p) permissions.
Proof.
  unfold getPermissionsForRole. rewrite <- list_fmap_compose.
  apply list_fmap_ext. intros i p _. apply apiName_roleView.
Qed.

(** A permission passes the filter when the record names the role with a
    non-empty level, or does not name it and the role identifier is the
    name of a member of [Object.prototype]. *)
Lemma grantedTo_level roleId p :
  grantedTo roleId p
  ↔ (∃ level, roleAccess p !! roleId = Some level ∧ level ≠ "")
    ∨ (roleAccess p !! roleId = None ∧ roleId ∈ Js.objectPrototypeNames).
Proof.
  unfold grantedTo, Js.truthyAt, Js.truthy.
  destruct (roleAccess p !! roleId) as [level|]; simpl.
  - destruct (String.eqb_spec level "") as [->|Hne]; simpl.
    + split; [intros [] | intros [(l & [= <-] & Hl)|[[=] _]]; done].
    + split; [intros _; left; by exists level | done].
  - rewrite bool_decide_spec. split.
    + intros Hin. by right.
    + intros [(l & [=] & _)|[_ Hin]]. done.
Qed.

Lemma catalog_no_inherited_role :
  Forall (λ roleId, Forall (λ p, roleAccess p !! roleId = None) permissions)
         Js.objectPrototypeNames.
Proof. by_evaluation. Qed.

Lemma filter_all {A} (P : A → Prop) `{!∀ x, Decision (P x)} (l : list A) :
  Forall P l → filter P l = l.
Proof.
  induction 1 as [|x l Hx _ IH]; [done|].
  by rewrite filter_cons_True, IH.
Qed.

(** X1. The permissions of a role come in catalog order, each catalog
    permission at most once; when the role identifier is not the name of
    a member of [Object.prototype], each of them names the role in its
    [roleAccess] with a non-empty level. *)
Theorem getPermissionsForRole_granted_in_order (roleId : string) :
  (apiName <$> getPermissionsForRole roleId) `sublist_of` (apiName <$> permissions)
  ∧ NoDup (apiName <$> getPermissionsForRole roleId)
  ∧ (roleId ∉ Js.objectPrototypeNames →
     Forall (λ p, ∃ level, roleAccess p !! roleId = Some level ∧ level ≠ "")
            (getPermissionsForRole roleId)).
Proof.
  assert (Hsub : (apiName <$> getPermissionsForRole roleId)
                 `sublist_of` (apiName <$> permissions)).
  { rewrite apiName_getPermissionsForRole. apply fmap_sublist, sublist_filter. }
  split; [exact Hsub|]. split.
  - eapply sublist_NoDup; [apply catalog_apiNames_NoDup | exact Hsub].
  - intros Hrole. apply Forall_forall. intros p Hp.
    unfold getPermissionsForRole in Hp.
    apply list_elem_of_fmap in Hp as (q & -> & Hq).
    apply list_elem_of_filter in Hq as [Hgranted _].
    rewrite roleAccess_roleView.
    apply grantedTo_level in Hgranted as [Hlevel|[_ Hin]]; done.
Qed.

(** X2. Every returned permission is a catalog record, or a catalog
    record to which the role has exactly "read" with [operationType] and
    [actions] replaced by "Read-only" and "read"; nothing else differs, and
    a record whose level is not "read" is returned as it is. *)
Theorem getPermissionsForRole_view_of_catalog (roleId : string) (p : Permission) :
  p ∈ getPermissionsForRole roleId →
  ∃ q, q ∈ permissions
       ∧ sameButAccess p q
       ∧ (p = q
          ∨ (roleAccess q !! roleId = Some "read"
             ∧ operationType q ≠ "Read-only"
             ∧ operationType p = "Read-only" ∧ actions p = "read"))
       ∧ (roleAccess q !! roleId ≠ Some "read" → p = q).
Proof.
  unfold getPermissionsForRole. intros Hp.
  apply list_elem_of_fmap in Hp as (q & -> & Hq).
  apply list_elem_of_filter in Hq as [_ Hq].
  exists q. split; [done|]. unfold roleView, needsReadOnlyView.
  destruct (decide (roleAccess q !! roleId = Some "read")) as [Hread|Hother].
  - rewrite (bool_decide_eq_true_2 _ Hread). simpl.
    destruct (String.eqb_spec (operationType q) "Read-only") as [Heq|Hne]; simpl.
    + split; [by repeat split|]. split; [by left | done].
    + split; [by repeat split|]. split; [right; by repeat split | done].
  - rewrite (bool_decide_eq_false_2 _ Hother). simpl.
    split; [by repeat split|]. split; [by left | done].
Qed.

Lemma getPermissionsForRole_view_of_catalog_witness :
  roleView "support" radar_operations ∈ getPermissionsForRole "support"
  ∧ ∃ q, q ∈ permissions
         ∧ sameButAccess (roleView "support" radar_operations) q.
Proof.
  assert (Hin : roleView "support" radar_operations
                ∈ getPermissionsForRole "support").
  { apply list_elem_of_lookup. exists 10. vm_compute. reflexivity. }
  split; [exact Hin|].
  destruct (getPermissionsForRole_view_of_catalog "support" _ Hin)
    as (q & Hq & Hsame & _).
  by exists q.
Defined.

(** X3. A role that no catalog permission names - an unknown id - gets the
    empty list, and the list is empty only then, when the role identifier
    is not the name of a member of [Object.prototype]. *)
Theorem getPermissionsForRole_empty_iff (roleId : string) :
  roleId ∉ Js.objectPrototypeNames →
  (getPermissionsForRole roleId = []
   ↔ Forall (λ p, roleAccess p !! roleId = None
                  ∨ roleAccess p !! roleId = Some "")
            permissions).
Proof.
  intros Hrole. unfold getPermissionsForRole.
  assert (Hfmap : roleView roleId <$> filter (λ p, grantedTo roleId p) permissions
                  = []
                  ↔ filter (λ p, grantedTo roleId p) permissions = []).
  { split; [apply fmap_nil_inv | by intros ->]. }
  rewrite Hfmap. split.
  - intros Hnil. apply Forall_forall. intros p Hp.
    destruct (roleAccess p !! roleId) as [level|] eqn:Hlevel; [|by left].
    destruct (decide (level = "")) as [->|Hne]; [by right|].
    exfalso. assert (Hin : p ∈ filter (λ p, grantedTo roleId p) permissions).
    { apply list_elem_of_filter. split; [|done].
      apply grantedTo_level. left. by exists level. }
    rewrite Hnil in Hin. by apply elem_of_nil in Hin.
  - intros Hall. rewrite Forall_forall in Hall.
    destruct (filter (λ p, grantedTo roleId p) permissions) as [|p l] eqn:Hf;
      [done|].
    assert (Hin : p ∈ filter (λ p, grantedTo roleId p) permissions)
      by (rewrite Hf; apply list_elem_of_here).
    apply list_elem_of_filter in Hin as [Hgranted Hp].
    apply grantedTo_level in Hgranted as [(level & Hlevel & Hne)|[_ Hin]];
      [|done].
    destruct (Hall p Hp) as [Hnone|Hempty]; congruence.
Qed.

Lemma getPermissionsForRole_empty_iff_witness :
  ("no_such_role" ∉ Js.objectPrototypeNames)
  ∧ (getPermissionsForRole "no_such_role" = []
     ↔ Forall (λ p, roleAccess p !! "no_such_role" = None
                    ∨ roleAccess p !! "no_such_role" = Some "")
              permissions).
Proof.
  assert (Hrole : "no_such_role" ∉ Js.objectPrototypeNames) by by_evaluation.
  split; [exact Hrole|]. exact (getPermissionsForRole_empty_iff _ Hrole).
Defined.

(** X4. A role identifier that is the name of a member of
    [Object.prototype] - "constructor", "toString", ... - is granted every
    permission: the lookup in [roleAccess] finds the inherited member, and
    the call returns the whole catalog, unchanged. *)
Theorem getPermissionsForRole_inherited_member (roleId : string) :
  roleId ∈ Js.objectPrototypeNames →
  getPermissionsForRole roleId = permissions.
Proof.
  intros Hrole. pose proof catalog_no_inherited_role as Hnone.
  rewrite Forall_forall in Hnone. specialize (Hnone roleId Hrole).
  unfold getPermissionsForRole. rewrite filter_all.
  - rewrite <- (list_fmap_id permissions) at 2. apply Forall_fmap_ext_1.
    eapply Forall_impl; [exact Hnone|]. intros p Hp. cbv beta in Hp.
    unfold roleView, needsReadOnlyView. by rewrite Hp.
  - eapply Forall_impl; [exact Hnone|]. intros p Hp. cbv beta in Hp.
    apply grantedTo_level. by right.
Qed.

Lemma getPermissionsForRole_inherited_member_witness :
  "constructor" ∈ Js.objectPrototypeNames
  ∧ getPermissionsForRole "constructor" = permissions.
Proof.
  assert (Hrole : "constructor" ∈ Js.objectPrototypeNames) by by_evaluation.
  split; [exact Hrole|]. exact (getPermissionsForRole_inherited_member _ Hrole).
Defined.

(** ** Lookup by api name: round trip and unknown names *)

Lemma getPermissionsByApiNames_filter (apiNames : list string) :
  getPermissionsByApiNames apiNames
  = filter (λ p, apiName p ∈ apiNames) permissions.
Proof.
  unfold getPermissionsByApiNames. apply list_filter_iff.
  intros p. by rewrite elem_of_list_to_set.
Qed.

(** Filtering a list with distinct keys by the keys of one of its
    sublists gives the sublist back. *)
Lemma filter_keys_sublist {A} (key : A → string) (sel l : list A) :
  NoDup (key <$> l) → sel `sublist_of` l →
  filter (λ x, key x ∈ key <$> sel) l = sel.
Proof.
  intros Hnd Hsub. induction Hsub as [|x sel l Hsub IH|x sel l Hsub IH].
  - done.
  - csimpl in Hnd. apply NoDup_cons in Hnd as [Hx Hnd].
    rewrite filter_cons_True by (csimpl; apply list_elem_of_here).
    f_equal. etrans; [|exact (IH Hnd)]. apply filter_ext_in.
    intros y Hy. csimpl. rewrite elem_of_cons.
    split; [|by right]. intros [Heq|Hin]; [|done].
    exfalso. apply Hx. rewrite <- Heq. by apply list_elem_of_fmap_2.
  - csimpl in Hnd. apply NoDup_cons in Hnd as [Hx Hnd].
    rewrite filter_cons_False; [by apply IH|].
    intros Hin. apply Hx.
    apply list_elem_of_fmap in Hin as (y & Heq & Hy). rewrite Heq.
    apply list_elem_of_fmap_2. by eapply elem_of_sublist.
Qed.

(** X5. Round trip: a selection of catalog permissions (a sublist of the
    catalog) is what looking up its api names returns. *)
Theorem getPermissionsByApiNames_round_trip (selected : list Permission) :
  selected `sublist_of` permissions →
  getPermissionsByApiNames (apiName <$> selected) = selected.
Proof.
  intros Hsub. rewrite getPermissionsByApiNames_filter.
  apply filter_keys_sublist; [apply catalog_apiNames_NoDup | done].
Qed.

Lemma getPermissionsByApiNames_round_trip_witness :
  [account_operations; charge] `sublist_of` permissions
  ∧ getPermissionsByApiNames (apiName <$> [account_operations; charge])
    = [account_operations; charge].
Proof.
  assert (Hsub : [account_operations; charge] `sublist_of` permissions).
  { assert (Heq : [account_operations; charge]
                  = filter (λ p, apiName p ∈ ["account_operations"; "charge"])
                           permissions) by (vm_compute; reflexivity).
    rewrite Heq. apply sublist_filter. }
  split; [exact Hsub|].
  exact (getPermissionsByApiNames_round_trip _ Hsub).
Defined.

(** X6. Names that the catalog does not have are dropped without an error:
    the result is that of the known names alone, it has at most as many
    entries as there are names, and it is empty exactly when no name is a
    catalog name. *)
Theorem getPermissionsByApiNames_unknown_names (apiNames : list string) :
  getPermissionsByApiNames apiNames
  = getPermissionsByApiNames
      (filter (λ n, n ∈ apiName <$> permissions) apiNames)
  ∧ length (getPermissionsByApiNames apiNames) ≤ length apiNames
  ∧ (getPermissionsByApiNames apiNames = []
     ↔ Forall (λ n, n ∉ apiName <$> permissions) apiNames).
Proof.
  split; [|split].
  - rewrite !getPermissionsByApiNames_filter. apply filter_ext_in.
    intros p Hp. rewrite list_elem_of_filter.
    split; [|by intros [_ ?]]. intros Hin. split; [|done].
    by apply list_elem_of_fmap_2.
  - rewrite <- (length_fmap apiName).
    apply submseteq_length, NoDup_submseteq.
    + eapply sublist_NoDup; [apply catalog_apiNames_NoDup|].
      apply fmap_sublist. rewrite getPermissionsByApiNames_filter.
      apply sublist_filter.
    + intros n Hn. apply list_elem_of_fmap in Hn as (p & -> & Hp).
      rewrite getPermissionsByApiNames_filter in Hp.
      by apply list_elem_of_filter in Hp as [Hp _].
  - rewrite getPermissionsByApiNames_filter. split.
    + intros Hnil. apply Forall_forall. intros n Hn Hcat.
      apply list_elem_of_fmap in Hcat as (p & -> & Hp).
      assert (Hin : p ∈ filter (λ p, apiName p ∈ apiNames) permissions)
        by (by apply list_elem_of_filter).
      rewrite Hnil in Hin. by apply elem_of_nil in Hin.
    + intros Hall. rewrite Forall_forall in Hall.
      destruct (filter (λ p, apiName p ∈ apiNames) permissions)
        as [|p l] eqn:Hf; [done|].
      assert (Hin : p ∈ filter (λ p, apiName p ∈ apiNames) permissions)
        by (rewrite Hf; apply list_elem_of_here).
      apply list_elem_of_filter in Hin as [Hname Hp].
      exfalso. apply (Hall _ Hname). by apply list_elem_of_fmap_2.
Qed.

(** X7. Looking up the api names of a role's permissions gives the catalog
    records the role is granted, as the catalog has them: the read-only
    views are not recovered from names. *)
Theorem getPermissionsByApiNames_of_role (roleId : string) :
  getPermissionsByApiNames (apiName <$> getPermissionsForRole roleId)
  = filter (λ p, grantedTo roleId p) permissions.
Proof.
  rewrite apiName_getPermissionsForRole, getPermissionsByApiNames_filter.
  apply filter_keys_sublist; [apply catalog_apiNames_NoDup|].
  apply sublist_filter.
Qed.

(** ** Grouping: order inside a bucket, partitions, empty buckets *)

Section GroupingOrder.

Implicit Types (groups : gmap string (list Permission)) (p q : Permission).
Implicit Types (key label groupBy : string).

(** One iteration appends one copy of [p] per occurrence of the label
    among its keys. *)
Lemma bucket_file_one_copies p (keys : list string) groups label :
  bucket (foldl (λ groups key, pushTo key p groups) groups keys) label
  = bucket groups label
    ++ replicate (length (filter (λ key, key = label) keys)) p.
Proof.
  revert groups. induction keys as [|key keys IH]; intros groups.
  - by rewrite app_nil_r.
  - cbn [foldl]. rewrite IH, bucket_pushTo, filter_cons.
    destruct (decide (key = label)) as [->|Hne]; [|done].
    by rewrite <- app_assoc.
Qed.

Lemma bucket_file_all_copies (keysOf : Permission → list string) perms groups
    label :
  bucket (foldl (λ groups p,
                   foldl (λ groups key, pushTo key p groups) groups (keysOf p))
                groups perms) label
  = bucket groups label
    ++ flat_map (λ p, replicate (length (filter (λ key, key = label) (keysOf p))) p)
                perms.
Proof.
  revert groups. induction perms as [|p perms IH]; intros groups.
  - by rewrite app_nil_r.
  - cbn [foldl flat_map]. rewrite IH, bucket_file_one_copies.
    by rewrite <- app_assoc.
Qed.

(** A label occurs once in a duplicate-free list that has it. *)
Lemma occurrences_NoDup (keys : list string) label :
  NoDup keys →
  length (filter (λ key, key = label) keys)
  = if decide (label ∈ keys) then 1 else 0.
Proof.
  induction 1 as [|key keys Hkey Hnd IH]; [done|].
  rewrite filter_cons. destruct (decide (key = label)) as [->|Hne].
  - rewrite decide_True by apply list_elem_of_here. simpl.
    rewrite IH. by rewrite decide_False.
  - rewrite IH. destruct (decide (label ∈ keys)) as [Hin|Hnin].
    + rewrite decide_True; [done|]. by apply list_elem_of_further.
    + rewrite decide_False; [done|].
      intros Hc. apply elem_of_cons in Hc as [->|Hc]; done.
Qed.

Lemma flat_map_filter (keysOf : Permission → list string) perms label :
  Forall (λ p, NoDup (keysOf p)) perms →
  flat_map (λ p, replicate (length (filter (λ key, key = label) (keysOf p))) p)
           perms
  = filter (λ p, label ∈ keysOf p) perms.
Proof.
  induction 1 as [|p perms Hp _ IH]; [done|].
  cbn [flat_map]. rewrite IH, occurrences_NoDup, filter_cons by done.
  by destruct (decide (label ∈ keysOf p)).
Qed.

Lemma bucket_groupPermissions_filter perms groupBy label :
  Forall (λ p, NoDup (groupKeys groupBy p)) perms →
  bucket (groupPermissions perms groupBy) label
  = filter (λ p, label ∈ groupKeys groupBy p) perms.
Proof.
  intros Hnd. unfold groupPermissions. rewrite bucket_file_all_copies.
  unfold bucket at 1. rewrite lookup_empty. simpl.
  by apply flat_map_filter.
Qed.

(** The keys of a permission are duplicate-free in every dimension but
    "taskCategory", where they are what the record lists. *)
Lemma groupKeys_NoDup groupBy p :
  groupBy ≠ "taskCategory" → NoDup (groupKeys groupBy p).
Proof.
  intros Hne. unfold groupKeys.
  destruct (String.eqb_spec groupBy "taskCategory"); [done|].
  repeat case_match; try apply NoDup_singleton.
  unfold getSensitivityGroups.
  destruct (hasPII p), (hasFinancialData p), (hasPaymentCredentials p);
    apply (bool_decide_unpack _); vm_compute; exact I.
Qed.

(** Every bucket of a grouping has an element. *)
Lemma pushTo_nonempty groups key p :
  map_Forall (λ _ b, b ≠ []) groups →
  map_Forall (λ _ b, b ≠ []) (pushTo key p groups).
Proof.
  intros Hall. unfold pushTo. apply map_Forall_insert_2; [|done].
  by destruct (default [] (groups !! key)).
Qed.

Lemma groupPermissions_nonempty_buckets perms groupBy :
  map_Forall (λ _ b, b ≠ []) (groupPermissions perms groupBy).
Proof.
  unfold groupPermissions.
  assert (Hgen : ∀ groups,
             map_Forall (λ _ b, b ≠ []) groups →
             map_Forall (λ _ b, b ≠ [])
               (foldl (λ groups p,
                         foldl (λ groups key, pushTo key p groups) groups
                               (groupKeys groupBy p))
                      groups perms)).
  { induction perms as [|p perms IH]; intros groups Hall; [done|].
    cbn [foldl]. apply IH. generalize (groupKeys groupBy p). intros keys.
    revert groups Hall. induction keys as [|key keys IHk]; intros groups Hall;
      [done|].
    cbn [foldl]. by apply IHk, pushTo_nonempty. }
  apply Hgen, map_Forall_empty.
Qed.

(** What a call returns is the grouping of [groupPermissions]. *)
Lemma groupPermissionsCall_returns perms groupBy groups :
  groupPermissionsCall perms groupBy = Js.Normal groups →
  groups = groupPermissions perms groupBy.
Proof.
  destruct (groupPermissionsCall_outcome perms groupBy) as [-> | ->];
    congruence.
Qed.

End GroupingOrder.

(** X8. Inside a bucket the permissions keep the order of the input: when
    no permission lists a key twice, the bucket of a label in the grouping
    a call returns is the input filtered by that label.  In every
    dimension but "taskCategory" that condition always holds. *)
Theorem groupPermissions_bucket_keeps_order (perms : list Permission)
    (groupBy label : string) (groups : gmap string (list Permission)) :
  groupPermissionsCall perms groupBy = Js.Normal groups →
  (groupBy ≠ "taskCategory" ∨ Forall (λ p, NoDup (taskCategories p)) perms) →
  bucket groups label = filter (λ p, label ∈ groupKeys groupBy p) perms.
Proof.
  intros Hcall Hkeys. apply groupPermissionsCall_returns in Hcall as ->.
  apply bucket_groupPermissions_filter.
  destruct (decide (groupBy = "taskCategory")) as [->|Hne].
  - destruct Hkeys as [Hc|Hnd]; [done|]. exact Hnd.
  - apply Forall_forall. intros p _. by apply groupKeys_NoDup.
Qed.

Lemma groupPermissions_bucket_keeps_order_witness :
  groupPermissionsCall permissions "riskLevel"
  = Js.Normal (groupPermissions permissions "riskLevel")
  ∧ ("riskLevel" ≠ "taskCategory"
     ∨ Forall (λ p, NoDup (taskCategories p)) permissions)
  ∧ bucket (groupPermissions permissions "riskLevel") "Critical"
    = filter (λ p, "Critical" ∈ groupKeys "riskLevel" p) permissions.
Proof.
  assert (Hcall : groupPermissionsCall permissions "riskLevel"
                  = Js.Normal (groupPermissions permissions "riskLevel"))
    by apply (groupPermissionsCall_catalog ByRiskLevel).
  assert (H : "riskLevel" ≠ "taskCategory"
              ∨ Forall (λ p, NoDup (taskCategories p)) permissions)
    by (left; discriminate).
  split; [exact Hcall|]. split; [exact H|].
  exact (groupPermissions_bucket_keeps_order
           permissions "riskLevel" "Critical" _ Hcall H).
Defined.

(** X9. Grouping by a single-valued dimension - product category,
    operation type, risk level - is a partition: in the grouping a call
    returns, each permission of the input is in the bucket of its field
    value and in no other, a bucket is the input filtered by the value,
    and the bucket lengths add up to the length of the input.  The call
    returns exactly when no field value names a member of
    [Object.prototype]. *)
Theorem groupPermissions_single_valued_partition (perms : list Permission)
    (o : GroupByOption) (field : Permission → string) :
  singleValuedField o = Some field →
  ((∃ groups, groupPermissionsCall perms (groupByName o) = Js.Normal groups)
   ↔ Forall (λ p, field p ∉ Js.objectPrototypeNames) perms)
  ∧ ∀ groups,
      groupPermissionsCall perms (groupByName o) = Js.Normal groups →
      (∀ p label, p ∈ bucket groups label ↔ p ∈ perms ∧ label = field p)
      ∧ (∀ label, bucket groups label = filter (λ p, field p = label) perms)
      ∧ totalBucketLength groups = length perms.
Proof.
  intros Hdim.
  assert (Hkeys : ∀ p, groupKeys (groupByName o) p = [field p]).
  { intros p. rewrite groupKeys_GroupByOption.
    destruct o; simpl in Hdim; by inversion Hdim. }
  split.
  - split.
    + intros [groups Hcall].
      destruct (decide (Forall (λ p, field p ∉ Js.objectPrototypeNames) perms))
        as [Hok|Hbad]; [done|].
      exfalso. apply not_Forall_Exists in Hbad; [|apply _].
      rewrite groupPermissionsCall_throw in Hcall; [done|].
      eapply Exists_impl; [exact Hbad|]. intros p Hp. cbv beta in Hp.
      rewrite Hkeys. apply Exists_cons_hd.
      by destruct (decide (field p ∈ Js.objectPrototypeNames)).
    + intros Hok. exists (groupPermissions perms (groupByName o)).
      apply groupPermissionsCall_normal.
      * apply Forall_forall. intros p _. apply groupKeysCall_GroupByOption.
      * eapply Forall_impl; [exact Hok|]. intros p Hp. cbv beta in Hp.
        rewrite Hkeys. by apply Forall_singleton.
  - intros groups Hcall. apply groupPermissionsCall_returns in Hcall as ->.
    split; [|split].
    + intros p label.
      rewrite elem_of_bucket, Hkeys, list_elem_of_singleton. done.
    + intros label. rewrite bucket_groupPermissions_filter.
      * apply list_filter_iff. intros p.
        rewrite Hkeys, list_elem_of_singleton. done.
      * apply Forall_forall. intros p _. rewrite Hkeys. apply NoDup_singleton.
    + rewrite totalBucketLength_groupPermissions.
      induction perms as [|p perms IH]; [done|].
      csimpl. rewrite Hkeys, IH. done.
Qed.

Lemma groupPermissions_single_valued_partition_witness :
  singleValuedField ByRiskLevel = Some riskLevel
  ∧ groupPermissionsCall permissions (groupByName ByRiskLevel)
    = Js.Normal (groupPermissions permissions (groupByName ByRiskLevel))
  ∧ totalBucketLength (groupPermissions permissions (groupByName ByRiskLevel))
    = length permissions.
Proof.
  assert (Hcall : groupPermissionsCall permissions (groupByName ByRiskLevel)
                  = Js.Normal
                      (groupPermissions permissions (groupByName ByRiskLevel)))
    by apply groupPermissionsCall_catalog.
  split; [reflexivity|]. split; [exact Hcall|].
  exact (proj2 (proj2 (proj2 (groupPermissions_single_valued_partition
                                permissions ByRiskLevel riskLevel eq_refl)
                         _ Hcall))).
Defined.

(** X10. The grouping a call returns has no empty bucket: a label is a key
    of the result exactly when some permission of the input has it, and
    the empty input gives the empty grouping. *)
Theorem groupPermissions_no_empty_bucket (perms : list Permission)
    (groupBy label : string) (groups : gmap string (list Permission)) :
  groupPermissionsCall perms groupBy = Js.Normal groups →
  (groups !! label = None ↔ ∀ p, p ∈ perms → label ∉ groupKeys groupBy p)
  ∧ (∀ b, groups !! label = Some b → b ≠ [])
  ∧ groupPermissionsCall [] groupBy = Js.Normal ∅.
Proof.
  intros Hcall. apply groupPermissionsCall_returns in Hcall as ->.
  pose proof (groupPermissions_nonempty_buckets perms groupBy) as Hall.
  split; [|split; [|done]].
  - split.
    + intros Hnone p Hp Hkey.
      assert (Hin : p ∈ bucket (groupPermissions perms groupBy) label)
        by (by apply elem_of_bucket).
      unfold bucket in Hin. rewrite Hnone in Hin. by apply elem_of_nil in Hin.
    + intros Hno.
      destruct (groupPermissions perms groupBy !! label) as [b|] eqn:Hb; [|done].
      exfalso. destruct b as [|p b]; [by apply (Hall label [] Hb)|].
      assert (Hin : p ∈ bucket (groupPermissions perms groupBy) label).
      { unfold bucket. rewrite Hb. apply list_elem_of_here. }
      apply elem_of_bucket in Hin as [Hp Hkey]. by apply (Hno p Hp).
  - intros b Hb. by apply (Hall label b Hb).
Qed.

Lemma groupPermissions_no_empty_bucket_witness :
  groupPermissionsCall permissions "operationType"
  = Js.Normal (groupPermissions permissions "operationType")
  ∧ (groupPermissions permissions "operationType" !! "Delete" = None
     ↔ ∀ p, p ∈ permissions → "Delete" ∉ groupKeys "operationType" p).
Proof.
  assert (Hcall : groupPermissionsCall permissions "operationType"
                  = Js.Normal (groupPermissions permissions "operationType"))
    by apply (groupPermissionsCall_catalog ByOperationType).
  split; [exact Hcall|].
  exact (proj1 (groupPermissions_no_empty_bucket
                  permissions "operationType" "Delete" _ Hcall)).
Defined.

(** X11. Grouping by "taskCategory" files a permission once for each task
    category it lists: in the grouping a call returns, the bucket lengths
    add up to the number of listed task categories, and a permission that
    lists none is in no bucket. *)
Theorem groupPermissions_taskCategory (perms : list Permission)
    (groups : gmap string (list Permission)) :
  groupPermissionsCall perms "taskCategory" = Js.Normal groups →
  totalBucketLength groups = sum_list ((λ p, length (taskCategories p)) <$> perms)
  ∧ (∀ p label, p ∈ bucket groups label ↔ p ∈ perms ∧ label ∈ taskCategories p)
  ∧ (∀ p, taskCategories p = [] → ∀ label, p ∉ bucket groups label).
Proof.
  intros Hcall. apply groupPermissionsCall_returns in Hcall as ->.
  split; [|split].
  - by rewrite totalBucketLength_groupPermissions.
  - intros p label. by rewrite elem_of_bucket.
  - intros p Hnone label Hin. apply elem_of_bucket in Hin as [_ Hkey].
    change (groupKeys "taskCategory" p) with (taskCategories p) in Hkey.
    rewrite Hnone in Hkey. by apply elem_of_nil in Hkey.
Qed.

Lemma groupPermissions_taskCategory_witness :
  groupPermissionsCall [uncategorized; charge] "taskCategory"
  = Js.Normal (groupPermissions [uncategorized; charge] "taskCategory")
  ∧ taskCategories uncategorized = []
  ∧ uncategorized
    ∉ bucket (groupPermissions [uncategorized; charge] "taskCategory")
             "Export & analyze data".
Proof.
  assert (Hcall : groupPermissionsCall [uncategorized; charge] "taskCategory"
                  = Js.Normal
                      (groupPermissions [uncategorized; charge] "taskCategory")).
  { apply groupPermissionsCall_normal; [by repeat constructor|by_evaluation]. }
  split; [exact Hcall|]. split; [reflexivity|].
  exact (proj2 (proj2 (groupPermissions_taskCategory
                         [uncategorized; charge] _ Hcall))
           uncategorized eq_refl "Export & analyze data").
Defined.

(** ** The "cannot do" list in closed form *)

(** A loop that appends [f x] for the [x] that pass a test, while the list
    is shorter than five, computes the first five of all that pass. *)
Lemma capped_loop {A} (test : A → bool) (f : A → string) (l : list A)
    (start : list string) :
  length start ≤ 5 →
  foldl (λ acc x, if test x && (length acc <? 5)%nat then acc ++ [f x] else acc)
        start l
  = take 5 (start ++ (f <$> filter (λ x, test x) l)).
Proof.
  revert start. induction l as [|x l IH]; intros start Hlen.
  - cbn [foldl]. rewrite filter_nil, fmap_nil, app_nil_r. by rewrite take_ge.
  - cbn [foldl]. rewrite filter_cons.
    destruct (test x) eqn:Htest; simpl.
    + destruct (length start <? 5)%nat eqn:Hlt.
      * apply Nat.ltb_lt in Hlt. rewrite IH by (rewrite length_app; simpl; lia).
        by rewrite <- app_assoc.
      * apply Nat.ltb_ge in Hlt. rewrite IH by done.
        rewrite !take_app_le by lia. done.
    + by rewrite IH.
Qed.

Lemma negb_bool_decide_gset (x : string) (l : list string) :
  negb (bool_decide (x ∈ (list_to_set l : gset string))) ↔ x ∉ l.
Proof.
  rewrite <- (elem_of_list_to_set (C := gset string)).
  destruct (decide (x ∈ (list_to_set l : gset string))).
  - rewrite bool_decide_eq_true_2 by done. simpl. split; [intros [] | done].
  - rewrite bool_decide_eq_false_2 by done. simpl. done.
Qed.

Lemma elem_of_setOf (x : string) (l : list string) : x ∈ Js.setOf l ↔ x ∈ l.
Proof.
  unfold Js.setOf.
  assert (Hgen : ∀ acc, x ∈ foldl (λ s y, Js.add y s) acc l ↔ x ∈ acc ∨ x ∈ l).
  { induction l as [|y l IH]; intros acc; cbn [foldl].
    - rewrite elem_of_nil. split; [by left | by intros [?|[]]].
    - rewrite IH, elem_of_cons. unfold Js.add. case_bool_decide as Hy.
      + split; [intros [?|?]; [by left | right; by right]|].
        intros [?|[->|?]]; [by left | by left | by right].
      + rewrite elem_of_app, list_elem_of_singleton.
        split; [intros [[?|?]|?]; [by left | right; by left | right; by right]|].
        intros [?|[?|?]]; [left; by left | left; by right | by right]. }
  rewrite Hgen, elem_of_nil. split; [by intros [[]|?] | by right].
Qed.

Lemma noteMissingPermission_loop (selectedPermissions : list Permission) :
  foldl (noteMissingPermission (list_to_set (apiName <$> selectedPermissions)))
        [] notablePermissions
  = take 5 (missingNotable selectedPermissions).
Proof.
  unfold missingNotable, noteMissingPermission.
  rewrite (capped_loop
             (λ entry : string * string,
                negb (bool_decide
                        (entry.1 ∈ (list_to_set (apiName <$> selectedPermissions)
                                    : gset string))))
             snd notablePermissions []) by (cbn [length]; lia).
  rewrite app_nil_l. do 2 f_equal. apply list_filter_iff. intros entry.
  apply negb_bool_decide_gset.
Qed.

Lemma noteMissingCategory_loop (selectedPermissions : list Permission)
    (start : list string) :
  length start ≤ 5 →
  foldl (noteMissingCategory (list_to_set (productCategory <$> selectedPermissions)))
        start (Js.setOf (productCategory <$> getAllPermissions))
  = take 5 (start ++ missingCategories selectedPermissions).
Proof.
  intros Hlen. unfold missingCategories, noteMissingCategory, getAllPermissions.
  rewrite (capped_loop
             (λ cat : string,
                negb (bool_decide
                        (cat ∈ (list_to_set (productCategory <$> selectedPermissions)
                                : gset string))))
             (λ cat, "Access " +:+ cat +:+ " features") _ start) by done.
  do 3 f_equal. apply list_filter_iff. intros cat.
  apply negb_bool_decide_gset.
Qed.

Lemma generateCannotDo_take (selectedPermissions : list Permission) :
  generateCannotDo selectedPermissions
  = take 5 (missingNotable selectedPermissions
            ++ readOnlyNote selectedPermissions
            ++ missingCategories selectedPermissions).
Proof.
  unfold generateCannotDo. cbv zeta. rewrite noteMissingPermission_loop.
  set (A := missingNotable selectedPermissions).
  set (C := missingCategories selectedPermissions).
  assert (HB : (if negb (existsb (λ p, Js.includes (Js.toLowerCase (actions p)) "write")
                                 selectedPermissions)
                then take 5 A ++ ["Make any changes (read-only access)"]
                else take 5 A)
               = take 5 A ++ readOnlyNote selectedPermissions).
  { unfold readOnlyNote.
    destruct (existsb (λ p, Js.includes (Js.toLowerCase (actions p)) "write")
                      selectedPermissions); cbn [negb];
      [by rewrite app_nil_r | done]. }
  rewrite HB. set (B := readOnlyNote selectedPermissions).
  assert (HlenB : length B ≤ 1).
  { unfold B, readOnlyNote.
    destruct (existsb (λ p, Js.includes (Js.toLowerCase (actions p)) "write")
                      selectedPermissions); cbn [length]; lia. }
  destruct (decide (5 ≤ length A)) as [Hfull|Hshort].
  - assert (Hlen : length (take 5 A) = 5) by (rewrite length_take; lia).
    rewrite Hlen. change (5 <? 5)%nat with false. cbv iota.
    rewrite Hlen. change (5 <? 5)%nat with false. cbv iota.
    rewrite take_idemp. by rewrite take_app_le by lia.
  - assert (HA : take 5 A = A) by (apply take_ge; lia).
    rewrite HA. replace (length A <? 5)%nat with true
      by (symmetry; apply Nat.ltb_lt; lia).
    destruct (length (A ++ B) <? 5)%nat eqn:Hlt.
    + apply Nat.ltb_lt in Hlt.
      rewrite noteMissingCategory_loop by lia.
      by rewrite take_idemp, <- app_assoc.
    + apply Nat.ltb_ge in Hlt. rewrite app_assoc.
      by rewrite (take_app_le (A ++ B)) by lia.
Qed.

(** X12. The "cannot do" list is the first five items of: the descriptions
    of the notable permissions that the set lacks, in table order; then
    the note on read-only access when no permission can write; then
    "Access C features" for each product category C of the catalog that
    the set lacks, in catalog order. *)
Theorem generateCannotDo_closed_form (selectedPermissions : list Permission) :
  generateCannotDo selectedPermissions
  = take 5 (missingNotable selectedPermissions
            ++ readOnlyNote selectedPermissions
            ++ missingCategories selectedPermissions).
Proof. apply generateCannotDo_take. Qed.

(** X13. The list names only what the set lacks: an item is the
    description of a notable permission that is not in the set, or the
    read-only note with no write-capable permission in the set, or names a
    catalog product category that no permission of the set has. *)
Theorem generateCannotDo_only_missing (selectedPermissions : list Permission)
    (item : string) :
  item ∈ generateCannotDo selectedPermissions →
  (∃ api, (api, item) ∈ notablePermissions
          ∧ api ∉ apiName <$> selectedPermissions)
  ∨ (item = "Make any changes (read-only access)"
     ∧ Forall (λ p, Js.includes (Js.toLowerCase (actions p)) "write" = false)
              selectedPermissions)
  ∨ (∃ cat, item = "Access " +:+ cat +:+ " features"
            ∧ cat ∈ productCategory <$> permissions
            ∧ cat ∉ productCategory <$> selectedPermissions).
Proof.
  rewrite generateCannotDo_take. intros Hin.
  apply elem_of_take in Hin as (i & Hi & _).
  apply list_elem_of_lookup_2 in Hi.
  apply elem_of_app in Hi as [HA|Hi]; [|apply elem_of_app in Hi as [HB|HC]].
  - left. unfold missingNotable in HA.
    apply list_elem_of_fmap in HA as ([api desc] & -> & Hentry).
    apply list_elem_of_filter in Hentry as [Hmissing Hentry].
    by exists api.
  - right; left. unfold readOnlyNote in HB.
    destruct (existsb _ selectedPermissions) eqn:Hex;
      [by apply elem_of_nil in HB|].
    apply list_elem_of_singleton in HB. split; [done|].
    apply Forall_forall. intros p Hp.
    destruct (Js.includes (Js.toLowerCase (actions p)) "write") eqn:Hw; [|done].
    assert (Htrue : existsb (λ p, Js.includes (Js.toLowerCase (actions p)) "write")
                            selectedPermissions = true).
    { apply existsb_exists. exists p. split; [by apply list_elem_of_In|done]. }
    congruence.
  - right; right. unfold missingCategories in HC.
    apply list_elem_of_fmap in HC as (cat & -> & Hcat).
    apply list_elem_of_filter in Hcat as [Hmissing Hcat].
    exists cat. split; [done|]. split; [|done].
    by apply elem_of_setOf.
Qed.

Lemma generateCannotDo_only_missing_witness :
  "View or manage API keys and secrets" ∈ generateCannotDo [team_management]
  ∧ ((∃ api, (api, "View or manage API keys and secrets") ∈ notablePermissions
             ∧ api ∉ apiName <$> [team_management])
     ∨ ("View or manage API keys and secrets"
        = "Make any changes (read-only access)"
        ∧ Forall (λ p, Js.includes (Js.toLowerCase (actions p)) "write" = false)
                 [team_management])
     ∨ (∃ cat, "View or manage API keys and secrets"
               = "Access " +:+ cat +:+ " features"
               ∧ cat ∈ productCategory <$> permissions
               ∧ cat ∉ productCategory <$> [team_management])).
Proof.
  assert (Hin : "View or manage API keys and secrets"
                ∈ generateCannotDo [team_management]) by by_evaluation.
  split; [exact Hin|].
  exact (generateCannotDo_only_missing [team_management] _ Hin).
Defined.

(** ** Risk assessment: bounds, warnings, order of the factors *)

Section Severity.

Implicit Types (f g : RiskFactor) (fs : list RiskFactor).

(** The insertion passes the factors that compare below [f]. *)
Lemma insertFactor_skip f (before rest : list RiskFactor) :
  Forall (λ g, (0 < riskOrder (level f) - riskOrder (level g))%Z) before →
  insertFactor f (before ++ rest) = before ++ insertFactor f rest.
Proof.
  induction 1 as [|g before Hg _ IH]; [done|].
  cbn [app insertFactor]. rewrite IH.
  by replace (riskOrder (level f) - riskOrder (level g) <=? 0)%Z with false
    by (symmetry; apply Z.leb_gt; lia).
Qed.

(** It stops in front of a list none of whose factors compares below
    [f]. *)
Lemma insertFactor_front f (rest : list RiskFactor) :
  Forall (λ g, (riskOrder (level f) - riskOrder (level g) ≤ 0)%Z) rest →
  insertFactor f rest = f :: rest.
Proof.
  destruct 1 as [|g rest Hg _]; [done|].
  cbn [insertFactor].
  by replace (riskOrder (level f) - riskOrder (level g) <=? 0)%Z with true
    by (symmetry; apply Z.leb_le; lia).
Qed.

Lemma Forall_factorsOfLevel (P : RiskFactor → Prop) l fs :
  (∀ f, level f = l → P f) → Forall P (factorsOfLevel l fs).
Proof.
  intros HP. apply Forall_forall. intros f Hf.
  apply list_elem_of_filter in Hf as [Hl _]. by apply HP.
Qed.

Lemma Forall_factorsOfLevel_all (P : RiskFactor → Prop) l fs :
  Forall P fs → Forall P (factorsOfLevel l fs).
Proof.
  rewrite !Forall_forall. intros HP f Hf.
  apply list_elem_of_filter in Hf as [_ Hf]. by apply HP.
Qed.

(** The sort by severity lists the High factors, then the Medium ones,
    then the Low ones, each group in the order it had. *)
Lemma sortBySeverity_levels fs :
  sortBySeverity fs
  = factorsOfLevel High fs ++ factorsOfLevel Medium fs ++ factorsOfLevel Low fs.
Proof.
  induction fs as [|f fs IH]; [done|].
  unfold sortBySeverity in *. cbn [foldr]. rewrite IH.
  unfold factorsOfLevel at 4 5 6. rewrite !filter_cons.
  fold (factorsOfLevel High fs) (factorsOfLevel Medium fs)
       (factorsOfLevel Low fs).
  destruct (level f) eqn:Hlevel.
  - (* Low *)
    rewrite decide_False, decide_False, decide_True by done.
    rewrite insertFactor_skip
      by (apply Forall_factorsOfLevel; intros g ->; rewrite Hlevel; simpl; lia).
    rewrite insertFactor_skip
      by (apply Forall_factorsOfLevel; intros g ->; rewrite Hlevel; simpl; lia).
    rewrite insertFactor_front
      by (apply Forall_factorsOfLevel; intros g ->; rewrite Hlevel; simpl; lia).
    done.
  - (* Medium *)
    rewrite decide_False, decide_True, decide_False by done.
    rewrite insertFactor_skip
      by (apply Forall_factorsOfLevel; intros g ->; rewrite Hlevel; simpl; lia).
    rewrite insertFactor_front; [done|].
    apply Forall_app. split;
      apply Forall_factorsOfLevel; intros g ->; rewrite Hlevel; simpl; lia.
  - (* High *)
    rewrite decide_True, decide_False, decide_False by done.
    rewrite insertFactor_front; [done|].
    apply Forall_forall. intros g _. rewrite Hlevel.
    destruct (level g); simpl; lia.
Qed.

End Severity.

Section Steps.

Variable selectedPermissions : list Permission.
Implicit Types t : Tally.

(** *** The warnings, step by step *)

Lemma tallyWarnings_riskLevelAnalysis t :
  tallyWarnings (riskLevelAnalysis selectedPermissions t) = tallyWarnings t.
Proof. unfold riskLevelAnalysis. by repeat case_match. Qed.

Lemma tallyWarnings_sensitivityAnalysis t :
  tallyWarnings (sensitivityAnalysis selectedPermissions t)
  = tallyWarnings t ++ credentialsWarning selectedPermissions
    ++ piiWarning selectedPermissions.
Proof.
  unfold sensitivityAnalysis, credentialsWarning, piiWarning.
  destruct (0 <? credentialsCount selectedPermissions)%nat,
    (isReadOnlyRole selectedPermissions),
    (0 <? financialCount selectedPermissions)%nat,
    (0 <? piiCount selectedPermissions)%nat eqn:Hpii,
    (3 <? piiCount selectedPermissions)%nat eqn:Hbroad;
    cbn [negb andb tallyWarnings pushWarning pushFactor addScore setScore app];
    rewrite ?app_nil_r, <- ?app_assoc; try done.
  all: apply Nat.ltb_ge in Hpii; apply Nat.ltb_lt in Hbroad; lia.
Qed.

Lemma tallyWarnings_operationTypeAnalysis t :
  tallyWarnings (operationTypeAnalysis selectedPermissions t) = tallyWarnings t.
Proof. unfold operationTypeAnalysis. by repeat case_match. Qed.

Lemma tallyWarnings_standardOperationsNote t :
  tallyWarnings (standardOperationsNote selectedPermissions t) = tallyWarnings t.
Proof. unfold standardOperationsNote. by case_match. Qed.

Lemma existsb_apiName (api : string) :
  existsb (λ p, String.eqb (apiName p) api) selectedPermissions = true
  ↔ api ∈ apiName <$> selectedPermissions.
Proof.
  rewrite existsb_exists, list_elem_of_fmap. split.
  - intros (p & Hp & Heq). apply String.eqb_eq in Heq.
    exists p. split; [done|]. by apply list_elem_of_In.
  - intros (p & -> & Hp). exists p. split; [by apply list_elem_of_In|].
    apply String.eqb_refl.
Qed.

Lemma tallyWarnings_highRiskCheck t :
  tallyWarnings (highRiskCheck selectedPermissions t)
  = tallyWarnings t ++ highRiskWarnings selectedPermissions.
Proof.
  unfold highRiskCheck, highRiskWarnings. generalize HIGH_RISK_PERMISSIONS.
  unfold Js.Entries. intros entries. revert t.
  induction entries as [|entry entries IH]; intros t.
  - by rewrite app_nil_r.
  - cbn [foldl]. rewrite IH, filter_cons.
    destruct (existsb (λ p, String.eqb (apiName p) entry.1) selectedPermissions)
      eqn:Hex.
    + apply existsb_apiName in Hex. rewrite decide_True by done.
      cbn [tallyWarnings pushWarning]. by rewrite <- app_assoc.
    + rewrite decide_False; [done|]. intros Hin.
      apply existsb_apiName in Hin. congruence.
Qed.

Lemma tallyWarnings_breadthOfAccess t :
  tallyWarnings (breadthOfAccess selectedPermissions t) = tallyWarnings t.
Proof. unfold breadthOfAccess. by case_match. Qed.

Lemma tallyWarnings_recommend t :
  tallyWarnings (recommend selectedPermissions t) = tallyWarnings t.
Proof. unfold recommend. by repeat case_match. Qed.

Lemma tallyWarnings_finalTally :
  tallyWarnings (finalTally selectedPermissions)
  = credentialsWarning selectedPermissions ++ piiWarning selectedPermissions
    ++ highRiskWarnings selectedPermissions.
Proof.
  unfold finalTally.
  rewrite tallyWarnings_recommend, tallyWarnings_breadthOfAccess,
    tallyWarnings_highRiskCheck, tallyWarnings_standardOperationsNote,
    tallyWarnings_operationTypeAnalysis, tallyWarnings_sensitivityAnalysis,
    tallyWarnings_riskLevelAnalysis.
  cbn [tallyWarnings emptyTally app]. by rewrite <- app_assoc.
Qed.

(** *** The score is not negative *)

Lemma round_nonneg (n d : Z) : (0 ≤ n)%Z → (0 < d)%Z → (0 ≤ Js.round n d)%Z.
Proof. intros Hn Hd. unfold Js.round. apply Z.div_pos; lia. Qed.

Lemma sensitivityPoints_nonneg (weighted : Z) :
  (0 ≤ weighted)%Z → (0 ≤ sensitivityPoints selectedPermissions weighted)%Z.
Proof.
  intros Hw. unfold sensitivityPoints, sensitivityMultiplier.
  destruct (isReadOnlyRole selectedPermissions); cbn [fst snd];
    apply round_nonneg; lia.
Qed.

Lemma totalScore_riskLevelAnalysis_nonneg t :
  (0 ≤ totalScore t)%Z →
  (0 ≤ totalScore (riskLevelAnalysis selectedPermissions t))%Z.
Proof.
  intros Ht. unfold riskLevelAnalysis.
  repeat case_match; cbn [totalScore addScore setScore pushFactor]; lia.
Qed.

Lemma totalScore_sensitivityAnalysis_nonneg t :
  (0 ≤ totalScore t)%Z →
  (0 ≤ totalScore (sensitivityAnalysis selectedPermissions t))%Z.
Proof.
  intros Ht. unfold sensitivityAnalysis.
  pose proof (sensitivityPoints_nonneg
                (Z.of_nat (credentialsCount selectedPermissions) * 20)
                ltac:(lia)) as Hc.
  pose proof (sensitivityPoints_nonneg
                (Z.of_nat (financialCount selectedPermissions) * 10)
                ltac:(lia)) as Hf.
  pose proof (sensitivityPoints_nonneg
                (Z.of_nat (piiCount selectedPermissions) * 8)
                ltac:(lia)) as Hp.
  repeat case_match;
    cbn [totalScore addScore setScore pushFactor pushWarning]; lia.
Qed.

Lemma totalScore_operationTypeAnalysis_nonneg t :
  (0 ≤ totalScore t)%Z →
  (0 ≤ totalScore (operationTypeAnalysis selectedPermissions t))%Z.
Proof.
  intros Ht. unfold operationTypeAnalysis.
  repeat case_match; cbn [totalScore addScore setScore pushFactor];
    [apply round_nonneg; lia|lia|lia].
Qed.

Lemma totalScore_finalTally_nonneg :
  (0 ≤ totalScore (finalTally selectedPermissions))%Z.
Proof.
  rewrite totalScore_finalTally.
  pose proof (totalScore_operationTypeAnalysis_nonneg _
                (totalScore_sensitivityAnalysis_nonneg _
                   (totalScore_riskLevelAnalysis_nonneg emptyTally
                      ltac:(done)))) as Hsteps.
  unfold breadthBonus. case_match; lia.
Qed.

End Steps.

(** X14. For every permission list the score is between 0 and 100, there
    are at most five warnings and at most three recommendations, and the
    empty list has the score 0 and the classification "Low". *)
Theorem generateRiskAssessment_bounds (selectedPermissions : list Permission) :
  (0 ≤ score (generateRiskAssessment selectedPermissions) ≤ 100)%Z
  ∧ length (warnings (generateRiskAssessment selectedPermissions)) ≤ 5
  ∧ length (recommendations (generateRiskAssessment selectedPermissions)) ≤ 3
  ∧ score (generateRiskAssessment []) = 0%Z
  ∧ overallRisk (generateRiskAssessment []) = Low.
Proof.
  unfold generateRiskAssessment.
  destruct (length selectedPermissions =? 0)%nat.
  - cbn. repeat split; lia.
  - cbv zeta. cbn [score warnings recommendations].
    pose proof (totalScore_finalTally_nonneg selectedPermissions).
    rewrite !length_take. repeat split; lia.
Qed.

(** X15. The warnings are the first five of: the warning on payment
    credentials and the warning on broad PII access, which only a set
    that is not read-only gets; then the warnings of the high-risk table
    for the permissions that the set has, in table order. *)
Theorem generateRiskAssessment_warnings (selectedPermissions : list Permission) :
  warnings (generateRiskAssessment selectedPermissions)
  = take 5 (credentialsWarning selectedPermissions
            ++ piiWarning selectedPermissions
            ++ highRiskWarnings selectedPermissions).
Proof.
  unfold generateRiskAssessment.
  destruct selectedPermissions as [|p l] eqn:Hsel; [done|].
  rewrite <- Hsel. replace (length selectedPermissions =? 0)%nat with false
    by (by rewrite Hsel).
  cbv zeta. cbn [warnings]. by rewrite tallyWarnings_finalTally.
Qed.

(** X16. The factors of a non-empty set are those that the six steps
    push, sorted by severity: the High ones, then the Medium ones, then
    the Low ones, each group in the order of the steps. *)
Theorem generateRiskAssessment_factors_by_severity
    (selectedPermissions : list Permission) :
  selectedPermissions ≠ [] →
  factors (generateRiskAssessment selectedPermissions)
  = factorsOfLevel High (tallyFactors (finalTally selectedPermissions))
    ++ factorsOfLevel Medium (tallyFactors (finalTally selectedPermissions))
    ++ factorsOfLevel Low (tallyFactors (finalTally selectedPermissions)).
Proof.
  intros Hne. unfold generateRiskAssessment.
  destruct selectedPermissions as [|p l] eqn:Hsel; [done|].
  rewrite <- Hsel. replace (length selectedPermissions =? 0)%nat with false
    by (by rewrite Hsel).
  cbv zeta. cbn [factors]. apply sortBySeverity_levels.
Qed.

Lemma generateRiskAssessment_factors_by_severity_witness :
  [charge; payout_operations] ≠ []
  ∧ factors (generateRiskAssessment [charge; payout_operations])
    = factorsOfLevel High (tallyFactors (finalTally [charge; payout_operations]))
      ++ factorsOfLevel Medium
           (tallyFactors (finalTally [charge; payout_operations]))
      ++ factorsOfLevel Low
           (tallyFactors (finalTally [charge; payout_operations])).
Proof.
  split; [discriminate|].
  exact (generateRiskAssessment_factors_by_severity
           [charge; payout_operations] ltac:(discriminate)).
Defined.

(** *** Sets of read-only permissions *)

Section ReadOnly.

Variable selectedPermissions : list Permission.
Hypothesis all_read_only :
  Forall (λ p, operationType p = "Read-only") selectedPermissions.
Implicit Types t : Tally.

Lemma readOnly_writePermissions : writePermissions selectedPermissions = [].
Proof.
  unfold writePermissions. pose proof all_read_only as Hall.
  clear all_read_only. induction Hall as [|p l Hp _ IH]; [done|].
  rewrite filter_cons_False; [exact IH|].
  unfold isWrite. rewrite Hp. cbn. by intros [].
Qed.

Lemma readOnly_criticalCount : criticalCount selectedPermissions = 0.
Proof. unfold criticalCount. by rewrite readOnly_writePermissions. Qed.

Lemma readOnly_elevatedCount : elevatedCount selectedPermissions = 0.
Proof. unfold elevatedCount. by rewrite readOnly_writePermissions. Qed.

Lemma readOnly_riskLevelAnalysis t :
  riskLevelAnalysis selectedPermissions t = t.
Proof.
  unfold riskLevelAnalysis.
  by rewrite readOnly_criticalCount, readOnly_elevatedCount.
Qed.

Lemma readOnly_credentialsWarning : credentialsWarning selectedPermissions = [].
Proof.
  unfold credentialsWarning.
  rewrite (isReadOnlyRole_Forall _ all_read_only). cbn [negb].
  by rewrite andb_false_r.
Qed.

Lemma readOnly_piiWarning : piiWarning selectedPermissions = [].
Proof.
  unfold piiWarning.
  rewrite (isReadOnlyRole_Forall _ all_read_only). cbn [negb].
  by rewrite andb_false_r.
Qed.

Lemma readOnly_tallyFactors_not_High t :
  Forall (λ f, level f ≠ High) (tallyFactors t) →
  Forall (λ f, level f ≠ High)
         (tallyFactors
            (recommend selectedPermissions
               (breadthOfAccess selectedPermissions
                  (highRiskCheck selectedPermissions
                     (standardOperationsNote selectedPermissions
                        (operationTypeAnalysis selectedPermissions
                           (sensitivityAnalysis selectedPermissions t))))))).
Proof.
  intros Ht.
  assert (Hrec : ∀ t, tallyFactors (recommend selectedPermissions t)
                      = tallyFactors t)
    by (intros ?; unfold recommend; by repeat case_match).
  assert (Hhigh : ∀ t, tallyFactors (highRiskCheck selectedPermissions t)
                       = tallyFactors t).
  { intros t'. unfold highRiskCheck. generalize HIGH_RISK_PERMISSIONS.
    intros entries. revert t'.
    induction entries as [|entry entries IH]; intros t'; [done|].
    cbn [foldl]. rewrite IH. by case_match. }
  rewrite Hrec. unfold breadthOfAccess.
  assert (Hrest : Forall (λ f, level f ≠ High)
            (tallyFactors
               (highRiskCheck selectedPermissions
                  (standardOperationsNote selectedPermissions
                     (operationTypeAnalysis selectedPermissions
                        (sensitivityAnalysis selectedPermissions t)))))).
  { rewrite Hhigh. unfold standardOperationsNote, operationTypeAnalysis,
      sensitivityAnalysis.
    rewrite (isReadOnlyRole_Forall _ all_read_only).
    cbn [negb]. rewrite andb_false_r.
    repeat case_match;
      cbn [tallyFactors pushFactor pushWarning addScore setScore];
      repeat (apply Forall_app; split); try done;
      by apply Forall_singleton. }
  case_match; [|done].
  cbn [tallyFactors pushFactor pushRecommendation addScore setScore].
  apply Forall_app. split; [done|]. by apply Forall_singleton.
Qed.

End ReadOnly.

(** X17. A non-empty set of read-only permissions has no factor of level
    High and none of the two sensitivity warnings: its warnings are those
    of the high-risk table. *)
Theorem generateRiskAssessment_read_only (selectedPermissions : list Permission) :
  selectedPermissions ≠ [] →
  Forall (λ p, operationType p = "Read-only") selectedPermissions →
  Forall (λ f, level f ≠ High)
         (factors (generateRiskAssessment selectedPermissions))
  ∧ warnings (generateRiskAssessment selectedPermissions)
    = take 5 (highRiskWarnings selectedPermissions).
Proof.
  intros Hne Hro. split.
  - unfold generateRiskAssessment.
    destruct selectedPermissions as [|p l] eqn:Hsel; [done|].
    rewrite <- Hsel in *. replace (length selectedPermissions =? 0)%nat
      with false by (by rewrite Hsel).
    cbv zeta. cbn [factors]. rewrite sortBySeverity_levels.
    assert (Hall : Forall (λ f, level f ≠ High)
                          (tallyFactors (finalTally selectedPermissions))).
    { unfold finalTally. rewrite readOnly_riskLevelAnalysis by done.
      by apply readOnly_tallyFactors_not_High. }
    repeat (apply Forall_app; split); by apply Forall_factorsOfLevel_all.
  - unfold generateRiskAssessment.
    destruct selectedPermissions as [|p l] eqn:Hsel; [done|].
    rewrite <- Hsel in *. replace (length selectedPermissions =? 0)%nat
      with false by (by rewrite Hsel).
    cbv zeta. cbn [warnings]. rewrite tallyWarnings_finalTally.
    by rewrite readOnly_credentialsWarning, readOnly_piiWarning by done.
Qed.

Lemma generateRiskAssessment_read_only_witness :
  nineReadOnlyAreas ≠ []
  ∧ Forall (λ p, operationType p = "Read-only") nineReadOnlyAreas
  ∧ Forall (λ f, level f ≠ High)
           (factors (generateRiskAssessment nineReadOnlyAreas)).
Proof.
  assert (Hne : nineReadOnlyAreas ≠ []) by discriminate.
  assert (Hro : Forall (λ p, operationType p = "Read-only") nineReadOnlyAreas).
  { unfold nineReadOnlyAreas. rewrite Forall_fmap. repeat constructor. }
  split; [exact Hne|]. split; [exact Hro|].
  exact (proj1 (generateRiskAssessment_read_only _ Hne Hro)).
Defined.

(** *** The order of the input *)

Section Reorder.

Variables l1 l2 : list Permission.
Hypothesis reordered : l1 ≡ₚ l2.
Implicit Types t : Tally.

Lemma existsb_reordered (test : Permission → bool) :
  existsb test l1 = existsb test l2.
Proof.
  pose proof reordered as Hperm. clear reordered.
  induction Hperm as [|p l l' _ IH|p q l|l l' l'' _ IH1 _ IH2].
  - done.
  - cbn [existsb]. by rewrite IH.
  - cbn [existsb]. by destruct (test p), (test q).
  - by rewrite IH1.
Qed.

Lemma count_reordered (P : Permission → Prop) `{!∀ p, Decision (P p)} :
  length (filter P l1) = length (filter P l2).
Proof. by rewrite reordered. Qed.

Lemma length_reordered : length l1 = length l2.
Proof. by rewrite reordered. Qed.

Lemma writeCount_reordered : writeCount l1 = writeCount l2.
Proof. apply count_reordered. Qed.

Lemma readOnlyCount_reordered : readOnlyCount l1 = readOnlyCount l2.
Proof. apply count_reordered. Qed.

Lemma isReadOnlyRole_reordered : isReadOnlyRole l1 = isReadOnlyRole l2.
Proof.
  unfold isReadOnlyRole. by rewrite readOnlyCount_reordered, length_reordered.
Qed.

Lemma writeHeavy_reordered : writeHeavy l1 = writeHeavy l2.
Proof. unfold writeHeavy. by rewrite writeCount_reordered, length_reordered. Qed.

Lemma criticalCount_reordered : criticalCount l1 = criticalCount l2.
Proof. unfold criticalCount, writePermissions. by rewrite reordered. Qed.

Lemma elevatedCount_reordered : elevatedCount l1 = elevatedCount l2.
Proof. unfold elevatedCount, writePermissions. by rewrite reordered. Qed.

Lemma standardCount_reordered : standardCount l1 = standardCount l2.
Proof. apply count_reordered. Qed.

Lemma piiCount_reordered : piiCount l1 = piiCount l2.
Proof. apply count_reordered. Qed.

Lemma financialCount_reordered : financialCount l1 = financialCount l2.
Proof. apply count_reordered. Qed.

Lemma credentialsCount_reordered : credentialsCount l1 = credentialsCount l2.
Proof. apply count_reordered. Qed.

Lemma spannedCategories_reordered :
  spannedCategories l1 = spannedCategories l2.
Proof. unfold spannedCategories. by rewrite reordered. Qed.

Lemma riskLevelAnalysis_reordered t :
  riskLevelAnalysis l1 t = riskLevelAnalysis l2 t.
Proof.
  unfold riskLevelAnalysis.
  by rewrite criticalCount_reordered, elevatedCount_reordered.
Qed.

Lemma sensitivityAnalysis_reordered t :
  sensitivityAnalysis l1 t = sensitivityAnalysis l2 t.
Proof.
  unfold sensitivityAnalysis, sensitivityPoints, sensitivityMultiplier.
  by rewrite credentialsCount_reordered, financialCount_reordered,
    piiCount_reordered, isReadOnlyRole_reordered.
Qed.

Lemma operationTypeAnalysis_reordered t :
  operationTypeAnalysis l1 t = operationTypeAnalysis l2 t.
Proof.
  unfold operationTypeAnalysis.
  by rewrite isReadOnlyRole_reordered, writeHeavy_reordered,
    readOnlyCount_reordered, writeCount_reordered.
Qed.

Lemma standardOperationsNote_reordered t :
  standardOperationsNote l1 t = standardOperationsNote l2 t.
Proof.
  unfold standardOperationsNote.
  by rewrite standardCount_reordered, criticalCount_reordered,
    elevatedCount_reordered, isReadOnlyRole_reordered.
Qed.

Lemma highRiskCheck_reordered t : highRiskCheck l1 t = highRiskCheck l2 t.
Proof.
  unfold highRiskCheck. generalize HIGH_RISK_PERMISSIONS. intros entries.
  revert t. induction entries as [|entry entries IH]; intros t; [done|].
  cbn [foldl]. by rewrite existsb_reordered, IH.
Qed.

Lemma breadthOfAccess_reordered t :
  breadthOfAccess l1 t = breadthOfAccess l2 t.
Proof. unfold breadthOfAccess. by rewrite spannedCategories_reordered. Qed.

Lemma recommend_reordered t : recommend l1 t = recommend l2 t.
Proof.
  unfold recommend.
  by rewrite criticalCount_reordered, existsb_reordered, length_reordered,
    writeCount_reordered, readOnlyCount_reordered.
Qed.

Lemma finalTally_reordered : finalTally l1 = finalTally l2.
Proof.
  unfold finalTally.
  by rewrite riskLevelAnalysis_reordered, sensitivityAnalysis_reordered,
    operationTypeAnalysis_reordered, standardOperationsNote_reordered,
    highRiskCheck_reordered, breadthOfAccess_reordered, recommend_reordered.
Qed.

End Reorder.

(** X18. The assessment does not depend on the order of the permissions:
    two lists that are permutations of each other get the same score,
    classification, factors, warnings and recommendations. *)
Theorem generateRiskAssessment_order_independent (l1 l2 : list Permission) :
  l1 ≡ₚ l2 → generateRiskAssessment l1 = generateRiskAssessment l2.
Proof.
  intros Hperm. unfold generateRiskAssessment.
  by rewrite (length_reordered _ _ Hperm), (finalTally_reordered _ _ Hperm).
Qed.

Lemma generateRiskAssessment_order_independent_witness :
  [charge; payout_operations; team_management]
    ≡ₚ [team_management; charge; payout_operations]
  ∧ generateRiskAssessment [charge; payout_operations; team_management]
    = generateRiskAssessment [team_management; charge; payout_operations].
Proof.
  assert (Hperm : [charge; payout_operations; team_management]
                    ≡ₚ [team_management; charge; payout_operations]).
  { symmetry. apply (Permutation_cons_append [charge; payout_operations]). }
  split; [exact Hperm|].
  exact (generateRiskAssessment_order_independent _ _ Hperm).
Defined.

(** ** The "can do" list: when the call fails, and what the items are *)

Section Keys.

Context {V : Type}.
Implicit Types (obj : Js.Entries V) (key : string).

Lemma get_None_keys (names : list string) key obj :
  Forall (λ e : string * V, e.1 ∉ names) obj → key ∈ names →
  Js.get key obj = None.
Proof.
  intros Hkeys Hkey. induction Hkeys as [|[k v] rest Hk _ IH]; [done|].
  cbn [Js.get]. destruct (String.eqb_spec k key) as [->|_]; done.
Qed.

Lemma get_Some_elem key obj (v : V) :
  Js.get key obj = Some v → (key, v) ∈ obj.
Proof.
  induction obj as [|[k w] rest IH]; [done|]. cbn [Js.get].
  destruct (String.eqb_spec k key) as [->|_].
  - intros [= ->]. apply list_elem_of_here.
  - intros Hget. by apply list_elem_of_further, IH.
Qed.

Lemma Forall_set (P : string * V → Prop) key (v : V) obj :
  P (key, v) → Forall P obj → Forall P (Js.set key v obj).
Proof.
  intros Hv Hobj. induction Hobj as [|[k w] rest Hk Hrest IH].
  - by apply Forall_singleton.
  - cbn [Js.set]. destruct (String.eqb_spec k key) as [->|_].
    + by apply Forall_cons.
    + by apply Forall_cons.
Qed.

Lemma elem_of_insertByIndex (e x : N * (string * V)) sorted :
  x ∈ Js.insertByIndex e sorted ↔ x = e ∨ x ∈ sorted.
Proof.
  induction sorted as [|e' sorted IH].
  - cbn [Js.insertByIndex]. rewrite list_elem_of_singleton, elem_of_nil.
    split; [by left|by intros [?|[]]].
  - cbn [Js.insertByIndex]. destruct (e.1 <? e'.1)%N.
    + by rewrite elem_of_cons.
    + rewrite !elem_of_cons, IH.
      split; [intros [?|[?|?]]|intros [?|[?|?]]]; auto.
Qed.

(** [Object.entries] lists own properties only. *)
Lemma elem_of_entries (x : string * V) obj : x ∈ Js.entries obj → x ∈ obj.
Proof.
  unfold Js.entries. cbv zeta. rewrite elem_of_app. intros [Hindexed|Hnamed].
  - apply list_elem_of_fmap in Hindexed as ([n e] & -> & Hin). cbn [snd].
    assert (Hgen : ∀ indexed : list (N * (string * V)),
               (n, e) ∈ foldr Js.insertByIndex [] indexed → (n, e) ∈ indexed).
    { induction indexed as [|a indexed IH]; [done|]. cbn [foldr].
      rewrite elem_of_insertByIndex, elem_of_cons.
      intros [->|Hrest]; [by left|right; by apply IH]. }
    apply Hgen in Hin. apply list_elem_of_omap in Hin as (e' & He' & Heq).
    destruct (Js.arrayIndex e'.1); [|done]. by injection Heq as _ ->.
  - by apply list_elem_of_filter in Hnamed as [_ Hin].
Qed.

End Keys.

Section CollectOutcome.

Implicit Types (taskGroups : Js.Entries Js.OrderedSet) (tc desc : string).
Implicit Types (p : Permission) (perms : list Permission).

(** No store puts a member name of [Object.prototype] in the table. *)
Lemma storeDescription_keys tc desc taskGroups :
  tc ∉ Js.objectPrototypeNames →
  Forall (λ e : string * Js.OrderedSet, e.1 ∉ Js.objectPrototypeNames)
         taskGroups →
  Forall (λ e : string * Js.OrderedSet, e.1 ∉ Js.objectPrototypeNames)
         (storeDescription tc desc taskGroups).
Proof. intros Htc Hkeys. unfold storeDescription. by apply Forall_set. Qed.

Lemma addDescription_throw tc desc taskGroups :
  Forall (λ e : string * Js.OrderedSet, e.1 ∉ Js.objectPrototypeNames)
         taskGroups →
  tc ∈ Js.objectPrototypeNames →
  addDescription tc desc taskGroups = Js.Throw "TypeError".
Proof.
  intros Hkeys Htc. unfold addDescription.
  rewrite (get_None_keys _ _ _ Hkeys Htc). by rewrite bool_decide_eq_true_2.
Qed.

Lemma storeDescription_loop_keys desc (tcs : list string) taskGroups :
  Forall (λ tc, tc ∉ Js.objectPrototypeNames) tcs →
  Forall (λ e : string * Js.OrderedSet, e.1 ∉ Js.objectPrototypeNames)
         taskGroups →
  Forall (λ e : string * Js.OrderedSet, e.1 ∉ Js.objectPrototypeNames)
         (foldl (λ taskGroups tc, storeDescription tc desc taskGroups)
                taskGroups tcs).
Proof.
  intros Hok. revert taskGroups.
  induction Hok as [|tc tcs Htc _ IH]; intros taskGroups Hkeys; [done|].
  cbn [foldl]. by apply IH, storeDescription_keys.
Qed.

Lemma addDescription_loop_throw desc (tcs : list string) taskGroups :
  Forall (λ e : string * Js.OrderedSet, e.1 ∉ Js.objectPrototypeNames)
         taskGroups →
  Exists (λ tc, tc ∈ Js.objectPrototypeNames) tcs →
  Js.foldM (λ taskGroups tc, addDescription tc desc taskGroups) taskGroups tcs
  = Js.Throw "TypeError".
Proof.
  revert taskGroups. induction tcs as [|tc tcs IH]; intros taskGroups Hkeys Hbad.
  - by apply Exists_nil in Hbad.
  - cbn [Js.foldM].
    destruct (decide (tc ∈ Js.objectPrototypeNames)) as [Htc|Htc].
    + by rewrite addDescription_throw.
    + rewrite addDescription_normal by done. cbn [Js.bind].
      apply Exists_cons in Hbad as [Hbad|Hbad]; [done|].
      apply IH; [by apply storeDescription_keys|done].
Qed.

Lemma collectTaskGroups_throw perms :
  Exists (λ p, Exists (λ tc, tc ∈ Js.objectPrototypeNames) (taskCategories p))
         perms →
  collectTaskGroups perms = Js.Throw "TypeError".
Proof.
  unfold collectTaskGroups.
  assert (Hgen : ∀ taskGroups,
             Forall (λ e : string * Js.OrderedSet,
                       e.1 ∉ Js.objectPrototypeNames) taskGroups →
             Exists (λ p, Exists (λ tc, tc ∈ Js.objectPrototypeNames)
                                 (taskCategories p)) perms →
             Js.foldM (λ taskGroups p,
                         Js.foldM (λ taskGroups tc,
                                     addDescription tc (describe p) taskGroups)
                                  taskGroups (taskCategories p))
                      taskGroups perms
             = Js.Throw "TypeError").
  { induction perms as [|p perms IH]; intros taskGroups Hkeys Hbad.
    - by apply Exists_nil in Hbad.
    - cbn [Js.foldM].
      destruct (decide (Forall (λ tc, tc ∉ Js.objectPrototypeNames)
                               (taskCategories p))) as [Hp|Hp].
      + rewrite addDescription_loop_normal by done. cbn [Js.bind].
        apply Exists_cons in Hbad as [Hbad|Hbad].
        * exfalso. apply Exists_exists in Hbad as (tc & Htc & Hin).
          rewrite Forall_forall in Hp. by apply (Hp tc).
        * apply IH; [by apply storeDescription_loop_keys|done].
      + rewrite addDescription_loop_throw; [done|done|].
        apply not_Forall_Exists in Hp; [|apply _].
        eapply Exists_impl; [exact Hp|]. intros tc Htc. cbv beta in Htc.
        by destruct (decide (tc ∈ Js.objectPrototypeNames)). }
  by apply Hgen.
Qed.

(** The first loop returns the table of the stores or throws a
    [TypeError]. *)
Lemma collectTaskGroups_outcome perms :
  (Forall (λ p, Forall (λ tc, tc ∉ Js.objectPrototypeNames) (taskCategories p))
          perms
   ∧ collectTaskGroups perms = Js.Normal (storedTaskGroups perms))
  ∨ (Exists (λ p, Exists (λ tc, tc ∈ Js.objectPrototypeNames)
                         (taskCategories p)) perms
     ∧ collectTaskGroups perms = Js.Throw "TypeError").
Proof.
  destruct (decide (Forall (λ p, Forall (λ tc, tc ∉ Js.objectPrototypeNames)
                                        (taskCategories p)) perms))
    as [Hok|Hbad].
  - left. split; [done|]. by apply collectTaskGroups_normal.
  - right. apply not_Forall_Exists in Hbad; [|apply _].
    assert (Hex : Exists (λ p, Exists (λ tc, tc ∈ Js.objectPrototypeNames)
                                      (taskCategories p)) perms).
    { eapply Exists_impl; [exact Hbad|]. intros p Hp. cbv beta in Hp.
      apply not_Forall_Exists in Hp; [|apply _].
      eapply Exists_impl; [exact Hp|]. intros tc Htc. cbv beta in Htc.
      by destruct (decide (tc ∈ Js.objectPrototypeNames)). }
    split; [done|]. by apply collectTaskGroups_throw.
Qed.

End CollectOutcome.

(** X19. [generateCanDo] fails exactly when a permission of the set lists
    a task category that names a member of [Object.prototype], and then
    with a TypeError; otherwise it returns a list of at most six items, no
    two of them equal up to case. *)
Theorem generateCanDo_outcome (selectedPermissions : list Permission) :
  (generateCanDo selectedPermissions = Js.Throw "TypeError"
   ↔ ∃ p tc, p ∈ selectedPermissions ∧ tc ∈ taskCategories p
             ∧ tc ∈ Js.objectPrototypeNames)
  ∧ (∀ kind, generateCanDo selectedPermissions = Js.Throw kind →
             kind = "TypeError")
  ∧ (∀ canDo, generateCanDo selectedPermissions = Js.Normal canDo →
              NoDup (Js.toLowerCase <$> canDo) ∧ length canDo ≤ 6).
Proof.
  assert (Hcases :
    (Forall (λ p, Forall (λ tc, tc ∉ Js.objectPrototypeNames)
                         (taskCategories p)) selectedPermissions
     ∧ ∃ canDo, generateCanDo selectedPermissions = Js.Normal canDo
                ∧ NoDup (Js.toLowerCase <$> canDo) ∧ length canDo ≤ 6)
    ∨ (Exists (λ p, Exists (λ tc, tc ∈ Js.objectPrototypeNames)
                           (taskCategories p)) selectedPermissions
       ∧ generateCanDo selectedPermissions = Js.Throw "TypeError")).
  { unfold generateCanDo.
    destruct selectedPermissions as [|p l] eqn:Hsel.
    - left. split; [done|]. eexists. split; [done|].
      split; [by_evaluation|cbn; lia].
    - rewrite <- Hsel. replace (length selectedPermissions =? 0)%nat
        with false by (by rewrite Hsel).
      destruct (collectTaskGroups_outcome selectedPermissions)
        as [[Hok ->]|[Hbad ->]].
      + left. split; [done|]. cbn [Js.bind]. eexists. split; [done|]. split.
        * rewrite fmap_take. eapply sublist_NoDup; [|apply sublist_take].
          apply dedupeIgnoringCase_NoDup.
        * rewrite length_take. lia.
      + right. by split. }
  split; [|split].
  - split.
    + intros Hthrow. destruct Hcases as [[_ (canDo & Hcall & _)]|[Hbad _]];
        [congruence|].
      apply Exists_exists in Hbad as (p & Hp & Hbad).
      apply Exists_exists in Hbad as (tc & Htc & Hname). by exists p, tc.
    + intros (p & tc & Hp & Htc & Hname).
      destruct Hcases as [[Hok _]|[_ Hthrow]]; [|done].
      exfalso. rewrite Forall_forall in Hok. specialize (Hok p Hp).
      rewrite Forall_forall in Hok. by apply (Hok tc).
  - intros kind Hthrow.
    destruct Hcases as [[_ (canDo & Hcall & _)]|[_ Hcall]]; congruence.
  - intros canDo Hcall.
    destruct Hcases as [[_ (canDo' & Hcall' & Hnd & Hlen)]|[_ Hthrow]];
      [|congruence].
    rewrite Hcall in Hcall'. by injection Hcall' as ->.
Qed.

Section Items.

Implicit Types (taskGroups : Js.Entries Js.OrderedSet) (tc desc : string).

(** The final filter only removes items. *)
Lemma elem_of_dedupeIgnoringCase (items : list string) (seen : gset string)
    (x : string) :
  x ∈ dedupeIgnoringCase seen items → x ∈ items.
Proof.
  revert seen. induction items as [|item items IH]; intros seen; [done|].
  cbn [dedupeIgnoringCase]. cbv zeta. case_bool_decide.
  - intros Hx. by apply list_elem_of_further, (IH seen).
  - rewrite !elem_of_cons. intros [->|Hx]; [by left|right; by eapply IH].
Qed.

Lemma Forall_add (Q : string → Prop) desc (descs : Js.OrderedSet) :
  Q desc → Forall Q descs → Forall Q (Js.add desc descs).
Proof.
  intros Hdesc Hdescs. unfold Js.add. case_bool_decide; [done|].
  apply Forall_app. split; [done|]. by apply Forall_singleton.
Qed.

(** Every description in the table is one that a store put there. *)
Lemma storeDescription_descriptions (Q : string → Prop) tc desc taskGroups :
  Q desc →
  Forall (λ e : string * Js.OrderedSet, Forall Q e.2) taskGroups →
  Forall (λ e : string * Js.OrderedSet, Forall Q e.2)
         (storeDescription tc desc taskGroups).
Proof.
  intros Hdesc Hall. unfold storeDescription. apply Forall_set; [|done].
  cbn [snd]. apply Forall_add; [done|].
  destruct (Js.get tc taskGroups) as [descs|] eqn:Hget; [|done].
  apply get_Some_elem in Hget. rewrite Forall_forall in Hall.
  by apply (Hall (tc, descs)).
Qed.

Lemma storedTaskGroups_descriptions (Q : string → Prop)
    (perms : list Permission) :
  Forall (λ p, Q (describe p)) perms →
  Forall (λ e : string * Js.OrderedSet, Forall Q e.2) (storedTaskGroups perms).
Proof.
  unfold storedTaskGroups.
  assert (Hgen : ∀ taskGroups,
             Forall (λ e : string * Js.OrderedSet, Forall Q e.2) taskGroups →
             Forall (λ p, Q (describe p)) perms →
             Forall (λ e : string * Js.OrderedSet, Forall Q e.2)
               (foldl (λ taskGroups p,
                         foldl (λ taskGroups tc,
                                  storeDescription tc (describe p) taskGroups)
                               taskGroups (taskCategories p))
                      taskGroups perms)).
  { induction perms as [|p perms IH]; intros taskGroups Hall Hperms; [done|].
    apply Forall_cons in Hperms as [Hp Hperms]. cbn [foldl].
    apply IH; [|done]. generalize (taskCategories p). intros tcs.
    revert taskGroups Hall. induction tcs as [|tc tcs IHt];
      intros taskGroups Hall; [done|].
    cbn [foldl]. by apply IHt, storeDescription_descriptions. }
  intros Hperms. by apply Hgen.
Qed.

End Items.

(** X20. Every item of the "can do" list is accounted for: it is the
    placeholder of the empty set, or the summary bullet of a task category
    of the priority list under which the set has more than two distinct
    descriptions, with their number, or the description of a permission
    of the set - the api name with spaces for underscores when the
    permission has no description. *)
Theorem generateCanDo_items (selectedPermissions : list Permission)
    (canDo : list string) (item : string) :
  generateCanDo selectedPermissions = Js.Normal canDo →
  item ∈ canDo →
  (selectedPermissions = [] ∧ item = "Access basic Dashboard features")
  ∨ (∃ task, task ∈ priorityTasks
             ∧ 2 < length (taskDescriptions selectedPermissions task)
             ∧ item = summaryBullet task
                        (length (taskDescriptions selectedPermissions task)))
  ∨ (∃ p, p ∈ selectedPermissions ∧ item = describe p).
Proof.
  unfold generateCanDo. destruct selectedPermissions as [|p0 l] eqn:Hsel.
  - intros [= <-] Hitem. apply list_elem_of_singleton in Hitem. by left.
  - rewrite <- Hsel. replace (length selectedPermissions =? 0)%nat
      with false by (by rewrite Hsel).
    destruct (collectTaskGroups_outcome selectedPermissions)
      as [[_ ->]|[_ ->]]; [|done].
    cbn [Js.bind]. intros [= <-] Hitem. right.
    apply elem_of_take in Hitem as (i & Hitem & _).
    apply list_elem_of_lookup_2, elem_of_dedupeIgnoringCase in Hitem.
    unfold canDoList in Hitem. apply elem_of_app in Hitem as [Hitem|Hitem].
    + apply list_elem_of_In, in_flat_map in Hitem as (task & Htask & Hitem).
      apply list_elem_of_In in Htask. apply list_elem_of_In in Hitem.
      rewrite priorityItems_descriptionsAt in Hitem. cbv zeta in Hitem.
      rewrite descriptionsAt_storedTaskGroups in Hitem.
      destruct (2 <? length (taskDescriptions selectedPermissions task))%nat
        eqn:Hlen.
      * left. apply Nat.ltb_lt in Hlen. apply list_elem_of_singleton in Hitem.
        by exists task.
      * right. unfold taskDescriptions in Hitem.
        apply elem_of_setOf, list_elem_of_fmap in Hitem as (p & -> & Hp).
        apply list_elem_of_filter in Hp as [_ Hp]. by exists p.
    + right. unfold remainingItems in Hitem.
      apply list_elem_of_In, in_flat_map in Hitem as (entry & Hentry & Hitem).
      apply list_elem_of_In, elem_of_entries in Hentry.
      apply list_elem_of_In in Hitem.
      assert (Hin : item ∈ entry.2).
      { destruct (negb (bool_decide (entry.1 ∈ priorityTasks))
                  && (0 <? length entry.2)%nat);
          [|by apply elem_of_nil in Hitem].
        apply elem_of_take in Hitem as (i' & Hitem & _).
        by apply list_elem_of_lookup_2 in Hitem. }
      pose proof (storedTaskGroups_descriptions
                    (λ d, ∃ p, p ∈ selectedPermissions ∧ d = describe p)
                    selectedPermissions) as Hall.
      assert (Hentries : Forall (λ d, ∃ p, p ∈ selectedPermissions
                                           ∧ d = describe p) entry.2).
      { assert (Hdescribe : Forall (λ p, ∃ q, q ∈ selectedPermissions
                                              ∧ describe p = describe q)
                                   selectedPermissions).
        { apply Forall_forall. intros p Hp. by exists p. }
        specialize (Hall Hdescribe). rewrite Forall_forall in Hall.
        by apply (Hall entry). }
      rewrite Forall_forall in Hentries. by apply Hentries.
Qed.

Lemma generateCanDo_items_witness :
  generateCanDo [charge; payout_operations]
  = Js.Normal (take 6 (dedupeIgnoringCase ∅
                         (canDoList (storedTaskGroups
                                       [charge; payout_operations]))))
  ∧ description payout_operations
    ∈ take 6 (dedupeIgnoringCase ∅
                (canDoList (storedTaskGroups [charge; payout_operations])))
  ∧ (([charge; payout_operations] = []
      ∧ description payout_operations = "Access basic Dashboard features")
     ∨ (∃ task, task ∈ priorityTasks
                ∧ 2 < length (taskDescriptions [charge; payout_operations] task)
                ∧ description payout_operations
                  = summaryBullet task
                      (length
                         (taskDescriptions [charge; payout_operations] task)))
     ∨ (∃ p, p ∈ [charge; payout_operations]
             ∧ description payout_operations = describe p)).
Proof.
  assert (Hcall : generateCanDo [charge; payout_operations]
                  = Js.Normal
                      (take 6 (dedupeIgnoringCase ∅
                                 (canDoList (storedTaskGroups
                                               [charge; payout_operations])))))
    by (vm_compute; reflexivity).
  assert (Hitem : description payout_operations
                  ∈ take 6 (dedupeIgnoringCase ∅
                              (canDoList (storedTaskGroups
                                            [charge; payout_operations]))))
    by by_evaluation.
  split; [exact Hcall|]. split; [exact Hitem|].
  exact (generateCanDo_items _ _ _ Hcall Hitem).
Defined.

(** ** Sensitivity groups *)


(** ** The resolver and the identity of the returned objects *)

Section StoreAlias.

Variable roleId : string.
Implicit Types (h : Store.Heap) (r : Store.Ref) (refs : list Store.Ref).

(** From a heap that extends [h0], the [map] returns for each reference
    the reference itself, or a reference to an object that [h0] does not
    have. *)
Lemma mapM_alias h0 refs h1 :
  h0 `prefix_of` h1 →
  Forall (λ r, is_Some (h0 !! r)) refs →
  Forall2 (λ r r',
             ∃ p, h0 !! r = Some p
                  ∧ if needsReadOnlyView roleId p
                    then length h0 ≤ r'
                         ∧ (Store.mapM (Store.roleView roleId) refs h1).2 !! r'
                           = Some (asReadOnly p)
                    else r' = r)
          refs (Store.mapM (Store.roleView roleId) refs h1).1.
Proof.
  intros Hpre Hvalid. revert h1 Hpre.
  induction Hvalid as [|r refs [p Hp] Hvalid IH]; intros h1 Hpre.
  - apply Forall2_nil_2.
  - rewrite mapM_cons.
    pose proof (roleView_run roleId h1 r) as Hrun.
    rewrite (prefix_lookup_Some _ _ _ _ Hp Hpre) in Hrun.
    pose proof (roleView_extends roleId h1 r) as Hext.
    destruct (Store.roleView roleId r h1) as [v h2]. cbn [snd] in Hext.
    assert (Hpre2 : h0 `prefix_of` h2) by (by etrans).
    pose proof (IH h2 Hpre2) as Hrest.
    pose proof (mapM_extends roleId refs h2) as Hext2.
    destruct (Store.mapM (Store.roleView roleId) refs h2) as [vs h3].
    cbn [fst snd] in Hrest, Hext2 |- *.
    apply Forall2_cons. split.
    + exists p. split; [done|].
      destruct (needsReadOnlyView roleId p); injection Hrun as -> ->; [|done].
      split; [by apply prefix_length|].
      eapply prefix_lookup_Some; [|exact Hext2].
      by apply list_lookup_middle.
    + eapply Forall2_impl; [exact Hrest|].
      intros r0 r0' (q & Hq & Hcase). by exists q.
Qed.

End StoreAlias.

(** X22. The permissions that [getPermissionsForRole] returns without the
    read-only override are the catalog's own objects, not copies: the
    returned reference is the reference of the catalog.  An overridden
    permission is a new object, one that did not exist before the call. *)
Theorem getPermissionsForRole_shares_catalog (roleId : string)
    (catalog : list Store.Ref) (h : Store.Heap) :
  Forall2 (λ r r',
             ∃ p, h !! r = Some p
                  ∧ if needsReadOnlyView roleId p
                    then length h ≤ r'
                         ∧ (Store.getPermissionsForRole roleId catalog h).2 !! r'
                           = Some (asReadOnly p)
                    else r' = r)
          (filter (λ r, Store.granted roleId h r) catalog)
          (Store.getPermissionsForRole roleId catalog h).1.
Proof.
  unfold Store.getPermissionsForRole.
  apply mapM_alias; [done|apply granted_valid].
Qed.

(** ** Role builder: the selection state *)

Section Builder.

Implicit Types (prev next permissionAccess pendingAccess : gmap string string).
Implicit Types (perms : list Permission) (key level : string).

Lemma hasProperty_own key prev :
  is_Some (prev !! key) → Js.hasProperty key prev = true.
Proof.
  intros Hown. unfold Js.hasProperty. by rewrite bool_decide_eq_true_2.
Qed.

Lemma hasProperty_false key prev :
  Js.hasProperty key prev = false →
  prev !! key = None ∧ key ∉ Js.objectPrototypeNames.
Proof.
  unfold Js.hasProperty. intros Hno. apply orb_false_iff in Hno as [Hown Hin].
  apply bool_decide_eq_false in Hown. apply bool_decide_eq_false in Hin.
  split; [|done]. by apply eq_None_not_Some.
Qed.

(** *** Unchecking a bundle *)

Lemma uncheckBundle_lookup perms prev key :
  uncheckBundle perms prev !! key
  = if bool_decide (key ∈ apiName <$> perms)
       && negb (String.eqb key REQUIRED_PERMISSION)
    then None else prev !! key.
Proof.
  unfold uncheckBundle. revert prev.
  induction perms as [|p perms IH]; intros prev; [done|].
  cbn [foldl]. rewrite IH. csimpl.
  destruct (decide (key = apiName p)) as [->|Hne].
  - rewrite (bool_decide_eq_true_2 (apiName p ∈ apiName p :: _))
      by apply list_elem_of_here.
    cbn [andb].
    destruct (negb (String.eqb (apiName p) REQUIRED_PERMISSION)) eqn:Hreq.
    + rewrite lookup_delete_eq. by destruct (_ && _).
    + by rewrite andb_false_r.
  - assert (Hin : bool_decide (key ∈ apiName p :: (apiName <$> perms))
                  = bool_decide (key ∈ apiName <$> perms)).
    { apply bool_decide_ext. rewrite elem_of_cons.
      split; [by intros [?|?]|by right]. }
    rewrite Hin.
    destruct (negb (String.eqb (apiName p) REQUIRED_PERMISSION)); [|done].
    by rewrite lookup_delete_ne.
Qed.

(** *** Checking a bundle *)

Lemma checkBundle_keeps perms prev key level :
  prev !! key = Some level → checkBundle perms prev !! key = Some level.
Proof.
  unfold checkBundle. revert prev.
  induction perms as [|p perms IH]; intros prev Hkey; [done|].
  cbn [foldl]. apply IH.
  destruct (Js.hasProperty (apiName p) prev) eqn:Hhas; [done|].
  cbn [negb]. apply hasProperty_false in Hhas as [Hnone _].
  rewrite lookup_insert_ne; [done|]. intros <-. congruence.
Qed.

Lemma checkBundle_hasProperty perms prev key :
  Js.hasProperty key prev = true →
  Js.hasProperty key (checkBundle perms prev) = true.
Proof.
  unfold Js.hasProperty. intros Hhas.
  apply orb_true_iff in Hhas as [Hown|Hin].
  - apply bool_decide_eq_true in Hown as [level Hown].
    rewrite (checkBundle_keeps _ _ _ _ Hown).
    by rewrite bool_decide_eq_true_2.
  - rewrite Hin. apply orb_true_r.
Qed.

Lemma checkBundle_all perms prev :
  Forall (λ p, Js.hasProperty (apiName p) (checkBundle perms prev) = true) perms.
Proof.
  revert prev. induction perms as [|p perms IH]; intros prev; [done|].
  apply Forall_cons. split; [|apply IH].
  change (checkBundle (p :: perms) prev)
    with (checkBundle perms
            (if negb (Js.hasProperty (apiName p) prev)
             then <[apiName p := actions p]> prev else prev)).
  apply checkBundle_hasProperty.
  destruct (Js.hasProperty (apiName p) prev) eqn:Hhas; [done|].
  cbn [negb]. apply hasProperty_own. rewrite lookup_insert_eq. by eexists.
Qed.

(** Only the permissions of the bundle are added, each with its default
    access. *)
Lemma checkBundle_added perms prev key level :
  checkBundle perms prev !! key = Some level →
  prev !! key = Some level
  ∨ (prev !! key = None
     ∧ ∃ p, p ∈ perms ∧ apiName p = key ∧ actions p = level).
Proof.
  unfold checkBundle. revert prev.
  induction perms as [|p perms IH]; intros prev; [by left|].
  cbn [foldl]. intros Hnext. apply IH in Hnext as [Hkept|[Hnone Hadded]].
  - destruct (Js.hasProperty (apiName p) prev) eqn:Hhas; [by left|].
    cbn [negb] in Hkept. apply hasProperty_false in Hhas as [Hnone _].
    destruct (decide (apiName p = key)) as [<-|Hne].
    + rewrite lookup_insert_eq in Hkept. injection Hkept as <-.
      right. split; [done|]. exists p. split; [apply list_elem_of_here|done].
    + rewrite lookup_insert_ne in Hkept by done. by left.
  - right. destruct Hadded as (q & Hq & Hname & Hlevel). split.
    + destruct (negb (Js.hasProperty (apiName p) prev)); [|done].
      destruct (decide (apiName p = key)) as [<-|Hne].
      * by rewrite lookup_insert_eq in Hnone.
      * by rewrite lookup_insert_ne in Hnone.
    + exists q. split; [by apply list_elem_of_further|done].
Qed.

End Builder.

(** X23. The required permission "dashboard_baseline" cannot be deselected:
    when it is in the selection, it is still there after a toggle of any
    permission, after a change of any access level, and after a toggle of
    any bundle. *)
Theorem builder_keeps_required (pendingAccess permissionAccess prev
    : gmap string string) (apiName' access : string)
    (perms : list Permission) :
  is_Some (prev !! REQUIRED_PERMISSION) →
  is_Some (togglePermission pendingAccess apiName' prev !! REQUIRED_PERMISSION)
  ∧ is_Some (updatePermissionAccess apiName' access prev
             !! REQUIRED_PERMISSION)
  ∧ is_Some (toggleBundle permissionAccess perms prev !! REQUIRED_PERMISSION).
Proof.
  intros [level Hreq]. split; [|split].
  - unfold togglePermission.
    destruct (String.eqb_spec apiName' REQUIRED_PERMISSION) as [->|Hne];
      [by eexists|].
    destruct (Js.hasProperty apiName' prev).
    + rewrite lookup_delete_ne by done. by eexists.
    + rewrite lookup_insert_ne by done. by eexists.
  - unfold updatePermissionAccess.
    destruct (decide (apiName' = REQUIRED_PERMISSION)) as [->|Hne].
    + rewrite lookup_insert_eq. by eexists.
    + rewrite lookup_insert_ne by done. by eexists.
  - unfold toggleBundle.
    destruct (getBundleCheckState permissionAccess perms).
    + rewrite uncheckBundle_lookup, String.eqb_refl. cbn [negb].
      rewrite andb_false_r. by eexists.
    + rewrite (checkBundle_keeps _ _ _ _ Hreq). by eexists.
    + rewrite (checkBundle_keeps _ _ _ _ Hreq). by eexists.
Qed.

Lemma builder_keeps_required_witness :
  is_Some (({[ "dashboard_baseline" := "read" ]} : gmap string string)
           !! REQUIRED_PERMISSION)
  ∧ is_Some (toggleBundle {[ "dashboard_baseline" := "read" ]}
               [dashboard_baseline] {[ "dashboard_baseline" := "read" ]}
             !! REQUIRED_PERMISSION).
Proof.
  assert (Hreq : is_Some (({[ "dashboard_baseline" := "read" ]}
                           : gmap string string) !! REQUIRED_PERMISSION))
    by (by eexists).
  split; [exact Hreq|].
  exact (proj2 (proj2 (builder_keeps_required
                         ∅ {[ "dashboard_baseline" := "read" ]}
                         {[ "dashboard_baseline" := "read" ]}
                         "charge" "write" [dashboard_baseline] Hreq))).
Defined.

(** X24. A toggle of one permission other than the required one flips it
    and leaves the others alone: a selected permission is removed, an
    unselected one is added with its pending access, else with the access
    the catalog gives it, else with "read".  A name of a member of
    [Object.prototype] always counts as selected and is never added. *)
Theorem togglePermission_flips (pendingAccess prev : gmap string string)
    (apiName' : string) :
  apiName' ≠ REQUIRED_PERMISSION →
  (∀ key, key ≠ apiName' →
          togglePermission pendingAccess apiName' prev !! key = prev !! key)
  ∧ (is_Some (prev !! apiName') →
     togglePermission pendingAccess apiName' prev !! apiName' = None)
  ∧ (prev !! apiName' = None → apiName' ∉ Js.objectPrototypeNames →
     togglePermission pendingAccess apiName' prev !! apiName'
     = Some (accessWhenAdded (pendingAccess !! apiName')
                             (findPermission apiName')))
  ∧ (apiName' ∈ Js.objectPrototypeNames →
     togglePermission pendingAccess apiName' prev !! apiName' = None).
Proof.
  intros Hne. unfold togglePermission.
  destruct (String.eqb_spec apiName' REQUIRED_PERMISSION) as [?|_]; [done|].
  split; [|split; [|split]].
  - intros key Hkey. destruct (Js.hasProperty apiName' prev).
    + by rewrite lookup_delete_ne.
    + by rewrite lookup_insert_ne.
  - intros Hown. rewrite (hasProperty_own _ _ Hown). apply lookup_delete_eq.
  - intros Hnone Hname.
    assert (Hhas : Js.hasProperty apiName' prev = false).
    { unfold Js.hasProperty. rewrite Hnone.
      rewrite (bool_decide_eq_false_2 (is_Some None)) by (by intros [? ?]).
      by rewrite bool_decide_eq_false_2. }
    rewrite Hhas. apply lookup_insert_eq.
  - intros Hname.
    assert (Hhas : Js.hasProperty apiName' prev = true).
    { unfold Js.hasProperty. rewrite (bool_decide_eq_true_2 _ Hname).
      apply orb_true_r. }
    rewrite Hhas. apply lookup_delete_eq.
Qed.

Lemma togglePermission_flips_witness :
  "charge" ≠ REQUIRED_PERMISSION
  ∧ togglePermission ∅ "charge" {[ "dashboard_baseline" := "read" ]} !! "charge"
    = Some (accessWhenAdded ((∅ : gmap string string) !! "charge")
                            (findPermission "charge")).
Proof.
  assert (Hne : "charge" ≠ REQUIRED_PERMISSION) by discriminate.
  split; [exact Hne|].
  apply (togglePermission_flips ∅ {[ "dashboard_baseline" := "read" ]}
           "charge" Hne).
  - reflexivity.
  - by_evaluation.
Defined.

(** X25. A toggle of a bundle that the last render did not show as fully
    checked selects the whole bundle: afterwards every permission of the
    bundle counts as selected, the access levels that were there are
    kept, and what is new is a permission of the bundle with the access
    the record gives it. *)
Theorem toggleBundle_checks (permissionAccess prev : gmap string string)
    (perms : list Permission) :
  getBundleCheckState permissionAccess perms ≠ AllChecked →
  Forall (λ p, Js.hasProperty (apiName p)
                 (toggleBundle permissionAccess perms prev) = true) perms
  ∧ (∀ key level, prev !! key = Some level →
       toggleBundle permissionAccess perms prev !! key = Some level)
  ∧ (∀ key level,
       toggleBundle permissionAccess perms prev !! key = Some level →
       prev !! key = Some level
       ∨ (prev !! key = None
          ∧ ∃ p, p ∈ perms ∧ apiName p = key ∧ actions p = level)).
Proof.
  intros Hstate. unfold toggleBundle.
  destruct (getBundleCheckState permissionAccess perms); [done| |].
  - split; [apply checkBundle_all|]. split.
    + intros key level. apply checkBundle_keeps.
    + intros key level. apply checkBundle_added.
  - split; [apply checkBundle_all|]. split.
    + intros key level. apply checkBundle_keeps.
    + intros key level. apply checkBundle_added.
Qed.

Lemma toggleBundle_checks_witness :
  getBundleCheckState {[ "dashboard_baseline" := "read" ]}
    [dashboard_baseline; charge] ≠ AllChecked
  ∧ Forall (λ p, Js.hasProperty (apiName p)
                   (toggleBundle {[ "dashboard_baseline" := "read" ]}
                      [dashboard_baseline; charge]
                      {[ "dashboard_baseline" := "read" ]}) = true)
           [dashboard_baseline; charge].
Proof.
  assert (Hstate : getBundleCheckState {[ "dashboard_baseline" := "read" ]}
                     [dashboard_baseline; charge] ≠ AllChecked)
    by (vm_compute; discriminate).
  split; [exact Hstate|].
  exact (proj1 (toggleBundle_checks _ {[ "dashboard_baseline" := "read" ]}
                  _ Hstate)).
Defined.

(** X26. A toggle of a bundle that the last render showed as fully checked
    deselects the bundle but for the required permission: afterwards no
    other permission of the bundle is in the selection, and the rest of
    the selection is as it was. *)
Theorem toggleBundle_unchecks (permissionAccess prev : gmap string string)
    (perms : list Permission) :
  getBundleCheckState permissionAccess perms = AllChecked →
  (∀ p, p ∈ perms → apiName p ≠ REQUIRED_PERMISSION →
        toggleBundle permissionAccess perms prev !! apiName p = None)
  ∧ (∀ key, key ∉ apiName <$> perms →
            toggleBundle permissionAccess perms prev !! key = prev !! key)
  ∧ toggleBundle permissionAccess perms prev !! REQUIRED_PERMISSION
    = prev !! REQUIRED_PERMISSION.
Proof.
  intros Hstate. unfold toggleBundle. rewrite Hstate.
  split; [|split].
  - intros p Hp Hreq. rewrite uncheckBundle_lookup.
    rewrite bool_decide_eq_true_2 by (by apply list_elem_of_fmap_2).
    by destruct (String.eqb_spec (apiName p) REQUIRED_PERMISSION).
  - intros key Hkey. rewrite uncheckBundle_lookup.
    by rewrite bool_decide_eq_false_2.
  - rewrite uncheckBundle_lookup, String.eqb_refl. cbn [negb].
    by rewrite andb_false_r.
Qed.

Lemma toggleBundle_unchecks_witness :
  getBundleCheckState
    (<[ "charge" := "write" ]> {[ "dashboard_baseline" := "read" ]})
    [dashboard_baseline; charge] = AllChecked
  ∧ toggleBundle
      (<[ "charge" := "write" ]> {[ "dashboard_baseline" := "read" ]})
      [dashboard_baseline; charge]
      (<[ "charge" := "write" ]> {[ "dashboard_baseline" := "read" ]})
    !! REQUIRED_PERMISSION
    = (<[ "charge" := "write" ]> {[ "dashboard_baseline" := "read" ]}
       : gmap string string) !! REQUIRED_PERMISSION.
Proof.
  assert (Hstate : getBundleCheckState
                     (<[ "charge" := "write" ]>
                        {[ "dashboard_baseline" := "read" ]})
                     [dashboard_baseline; charge] = AllChecked)
    by (vm_compute; reflexivity).
  split; [exact Hstate|].
  exact (proj2 (proj2 (toggleBundle_unchecks _
                         (<[ "charge" := "write" ]>
                            {[ "dashboard_baseline" := "read" ]})
                         _ Hstate))).
Defined.

(** X27. The permissions the dialog passes to the generators are a set of
    catalog records: the catalog records whose api name is in the
    selection, in catalog order, each once. *)
Theorem selectedPermissionsOf_catalog_set (permissionAccess : gmap string string) :
  selectedPermissionsOf permissionAccess `sublist_of` permissions
  ∧ NoDup (selectedPermissionsOf permissionAccess)
  ∧ selectedPermissionsOf permissionAccess ⊆ permissions
  ∧ ∀ p, p ∈ selectedPermissionsOf permissionAccess
         ↔ p ∈ permissions ∧ is_Some (permissionAccess !! apiName p).
Proof.
  unfold selectedPermissionsOf. split; [apply sublist_filter|].
  split; [|split].
  - apply NoDup_filter, (NoDup_fmap_1 apiName), catalog_apiNames_NoDup.
  - intros p Hp. by apply list_elem_of_filter in Hp as [_ Hp].
  - intros p. rewrite list_elem_of_filter.
    split; [by intros [? ?]|by intros [? ?]].
Qed.
